(** * jsonapi-frontend-client: routes feed, media normalizer and file URLs

    A shallow embedding of [src/url.ts], [src/routes.ts] and [src/media.ts]
    together with the properties of the specification that concern them.

    Conventions of the embedding.
    - A JavaScript string is a [string]: a sequence of code units, here the
      code units U+0000..U+00FF, one [ascii] each.
    - A value of TypeScript type [unknown] (a parsed JSON value, an
      attribute value) is a [jsval].  Objects are finite maps from property
      names to values.  Numbers are the integer-valued ones.
    - Code that can throw returns a [result]; code that talks to the
      transport threads the state of the outside world. *)

From Stdlib Require Import ZArith Lia Ascii String.
From stdpp Require Import gmap strings list pretty.

Set Default Proof Using "Type".
#[local] Set Warnings "-register-all".
#[local] Open Scope string_scope.

(** ** Thrown values *)

(** What the code throws.  [src/routes.ts] throws plain [Error]s that differ
    by their message; each message template is one constructor, named after
    the error of the specification it stands for.  [TypeError] is what the
    runtime throws (calling a method that a value does not have, an
    unparsable URL); [ExternalError] is whatever a collaborator outside
    these files throws. *)
Inductive exn : Type :=
  | TypeError (msg : string)
  | OriginMismatchError (url_origin base_origin : string)
  | UnsupportedSchemeError (protocol : string)
  | FeedRequestError (status : Z) (statusText : string)
  | FeedFormatError
  | PaginationOverrunError (maxPages : Z)
  | ExternalError (msg : string).

Inductive result (A : Type) : Type :=
  | Ok (a : A)
  | Throw (e : exn).
Arguments Ok {A} a.
Arguments Throw {A} e.

#[global] Instance result_ret : MRet result := fun _ a => Ok a.
#[global] Instance result_bind : MBind result := fun _ _ f r =>
  match r with Ok a => f a | Throw e => Throw e end.

Definition returns {A} (r : result A) : Prop := exists a, r = Ok a.

(** ** JavaScript strings *)

Module JsString.

(** WhiteSpace and LineTerminator code units below U+0100: what
    [String.prototype.trim] strips and what the regular expression class
    [\s] matches. *)
Definition is_space (c : ascii) : bool :=
  match nat_of_ascii c with
  | 9 | 10 | 11 | 12 | 13 | 32 | 160 => true
  | _ => false
  end.

Fixpoint trimStart (s : string) : string :=
  match s with
  | "" => ""
  | String c s' => if is_space c then trimStart s' else s
  end.

Fixpoint trimEnd (s : string) : string :=
  match s with
  | "" => ""
  | String c s' =>
      match trimEnd s' with
      | "" => if is_space c then "" else String c ""
      | t => String c t
      end
  end.

Definition trim (s : string) : string := trimEnd (trimStart s).

(** [blank s] is the test [s.trim() === ""]. *)
Definition blank (s : string) : bool := String.eqb (trim s) "".

(** [s.startsWith(p)] *)
Fixpoint startsWith (s p : string) {struct p} : bool :=
  match p, s with
  | "", _ => true
  | String a p', String b s' => Ascii.eqb a b && startsWith s' p'
  | String _ _, "" => false
  end.

(** The suffix of [s] from position [n] on: [s.slice(n)]. *)
Fixpoint drop (n : nat) (s : string) : string :=
  match n, s with
  | 0, _ => s
  | S n', String _ s' => drop n' s'
  | S _, "" => ""
  end.

(** The first [n] code units of [s]: [s.slice(0, n)]. *)
Fixpoint take (n : nat) (s : string) : string :=
  match n, s with
  | 0, _ => ""
  | S n', String c s' => String c (take n' s')
  | S _, "" => ""
  end.

(** [s.slice(a, b)] for [0 <= a] and [0 <= b]. *)
Definition slice (s : string) (a b : nat) : string := take (b - a) (drop a s).

(** The first position at or after [pos] at which [needle] occurs in the
    string whose suffix from [pos] on is [s]. *)
Fixpoint indexOf_go (needle s : string) (pos : nat) : option nat :=
  if startsWith s needle then Some pos
  else match s with
       | "" => None
       | String _ s' => indexOf_go needle s' (S pos)
       end.

(** [s.indexOf(needle, from)]; [None] is the result [-1]. *)
Definition indexOf (s needle : string) (from : nat) : option nat :=
  let from := Nat.min from (String.length s) in
  indexOf_go needle (drop from s) from.

(** [s.includes(needle)] *)
Definition includes (s needle : string) : bool :=
  match indexOf s needle 0 with Some _ => true | None => false end.

(** The code unit of the double quote. *)
Definition dquote : ascii := ascii_of_nat 34.

(** [s[i]]; [None] is [undefined]. *)
Definition charAt (s : string) (i : nat) : option ascii := String.get i s.

(** [s.replace(pat, "")] for a string pattern [pat]: the first occurrence
    of [pat] is removed. *)
Definition remove_first (s pat : string) : string :=
  match indexOf s pat 0 with
  | Some i => take i s +:+ drop (i + String.length pat) s
  | None => s
  end.

End JsString.

(** ** JavaScript values *)

Inductive jsval : Type :=
  | JUndefined
  | JNull
  | JBool (b : bool)
  | JNum (z : Z)
  | JStr (s : string)
  | JArr (items : list jsval)
  | JObj (props : gmap string jsval).

Module Js.

(** ToBoolean *)
Definition truthy (v : jsval) : bool :=
  match v with
  | JUndefined | JNull => false
  | JBool b => b
  | JNum z => negb (Z.eqb z 0)
  | JStr s => negb (String.eqb s "")
  | JArr _ | JObj _ => true
  end.

(** [a || b] *)
Definition or (a b : jsval) : jsval := if truthy a then a else b.

(** [typeof v === "object"] *)
Definition typeof_object (v : jsval) : bool :=
  match v with
  | JNull | JArr _ | JObj _ => true
  | _ => false
  end.

(** [m[k]] on a record of unknowns: a missing property reads as
    [undefined]. *)
Definition prop (m : gmap string jsval) (k : string) : jsval :=
  default JUndefined (m !! k).

(** [v.k] for a value [v] that is neither [null] nor [undefined] and a
    name [k] that is no built-in property: own properties of objects;
    primitives and arrays have none. *)
Definition get (v : jsval) (k : string) : jsval :=
  match v with
  | JObj m => prop m k
  | _ => JUndefined
  end.

(** [v?.k] *)
Definition get_opt (v : jsval) (k : string) : jsval :=
  match v with
  | JUndefined | JNull => JUndefined
  | _ => get v k
  end.

(** [attrs?.k] for an optional record *)
Definition prop_opt (m : option (gmap string jsval)) (k : string) : jsval :=
  match m with
  | Some m => prop m k
  | None => JUndefined
  end.

End Js.

(** ** JSON:API documents ([src/types.ts]) *)

(** A resource identifier inside a relationship; [ref_meta] is the inline
    [meta] record that [getRelationshipMetaString] reads. *)
Record ResourceRef : Type := {
  ref_type : string;
  ref_id : string;
  ref_meta : option (gmap string jsval)
}.

(** [JsonApiRelationship["data"]]; [RelNull] also stands for a missing
    [data] member, which the code does not tell apart from [null]. *)
Inductive RelationshipData : Type :=
  | RelNull
  | RelOne (ref : ResourceRef)
  | RelMany (refs : list ResourceRef).

Record JsonApiRelationship : Type := {
  rel_data : RelationshipData
}.

Record JsonApiResource : Type := {
  res_type : string;
  res_id : string;
  attributes : option (gmap string jsval);
  relationships : option (gmap string JsonApiRelationship)
}.

(** ** The configuration boundary ([src/transport.ts]) *)

Module BaseOptions.
Record t : Type := {
  baseUrl : option string;
  envKey : option string
}.
End BaseOptions.
Abbreviation BaseOptions := BaseOptions.t.

(** [getDrupalBaseUrlFromOptions] of [src/transport.ts] resolves the
    configured base origin from the options or the environment, and throws
    when there is none. *)
Class Configuration : Type := {
  getDrupalBaseUrlFromOptions : option BaseOptions -> result string
}.

(** ** [src/url.ts] *)

Module Url.
Import JsString.

(** *** The regular expression [/\/styles\/[^/]+\//] *)

(** The number of code units other than [/] at the start of [s]: what
    the greedy [[^/]+] consumes. *)
Fixpoint segment_length (s : string) : nat :=
  match s with
  | "" => 0
  | String c s' => if Ascii.eqb c "/" then 0 else S (segment_length s')
  end.

(** The length of the match of the expression at the start of [s]. *)
Definition styles_segment_at (s : string) : option nat :=
  if startsWith s "/styles/" then
    let rest := drop 8 s in
    let n := segment_length rest in
    if Nat.ltb 0 n && startsWith (drop n rest) "/" then Some (8 + n + 1)
    else None
  else None.

(** The leftmost match in the string whose suffix from [pos] on is [s]:
    its position and length. *)
Fixpoint styles_segment_search (s : string) (pos : nat) : option (nat * nat) :=
  match styles_segment_at s with
  | Some len => Some (pos, len)
  | None =>
      match s with
      | "" => None
      | String _ s' => styles_segment_search s' (S pos)
      end
  end.

(** GetSubstitution for an expression without capture groups: in the
    replacement text [$$] is a dollar sign, [$&] the matched text,
    [$`] the text before the match and [$'] the text after it; every
    other code unit stands for itself. *)
Fixpoint getSubstitution (matched before after replacement : string) : string :=
  match replacement with
  | "" => ""
  | String c r =>
      if Ascii.eqb c "$" then
        match r with
        | "" => "$"
        | String d r' =>
            if Ascii.eqb d "$" then
              "$" +:+ getSubstitution matched before after r'
            else if Ascii.eqb d "&" then
              matched +:+ getSubstitution matched before after r'
            else if Ascii.eqb d "`" then
              before +:+ getSubstitution matched before after r'
            else if Ascii.eqb d "'" then
              after +:+ getSubstitution matched before after r'
            else String c (getSubstitution matched before after r)
        end
      else String c (getSubstitution matched before after r)
  end.

(** [s.replace(/\/styles\/[^/]+\//, replacement)] *)
Definition replace_styles_segment (s replacement : string) : string :=
  match styles_segment_search s 0 with
  | Some (i, len) =>
      let matched := slice s i (i + len) in
      let before := take i s in
      let after := drop (i + len) s in
      before +:+ getSubstitution matched before after replacement +:+ after
  | None => s
  end.

Section WithConfiguration.
Context `{Configuration}.

Definition resolveFileUrl (url : jsval) (options : option BaseOptions)
  : result (option string) :=
  if negb (Js.truthy url) then Ok None
  else match url with
       | JStr url =>
           if startsWith url "http://" || startsWith url "https://" then
             Ok (Some url)
           else if startsWith url "data:" then Ok (Some url)
           else if startsWith url "//" then Ok (Some ("https:" +:+ url))
           else
             base ← getDrupalBaseUrlFromOptions options;
             let path := if startsWith url "/" then url else "/" +:+ url in
             Ok (Some (base +:+ path))
       | _ => Throw (TypeError "url.startsWith is not a function")
       end.

Definition getFileUrl (file : option JsonApiResource)
    (options : option BaseOptions) : result (option string) :=
  match file ≫= attributes with
  | None => Ok None
  | Some attrs =>
      let uri := Js.prop attrs "uri" in
      let url :=
        Js.or (Js.or (Js.get_opt uri "url") (Js.get_opt uri "value"))
              (Js.prop attrs "url") in
      resolveFileUrl url options
  end.

Definition getImageStyleUrl (originalUrl style : string)
    (options : option BaseOptions) : result string :=
  resolved ← resolveFileUrl (JStr originalUrl) options;
  match resolved with
  | None => Ok originalUrl
  | Some resolved =>
      if includes resolved "/styles/" then
        Ok (replace_styles_segment resolved ("/styles/" +:+ style +:+ "/"))
      else
        let marker := "/files/" in
        match indexOf resolved marker 0 with
        | Some markerIndex =>
            let basePath := slice resolved 0 (markerIndex + String.length marker) in
            let filePath := drop (markerIndex + String.length marker) resolved in
            Ok (basePath +:+ "styles/" +:+ style +:+ "/public/" +:+ filePath)
        | None => Ok resolved
        end
  end.

End WithConfiguration.

End Url.

(** ** [src/media.ts] *)

Module Media.
Import JsString.

Record DrupalImageData : Type := {
  src : string;
  alt : jsval;
  width : jsval;
  height : jsval;
  title : jsval
}.

Inductive MediaType : Type :=
  | Image | Video | File | RemoteVideo | Audio | Unknown.

(** An optional member that is not set is [None], or [JUndefined] where
    the member holds an unknown. *)
Record DrupalMediaData : Type := {
  type : MediaType;
  name : jsval;
  url : option string;
  image : option DrupalImageData;
  mimeType : jsval;
  embedUrl : option string;
  resource : JsonApiResource
}.

Definition findIncluded (included : option (list JsonApiResource))
    (type id : string) : option JsonApiResource :=
  included ≫= List.find (fun item =>
    String.eqb (res_type item) type && String.eqb (res_id item) id).

Definition findIncludedByRelationship
    (included : option (list JsonApiResource))
    (relationship : option JsonApiRelationship) : option JsonApiResource :=
  match rel_data <$> relationship with
  | Some (RelOne data) => findIncluded included (ref_type data) (ref_id data)
  | _ => None
  end.

Definition findIncludedByRelationshipMultiple
    (included : option (list JsonApiResource))
    (relationship : option JsonApiRelationship) : list JsonApiResource :=
  match rel_data <$> relationship with
  | None | Some RelNull => []
  | Some data =>
      let refs :=
        match data with
        | RelMany refs => refs
        | RelOne ref => [ref]
        | RelNull => []
        end in
      omap (fun ref => findIncluded included (ref_type ref) (ref_id ref)) refs
  end.

Definition getRelationshipMetaString
    (relationship : option JsonApiRelationship) (key : string) : option string :=
  match rel_data <$> relationship with
  | Some (RelOne data) =>
      match Js.prop_opt (ref_meta data) key with
      | JStr value => if blank value then None else Some value
      | _ => None
      end
  | _ => None
  end.

(** *** The regular expressions of [getVideoEmbedUrl] *)

Definition is_digit (c : ascii) : bool :=
  let n := nat_of_ascii c in Nat.leb 48 n && Nat.leb n 57.

(** The class [[a-zA-Z0-9_-]] *)
Definition is_id_char (c : ascii) : bool :=
  let n := nat_of_ascii c in
  (Nat.leb 97 n && Nat.leb n 122) || (Nat.leb 65 n && Nat.leb n 90)
  || is_digit c || Nat.eqb n 95 || Nat.eqb n 45.

(** The longest prefix of [s] made of code units of the class [cls]. *)
Fixpoint take_while (cls : ascii -> bool) (s : string) : string :=
  match s with
  | "" => ""
  | String c s' => if cls c then String c (take_while cls s') else ""
  end.

(** [lit(cls+)] matched at the start of [s]: the captured group. *)
Definition match_literal_then (lit : string) (cls : ascii -> bool)
    (s : string) : option string :=
  if startsWith s lit then
    match take_while cls (drop (String.length lit) s) with
    | "" => None
    | group => Some group
    end
  else None.

(** The capture of the leftmost match of an expression that [at_start]
    matches at the start of a string. *)
Fixpoint search (at_start : string -> option string) (s : string)
    : option string :=
  match at_start s with
  | Some group => Some group
  | None =>
      match s with
      | "" => None
      | String _ s' => search at_start s'
      end
  end.

(** [/(?:youtube\.com\/(?:watch\?v=|embed\/)|youtu\.be\/)([a-zA-Z0-9_-]+)/] *)
Definition youtube_at (s : string) : option string :=
  match match_literal_then "youtube.com/watch?v=" is_id_char s with
  | Some group => Some group
  | None =>
      match match_literal_then "youtube.com/embed/" is_id_char s with
      | Some group => Some group
      | None => match_literal_then "youtu.be/" is_id_char s
      end
  end.

(** [/vimeo\.com\/(\d+)/] *)
Definition vimeo_at (s : string) : option string :=
  match_literal_then "vimeo.com/" is_digit s.

Definition getVideoEmbedUrl (url : string) : option string :=
  match search youtube_at url with
  | Some id => Some ("https://www.youtube.com/embed/" +:+ id)
  | None =>
      match search vimeo_at url with
      | Some id => Some ("https://player.vimeo.com/video/" +:+ id)
      | None => None
      end
  end.

(** *** Embedded media references *)

(** The number of white space code units at the start of [s]. *)
Fixpoint space_run (s : string) : nat :=
  match s with
  | "" => 0
  | String c s' => if is_space c then S (space_run s') else 0
  end.

Definition parseDrupalMediaTag (html : string) : option string :=
  let attr := "data-entity-uuid=" in
  match indexOf html attr 0 with
  | None => None
  | Some start =>
      let index := start + String.length attr in
      let index := index + space_run (drop index html) in
      match charAt html index with
      | Some quote =>
          if Ascii.eqb quote dquote || Ascii.eqb quote "'" then
            match indexOf html (String quote "") (index + 1) with
            | None => None
            | Some end_ =>
                let uuid := slice html (index + 1) end_ in
                if String.eqb uuid "" then None else Some uuid
            end
          else None
      | None => None
      end
  end.

(** The [while] loop of [extractEmbeddedMediaUuids]; [fuel] bounds the
    number of times the body runs. *)
Fixpoint scan_tags (fuel : nat) (html : string) (index : nat)
    (uuids : list string) : list string :=
  match fuel with
  | 0 => uuids
  | S fuel =>
      if Nat.ltb index (String.length html) then
        match indexOf html "<drupal-media" index with
        | None => uuids
        | Some start =>
            match indexOf html ">" start with
            | None => uuids
            | Some end_ =>
                let tag := slice html start (end_ + 1) in
                let uuids :=
                  match parseDrupalMediaTag tag with
                  | Some uuid => (uuids ++ [uuid])%list
                  | None => uuids
                  end in
                scan_tags fuel html (end_ + 1) uuids
            end
        end
      else uuids
  end.

(** Every run of the body moves [index] forward, so the body runs at
    most [html.length] times. *)
Definition extractEmbeddedMediaUuids (html : string) : list string :=
  scan_tags (String.length html) html 0 [].

(** *** Media descriptors *)

(** The descriptor of a media resource of which nothing but the kind is
    known. *)
Definition bare (media : JsonApiResource) (kind : MediaType) : DrupalMediaData :=
  {| type := kind;
     name := Js.or (Js.prop_opt (attributes media) "name") (JStr "");
     url := None; image := None; mimeType := JUndefined; embedUrl := None;
     resource := media |}.

(** A value that is a string, or falsy. *)
Definition string_or_falsy (v : jsval) : Prop :=
  (exists s, v = JStr s) \/ Js.truthy v = false.

Section WithConfiguration.
Context `{Configuration}.

Definition extractImageFromFile (file : option JsonApiResource)
  : result (option DrupalImageData) :=
  match file with
  | None => Ok None
  | Some file =>
      url ← Url.getFileUrl (Some file) None;
      match url with
      | None | Some "" => Ok None
      | Some url =>
          let attrs := attributes file in
          let styled := Js.truthy (Js.prop_opt attrs "image_style_uri") in
          Ok (Some {|
            src := url;
            alt := Js.or (Js.prop_opt attrs "filename") (JStr "");
            width := if styled then JUndefined else Js.prop_opt attrs "width";
            height := if styled then JUndefined else Js.prop_opt attrs "height";
            title := JUndefined
          |})
      end
  end.

(** A string or [undefined] as a value. *)
Definition of_string (s : option string) : jsval :=
  match s with
  | Some s => JStr s
  | None => JUndefined
  end.

Definition extractMedia (media : option JsonApiResource)
    (included : option (list JsonApiResource))
  : result (option DrupalMediaData) :=
  match media with
  | None => Ok None
  | Some media =>
      let attrs := attributes media in
      let relationship field := relationships media ≫= (.!! field) in
      let name := Js.or (Js.prop_opt attrs "name") (JStr "") in
      let mediaType := remove_first (res_type media) "media--" in
      let result := {|
        type := Unknown; name := name; url := None; image := None;
        mimeType := JUndefined; embedUrl := None; resource := media
      |} in
      if String.eqb mediaType "image" then
        let fileRelationship := relationship "field_media_image" in
        let result := {|
          type := Image; name := name; url := None; image := None;
          mimeType := JUndefined; embedUrl := None; resource := media
        |} in
        match findIncludedByRelationship included fileRelationship with
        | None => Ok (Some result)
        | Some file =>
            imageData ← extractImageFromFile (Some file);
            match imageData with
            | None => Ok (Some result)
            | Some imageData =>
                let alt := getRelationshipMetaString fileRelationship "alt" in
                let title := getRelationshipMetaString fileRelationship "title" in
                Ok (Some {|
                  type := Image; name := name;
                  url := Some (src imageData);
                  image := Some {|
                    src := src imageData;
                    alt := Js.or (Js.or (of_string alt) (Media.alt imageData)) name;
                    width := width imageData;
                    height := height imageData;
                    title := Js.or (of_string title) (Media.title imageData)
                  |};
                  mimeType := JUndefined; embedUrl := None; resource := media
                |})
            end
        end
      else if String.eqb mediaType "video" then
        let fileRelationship := relationship "field_media_video_file" in
        match findIncludedByRelationship included fileRelationship with
        | None =>
            Ok (Some {|
              type := Video; name := name; url := None; image := None;
              mimeType := JUndefined; embedUrl := None; resource := media
            |})
        | Some file =>
            url ← Url.getFileUrl (Some file) None;
            Ok (Some {|
              type := Video; name := name; url := url; image := None;
              mimeType :=
                Js.or (Js.prop_opt (attributes file) "filemime")
                      (JStr "video/mp4");
              embedUrl := None; resource := media
            |})
        end
      else if String.eqb mediaType "remote_video" then
        let videoUrl := Js.prop_opt attrs "field_media_oembed_video" in
        if Js.truthy videoUrl then
          match videoUrl with
          | JStr videoUrl =>
              Ok (Some {|
                type := RemoteVideo; name := name; url := Some videoUrl;
                image := None; mimeType := JUndefined;
                embedUrl := getVideoEmbedUrl videoUrl; resource := media
              |})
          | _ => Throw (TypeError "url.match is not a function")
          end
        else
          Ok (Some {|
            type := RemoteVideo; name := name; url := None; image := None;
            mimeType := JUndefined; embedUrl := None; resource := media
          |})
      else if String.eqb mediaType "file" || String.eqb mediaType "document" then
        let fileRelationship :=
          match relationship "field_media_file" with
          | Some r => Some r
          | None => relationship "field_media_document"
          end in
        match findIncludedByRelationship included fileRelationship with
        | None =>
            Ok (Some {|
              type := File; name := name; url := None; image := None;
              mimeType := JUndefined; embedUrl := None; resource := media
            |})
        | Some file =>
            url ← Url.getFileUrl (Some file) None;
            Ok (Some {|
              type := File; name := name; url := url; image := None;
              mimeType := Js.prop_opt (attributes file) "filemime";
              embedUrl := None; resource := media
            |})
        end
      else if String.eqb mediaType "audio" then
        let fileRelationship := relationship "field_media_audio_file" in
        match findIncludedByRelationship included fileRelationship with
        | None =>
            Ok (Some {|
              type := Audio; name := name; url := None; image := None;
              mimeType := JUndefined; embedUrl := None; resource := media
            |})
        | Some file =>
            url ← Url.getFileUrl (Some file) None;
            Ok (Some {|
              type := Audio; name := name; url := url; image := None;
              mimeType :=
                Js.or (Js.prop_opt (attributes file) "filemime")
                      (JStr "audio/mpeg");
              embedUrl := None; resource := media
            |})
        end
      else Ok (Some result)
  end.

Definition extractMediaField (entity : JsonApiResource) (fieldName : string)
    (included : option (list JsonApiResource))
  : result (list DrupalMediaData) :=
  match relationships entity ≫= (.!! fieldName) with
  | None => Ok []
  | Some relationship =>
      let mediaResources :=
        findIncludedByRelationshipMultiple included (Some relationship) in
      items ← mapM (fun media => extractMedia (Some media) included)
                   mediaResources;
      Ok (omap id items)
  end.

Definition is_image (m : DrupalMediaData) : bool :=
  match type m with Image => true | _ => false end.

Fixpoint extractPrimaryImage_loop (commonFields : list string)
    (entity : JsonApiResource) (included : option (list JsonApiResource))
  : result (option DrupalImageData) :=
  match commonFields with
  | [] => Ok None
  | fieldName :: commonFields =>
      media ← extractMediaField entity fieldName included;
      match List.find is_image media ≫= image with
      | Some image => Ok (Some image)
      | None => extractPrimaryImage_loop commonFields entity included
      end
  end.

Definition extractPrimaryImage (entity : JsonApiResource)
    (included : option (list JsonApiResource))
  : result (option DrupalImageData) :=
  extractPrimaryImage_loop
    ["field_image"; "field_media_image"; "field_media"; "field_thumbnail";
     "field_hero_image"]
    entity included.

End WithConfiguration.

End Media.

(** ** The platform and the transport *)

(** The WHATWG [URL] class as far as [src/routes.ts] uses it:
    [URL_new input base] is [new URL(input, base)], which throws a
    [TypeError] on an input that does not parse. *)
Class UrlApi : Type := {
  URL : Type;
  URL_new : string -> option URL -> result URL;
  origin : URL -> string;
  protocol : URL -> string;
  searchParams_set : string -> string -> URL -> URL;
  toString : URL -> string
}.

(** What [fetchRoutesPage] reads of a response; [json] is the outcome of
    [res.json()]. *)
Record Response : Type := {
  ok : bool;
  status : Z;
  statusText : string;
  json : result jsval
}.

(** The fetch-like function that [getFetch] of [src/transport.ts] hands
    out, applied to the request options.  [fetchRoutesPage] computes these
    options (headers, secret, cache directive) from its own options alone,
    so for one call of the functions below they are fixed; what varies from
    request to request is the URL.  [World] is the state of everything
    outside: the server and the network. *)
Class Transport : Type := {
  World : Type;
  fetcher : string -> World -> result Response * World
}.

(** ** [src/routes.ts] *)

Module Routes.
Import JsString.

Inductive RouteKind : Type := entity | view.

(** [RoutesFeedItem]; [None] is [null]. *)
Record RoutesFeedItem : Type := {
  path : string;
  kind : RouteKind;
  jsonapi_url : option string;
  data_url : option string
}.

Record RoutesFeedResponse : Type := {
  data : list RoutesFeedItem;
  links_self : option string;
  links_next : option string;
  meta : option jsval
}.

(** The options of [fetchRoutesPage], and [maxPages] of [iterateRoutes]. *)
Record Options : Type := {
  baseUrl : option string;
  envKey : option string;
  langcode : option string;
  limit : option Z;
  url : option string;
  maxPages : option Z
}.

(** [{ ...options, url: pageUrl }] *)
Definition with_url (options : Options) (pageUrl : option string) : Options :=
  {| baseUrl := baseUrl options; envKey := envKey options;
     langcode := langcode options; limit := limit options;
     url := pageUrl; maxPages := maxPages options |}.

Definition normalizeRoutesItem (value : jsval) : option RoutesFeedItem :=
  if negb (Js.truthy value) || negb (Js.typeof_object value) then None
  else
    let path := Js.get value "path" in
    let kind := Js.get value "kind" in
    let jsonapi_url := Js.get value "jsonapi_url" in
    let data_url := Js.get value "data_url" in
    match path with
    | JStr path =>
        if blank path || negb (startsWith path "/") then None
        else
          match kind with
          | JStr kind =>
              if String.eqb kind "entity" then
                match jsonapi_url with
                | JStr jsonapi_url =>
                    if blank jsonapi_url then None
                    else
                      match data_url with
                      | JNull =>
                          Some {| path := path; kind := entity;
                                  jsonapi_url := Some jsonapi_url;
                                  data_url := None |}
                      | _ => None
                      end
                | _ => None
                end
              else if String.eqb kind "view" then
                match data_url with
                | JStr data_url =>
                    if blank data_url then None
                    else
                      match jsonapi_url with
                      | JNull =>
                          Some {| path := path; kind := view;
                                  jsonapi_url := None;
                                  data_url := Some data_url |}
                      | _ => None
                      end
                | _ => None
                end
              else None
          | _ => None
          end
    | _ => None
    end.

Definition getNextLink (links : jsval) : option string :=
  if negb (Js.truthy links) || negb (Js.typeof_object links) then None
  else
    match Js.get links "next" with
    | JStr next => if blank next then None else Some next
    | _ => None
    end.

(** The part of [fetchRoutesPage] that follows the request: from the
    response to the page. *)
Definition read_response (res : Response) : result RoutesFeedResponse :=
  if negb (ok res) then Throw (FeedRequestError (status res) (statusText res))
  else
    doc ← json res;
    if negb (Js.truthy doc) || negb (Js.typeof_object doc) then
      Throw FeedFormatError
    else
      let data := Js.get doc "data" in
      let rawItems := match data with JArr items => items | _ => [] end in
      let items := omap normalizeRoutesItem rawItems in
      let links := Js.get doc "links" in
      let meta := Js.get doc "meta" in
      Ok {|
        data := items;
        links_self :=
          match Js.get_opt links "self" with
          | JStr self => Some self
          | _ => None
          end;
        links_next := getNextLink links;
        meta := if Js.truthy meta && Js.typeof_object meta then Some meta
                else None
      |}.

Section WithPlatform.
Context `{Configuration} `{UrlApi} `{Transport}.

Definition buildRoutesUrl (input base : string) : result URL :=
  baseUrl ← URL_new base None;
  url ← URL_new input (Some baseUrl);
  if negb (String.eqb (origin url) (origin baseUrl)) then
    Throw (OriginMismatchError (origin url) (origin baseUrl))
  else if negb (String.eqb (protocol url) "http:")
          && negb (String.eqb (protocol url) "https:") then
    Throw (UnsupportedSchemeError (protocol url))
  else Ok url.

(** The URL that [fetchRoutesPage] requests. *)
Definition request_url (options : Options) (base : string) : result URL :=
  match url options with
  | Some (String c u) => buildRoutesUrl (String c u) base
  | Some "" | None =>
      u ← buildRoutesUrl "/jsonapi/routes" base;
      let u := searchParams_set "_format" "json" u in
      let u := searchParams_set "page[limit]"
                 (pretty (default 50%Z (limit options))) u in
      Ok match langcode options with
         | Some (String c l) => searchParams_set "langcode" (String c l) u
         | Some "" | None => u
         end
  end.

(** The outside world together with the URLs requested so far. *)
Record State : Type := {
  world : World;
  requests : list string
}.

Definition fetch (url : string) (st : State) : result Response * State :=
  let (res, w) := fetcher url (world st) in
  (res, {| world := w; requests := (requests st ++ [url])%list |}).

Definition fetchRoutesPage (options : Options) (st : State)
  : result RoutesFeedResponse * State :=
  let base :=
    getDrupalBaseUrlFromOptions
      (Some {| BaseOptions.baseUrl := baseUrl options;
               BaseOptions.envKey := envKey options |}) in
  match base ≫= request_url options with
  | Throw e => (Throw e, st)
  | Ok url =>
      let (res, st) := fetch (toString url) st in
      (res ≫= read_response, st)
  end.

(** The [for] loop of [iterateRoutes] with [n] rounds to go: the items
    yielded, how the generator ends, and the state it leaves. *)
Fixpoint iterateRoutes_loop (n : nat) (maxPages : Z) (options : Options)
    (pageUrl : option string) (st : State)
  : list RoutesFeedItem * result unit * State :=
  match n with
  | 0 => ([], Throw (PaginationOverrunError maxPages), st)
  | S n =>
      match fetchRoutesPage (with_url options pageUrl) st with
      | (Throw e, st) => ([], Throw e, st)
      | (Ok page, st) =>
          match links_next page with
          | None | Some "" => (data page, Ok (), st)
          | Some next =>
              let '(items, outcome, st) :=
                iterateRoutes_loop n maxPages options (Some next) st in
              ((data page ++ items)%list, outcome, st)
          end
      end
  end.

Definition iterateRoutes (options : Options) (st : State)
  : list RoutesFeedItem * result unit * State :=
  let maxPages := default 10000%Z (maxPages options) in
  iterateRoutes_loop (Z.to_nat maxPages) maxPages options None st.

Definition collectRoutes (options : Options) (st : State)
  : result (list RoutesFeedItem) * State :=
  let '(items, outcome, st) := iterateRoutes options st in
  (match outcome with Ok _ => Ok items | Throw e => Throw e end, st).

(** The request that [fetchRoutesPage] makes for [options] in the state
    [st] is answered by the response [res], leaving the state [st']. *)
Definition answered (options : Options) (st : State) (res : Response)
    (st' : State) : Prop :=
  exists base requested,
    getDrupalBaseUrlFromOptions
      (Some {| BaseOptions.baseUrl := baseUrl options;
               BaseOptions.envKey := envKey options |}) = Ok base
    /\ request_url options base = Ok requested
    /\ fetch (toString requested) st = (Ok res, st').

(** [follows options pageUrl st pages cursor st']: starting at
    [pageUrl] in the state [st], the feed delivers the pages [pages] one
    after the other, each naming a next page, the last of them naming
    [cursor]; [st'] is the state after the last of them. *)
Inductive follows (options : Options)
  : option string -> State -> list RoutesFeedResponse ->
    option string -> State -> Prop :=
  | follows_nil pageUrl st : follows options pageUrl st [] pageUrl st
  | follows_cons pageUrl st page st1 next pages cursor st' :
      fetchRoutesPage (with_url options pageUrl) st = (Ok page, st1) ->
      links_next page = Some next ->
      next <> "" ->
      follows options (Some next) st1 pages cursor st' ->
      follows options pageUrl st (page :: pages) cursor st'.

End WithPlatform.

End Routes.

(** ** The specification's wording of the route entry invariant *)

Module RouteEntrySpec.
Import JsString.

Definition nonempty_string (v : jsval) : bool :=
  match v with
  | JStr s => negb (String.eqb s "")
  | _ => false
  end.

Definition absent_or_null (v : jsval) : bool :=
  match v with
  | JUndefined | JNull => true
  | _ => false
  end.

(** "Exactly one of [jsonapi_url]/[data_url] is a non-empty string
    consistent with its [kind] (the other being absent or null), and
    [path] is a non-empty string starting with [/]." *)
Definition accepts (value : jsval) : bool :=
  let path := Js.get value "path" in
  let kind := Js.get value "kind" in
  let jsonapi_url := Js.get value "jsonapi_url" in
  let data_url := Js.get value "data_url" in
  nonempty_string path
  && match path with JStr p => startsWith p "/" | _ => false end
  && match kind with
     | JStr k =>
         (String.eqb k "entity" && nonempty_string jsonapi_url
          && absent_or_null data_url)
         || (String.eqb k "view" && nonempty_string data_url
             && absent_or_null jsonapi_url)
     | _ => false
     end.

End RouteEntrySpec.

(** ** Instances used in the examples *)

(** A configuration whose base origin is [base] whatever the options. *)
Definition fixed_base (base : string) : Configuration :=
  {| getDrupalBaseUrlFromOptions := fun _ => Ok base |}.

(** An instance of [UrlApi] for the URLs of the examples: absolute URLs
    [scheme://host/path?query] with a lower-case scheme, and path-absolute
    references [/path?query] resolved against a base.  Any other input is
    reported as unparsable. *)
Module SimpleUrl.
Import JsString.

Record t : Type := {
  scheme : string;
  host : string;
  path_query : string
}.

Fixpoint all_lower (s : string) : bool :=
  match s with
  | "" => true
  | String c s' =>
      Nat.leb 97 (nat_of_ascii c) && Nat.leb (nat_of_ascii c) 122
      && all_lower s'
  end.

Definition parse_absolute (input : string) : option t :=
  match indexOf input "://" 0 with
  | Some i =>
      let rest := drop (i + 3) input in
      let host_length :=
        default (String.length rest) (indexOf rest "/" 0) in
      if Nat.ltb 0 i && all_lower (take i input) && Nat.ltb 0 host_length then
        Some {| scheme := take (i + 1) input;
                host := take host_length rest;
                path_query := match drop host_length rest with
                              | "" => "/"
                              | p => p
                              end |}
      else None
  | None => None
  end.

Definition parse (input : string) (base : option t) : result t :=
  match parse_absolute input, base with
  | Some u, _ => Ok u
  | None, Some b =>
      if startsWith input "/" && negb (startsWith input "//") then
        Ok {| scheme := scheme b; host := host b; path_query := input |}
      else Throw (TypeError "Invalid URL")
  | None, None => Throw (TypeError "Invalid URL")
  end.

(** The schemes whose URLs have a tuple origin. *)
Definition special (scheme : string) : bool :=
  String.eqb scheme "http:" || String.eqb scheme "https:"
  || String.eqb scheme "ftp:" || String.eqb scheme "ws:"
  || String.eqb scheme "wss:".

Definition origin (u : t) : string :=
  if special (scheme u) then scheme u +:+ "//" +:+ host u else "null".

Definition href (u : t) : string := scheme u +:+ "//" +:+ host u +:+ path_query u.

(** Percent-encoding of the square brackets of [page[limit]]. *)
Fixpoint encode (s : string) : string :=
  match s with
  | "" => ""
  | String c s' =>
      if Ascii.eqb c "[" then "%5B" +:+ encode s'
      else if Ascii.eqb c "]" then "%5D" +:+ encode s'
      else String c (encode s')
  end.

(** Setting a parameter that the query does not have yet. *)
Definition set_param (k v : string) (u : t) : t :=
  {| scheme := scheme u; host := host u;
     path_query := path_query u
                   +:+ (if includes (path_query u) "?" then "&" else "?")
                   +:+ encode k +:+ "=" +:+ encode v |}.

Definition api : UrlApi :=
  Build_UrlApi t parse origin scheme set_param href.

End SimpleUrl.

(** The feeds of the examples, served at [https://cms.example.com]. *)
Module Feeds.

Definition base : string := "https://cms.example.com".

Definition options : Routes.Options :=
  {| Routes.baseUrl := Some base; Routes.envKey := None;
     Routes.langcode := None; Routes.limit := None; Routes.url := None;
     Routes.maxPages := None |}.

(** The same options with [maxPages: 3]. *)
Definition options_max3 : Routes.Options :=
  {| Routes.baseUrl := Some base; Routes.envKey := None;
     Routes.langcode := None; Routes.limit := None; Routes.url := None;
     Routes.maxPages := Some 3%Z |}.

Definition entity_item (path jsonapi_url : string) : jsval :=
  JObj (list_to_map [("path", JStr path); ("kind", JStr "entity");
                     ("jsonapi_url", JStr jsonapi_url); ("data_url", JNull)]).

Definition view_item (path data_url : string) : jsval :=
  JObj (list_to_map [("path", JStr path); ("kind", JStr "view");
                     ("jsonapi_url", JNull); ("data_url", JStr data_url)]).

Definition body (items : list jsval) (next : jsval) : jsval :=
  JObj (list_to_map [("data", JArr items);
                     ("links", JObj (list_to_map [("next", next)]))]).

Definition success (doc : jsval) : Response :=
  {| ok := true; status := 200; statusText := "OK"; json := Ok doc |}.

Definition not_found : Response :=
  {| ok := false; status := 404; statusText := "Not Found";
     json := Ok JNull |}.

(** A server that answers every URL with [respond]; it has no state. *)
Definition server (respond : string -> Response) : Transport :=
  {| World := unit; fetcher := fun url w => (Ok (respond url), w) |}.

Definition first_page_url : string :=
  "https://cms.example.com/jsonapi/routes?_format=json&page%5Blimit%5D=50".

(** Three pages of 2, 2 and 1 entries; the third has no [next]. *)
Definition three_pages : Transport := server (fun url =>
  if String.eqb url first_page_url then
    success (body [entity_item "/about" "/jsonapi/node/page/1";
                   view_item "/blog" "/jsonapi/views/blog/page_1"]
                  (JStr "https://cms.example.com/jsonapi/routes?page=2"))
  else if String.eqb url "https://cms.example.com/jsonapi/routes?page=2" then
    success (body [entity_item "/contact" "/jsonapi/node/page/2";
                   entity_item "/team" "/jsonapi/node/page/3"]
                  (JStr "/jsonapi/routes?page=3"))
  else if String.eqb url "https://cms.example.com/jsonapi/routes?page=3" then
    success (body [view_item "/news" "/jsonapi/views/news/page_1"] JNull)
  else not_found).

(** A feed whose every page names a next page. *)
Definition endless : Transport := server (fun url =>
  success (body [entity_item "/about" "/jsonapi/node/page/1"]
                (JStr "/jsonapi/routes?page=next"))).

(** A server that answers every URL with the document [doc]. *)
Definition constant (doc : jsval) : Transport :=
  server (fun _ => success doc).

(** A body that is a string, and a body whose [data] is a string. *)
Definition string_body : Transport := constant (JStr "oops").
Definition string_data : Transport :=
  constant (JObj {[ "data" := JStr "oops" ]}).

Definition state (T : Transport) (w : @World T) (requested : list string)
  : @Routes.State T :=
  {| Routes.world := w; Routes.requests := requested |}.

(** The state in which nothing has been requested yet. *)
Definition start (T : Transport) (w : @World T) : @Routes.State T :=
  state T w [].

End Feeds.

(** The documents of the examples. *)
Module Documents.

Definition file (attrs : list (string * jsval)) : JsonApiResource :=
  {| res_type := "file--file"; res_id := "f1";
     attributes := Some (list_to_map attrs); relationships := None |}.

Definition png : JsonApiResource :=
  file [("uri", JObj {[ "url" := JStr "/sites/default/files/a.png" ]});
        ("filename", JStr "a.png");
        ("width", JNum 800); ("height", JNum 600)].

(** The same file as served with image style URLs. *)
Definition styled_png : JsonApiResource :=
  file [("uri", JObj {[ "url" := JStr "/sites/default/files/a.png" ]});
        ("filename", JStr "a.png");
        ("image_style_uri",
         JObj {[ "thumbnail" :=
                   JStr "/sites/default/files/styles/thumbnail/public/a.png" ]});
        ("width", JNum 800); ("height", JNum 600)].

Definition media (bundle : string) (attrs : list (string * jsval))
    (rels : list (string * JsonApiRelationship)) : JsonApiResource :=
  {| res_type := "media--" +:+ bundle; res_id := "m1";
     attributes := Some (list_to_map attrs);
     relationships := Some (list_to_map rels) |}.

(** A reference to the file [f1] carrying the inline metadata [meta]. *)
Definition file_ref (meta : option (gmap string jsval)) : JsonApiRelationship :=
  {| rel_data := RelOne {| ref_type := "file--file"; ref_id := "f1";
                           ref_meta := meta |} |}.

Definition logo : JsonApiResource :=
  media "image" [("name", JStr "Logo")]
    [("field_media_image",
      file_ref (Some {[ "alt" := JStr "The company logo" ]}))].

Definition logo_without_meta : JsonApiResource :=
  media "image" [("name", JStr "Logo")] [("field_media_image", file_ref None)].

Definition podcast : JsonApiResource :=
  media "podcast" [("name", JStr "Episode 1")] [].

(** A remote video whose oEmbed URL attribute is a number. *)
Definition numbered_video : JsonApiResource :=
  media "remote_video" [("field_media_oembed_video", JNum 42)] [].

Definition talk : JsonApiResource :=
  media "remote_video"
    [("field_media_oembed_video", JStr "https://youtu.be/abc_-1")] [].

(** The file URLs of the examples. *)
Definition original_url : string :=
  "https://cms.example.com/sites/default/files/a.png".
Definition thumbnail_url : string :=
  "https://cms.example.com/sites/default/files/styles/thumbnail/public/a.png".
Definition large_url : string :=
  "https://cms.example.com/sites/default/files/styles/large/public/a.png".

(** A file in a directory called [styles]: the URL contains [/styles/] but
    no segment [/styles/<name>/]. *)
Definition styles_directory_url : string :=
  "https://cms.example.com/sites/default/files/styles/a.png".

Definition favicon_url : string := "https://cms.example.com/favicon.ico".

(** [s] between double quotes. *)
Definition quoted (s : string) : string :=
  String JsString.dquote (s +:+ String JsString.dquote "").

(** The rich text of the specification's example. *)
Definition paragraph : string :=
  "<p><drupal-media data-entity-uuid=" +:+ quoted "abc-123"
  +:+ " data-align=" +:+ quoted "center" +:+ "></drupal-media></p>".

(** Three embeds, two of them of the same entity, around a tag that has no
    identifier. *)
Definition article : string :=
  "<drupal-media data-entity-uuid='a'></drupal-media><p>text</p>"
  +:+ "<drupal-media data-align='left'></drupal-media>"
  +:+ "<drupal-media data-entity-uuid= 'b'></drupal-media>"
  +:+ "<drupal-media data-entity-uuid='a'></drupal-media>".

(** A tag that is never closed, followed by a well-formed one. *)
Definition unterminated : string := "<drupal-media data-entity-uuid='a' ".
Definition wellformed : string :=
  "<drupal-media data-entity-uuid='b'></drupal-media>".

End Documents.

(** More feeds for the examples. *)
Module MoreFeeds.

Definition server_error : Response :=
  {| ok := false; status := 500; statusText := "Internal Server Error";
     json := Ok JNull |}.

(** A first page that names a second one, which the server fails to
    deliver. *)
Definition broken_second : Transport := Feeds.server (fun url =>
  if String.eqb url Feeds.first_page_url then
    Feeds.success
      (Feeds.body [Feeds.entity_item "/about" "/jsonapi/node/page/1"]
                  (JStr "/jsonapi/routes?page=2"))
  else server_error).

(** A page with one well-formed item among malformed ones. *)
Definition mixed_items : list jsval :=
  [JNum 7; Feeds.entity_item "about" "/jsonapi/node/page/1";
   Feeds.view_item "/blog" "/jsonapi/views/blog/page_1"; JNull;
   JObj {[ "path" := JStr "/x" ]}].

Definition mixed : Transport :=
  Feeds.constant (Feeds.body mixed_items JNull).

(** A response whose body does not parse. *)
Definition bad_json : Transport := Feeds.server (fun _ =>
  {| ok := true; status := 200; statusText := "OK";
     json := Throw (ExternalError "Unexpected token < in JSON") |}).

(** The options with the cursor of the second page. *)
Definition options_page2 : Routes.Options :=
  Routes.with_url Feeds.options (Some "/jsonapi/routes?page=2").

(** Options that allow no page at all. *)
Definition options_max0 : Routes.Options :=
  {| Routes.baseUrl := Some Feeds.base; Routes.envKey := None;
     Routes.langcode := None; Routes.limit := None; Routes.url := None;
     Routes.maxPages := Some 0%Z |}.

End MoreFeeds.

(** More documents for the examples. *)
Module MoreDocuments.

(** A video file that declares no MIME type. *)
Definition mp4 : JsonApiResource :=
  Documents.file
    [("uri", JObj {[ "url" := JStr "/sites/default/files/v.mp4" ]})].

Definition clip : JsonApiResource :=
  Documents.media "video" [("name", JStr "Clip")]
    [("field_media_video_file", Documents.file_ref None)].

Definition pdf : JsonApiResource :=
  Documents.file
    [("uri", JObj {[ "url" := JStr "/sites/default/files/h.pdf" ]});
     ("filemime", JStr "application/pdf")].

(** A reference to a file that no document includes. *)
Definition missing_ref : JsonApiRelationship :=
  {| rel_data := RelOne {| ref_type := "file--file"; ref_id := "missing";
                           ref_meta := None |} |}.

(** A document whose file is named by [field_media_document]. *)
Definition handbook : JsonApiResource :=
  Documents.media "document" [("name", JStr "Handbook")]
    [("field_media_document", Documents.file_ref None)].

(** The same with a [field_media_file] that does not resolve. *)
Definition handbook_dangling : JsonApiResource :=
  Documents.media "document" [("name", JStr "Handbook")]
    [("field_media_file", missing_ref);
     ("field_media_document", Documents.file_ref None)].

Definition media_ref (id : string) : ResourceRef :=
  {| ref_type := "media--image"; ref_id := id; ref_meta := None |}.

(** A page whose [field_image] names a media that is not included and
    then the logo. *)
Definition page : JsonApiResource :=
  {| res_type := "node--page"; res_id := "n1"; attributes := None;
     relationships :=
       Some {[ "field_image" :=
                 {| rel_data := RelMany [media_ref "m0"; media_ref "m1"] |} ]} |}.

(** An image media without relationships: its file cannot be found. *)
Definition orphan : JsonApiResource :=
  {| res_type := "media--image"; res_id := "m2"; attributes := None;
     relationships := None |}.

(** A teaser whose [field_image] names the orphan and then the logo, and
    whose [field_thumbnail] names the logo. *)
Definition teaser : JsonApiResource :=
  {| res_type := "node--teaser"; res_id := "n2"; attributes := None;
     relationships :=
       Some (list_to_map
         [("field_image",
           {| rel_data := RelMany [media_ref "m2"; media_ref "m1"] |});
          ("field_thumbnail", {| rel_data := RelOne (media_ref "m1") |})]) |}.

(** The image data of the logo with the file [Documents.png]. *)
Definition logo_image : Media.DrupalImageData :=
  {| Media.src := Documents.original_url;
     Media.alt := JStr "The company logo";
     Media.width := JNum 800; Media.height := JNum 600;
     Media.title := JUndefined |}.

End MoreDocuments.

(** Predicates on strings used in the statements. *)
Module Text.

(** Every code unit of [s] is of the class [cls]. *)
Fixpoint all_chars (cls : ascii -> bool) (s : string) : bool :=
  match s with
  | "" => true
  | String c s' => cls c && all_chars cls s'
  end.

(** [s] does not begin with a code unit of the class [cls]. *)
Definition stops (cls : ascii -> bool) (s : string) : bool :=
  match s with
  | "" => true
  | String c _ => negb (cls c)
  end.

(** [s] is an absolute [http(s)] address or a [data:] address. *)
Definition absolute (s : string) : bool :=
  JsString.startsWith s "http://" || JsString.startsWith s "https://"
  || JsString.startsWith s "data:".

(** The three forms of a YouTube address that [getVideoEmbedUrl] knows. *)
Definition youtube_forms : list string :=
  ["youtube.com/watch?v="; "youtube.com/embed/"; "youtu.be/"].

(** A value that the scan of [extractEmbeddedMediaUuids] may hold: it is
    not empty and was read from a span of the input. *)
Definition read_from (html uuid : string) : Prop :=
  uuid <> ""
  /\ exists start end_,
       JsString.startsWith (JsString.drop start html) "<drupal-media" = true
       /\ JsString.indexOf html ">" start = Some end_
       /\ Media.parseDrupalMediaTag (JsString.slice html start (end_ + 1))
          = Some uuid.

End Text.

(** What [extractPrimaryImage] looks at in a field. *)
Module PrimaryImage.
Import Media.

(** The fields that [extractPrimaryImage] tries, in their order. *)
Definition commonFields : list string :=
  ["field_image"; "field_media_image"; "field_media"; "field_thumbnail";
   "field_hero_image"].

(** [d] is the first descriptor of kind image in [ds]. *)
Definition first_image (ds : list DrupalMediaData) (d : DrupalMediaData)
  : Prop :=
  exists before after,
    ds = (before ++ d :: after)%list
    /\ Forall (fun x => type x <> Image) before
    /\ type d = Image.

Section WithConfiguration.
Context `{Configuration}.

(** The field gives no image: [extractMediaField] returns for it, and
    the first descriptor of kind image, if there is one, has no image
    data. *)
Definition passed_over (entity : JsonApiResource)
    (included : option (list JsonApiResource)) (fieldName : string) : Prop :=
  exists ds,
    extractMediaField entity fieldName included = Ok ds
    /\ forall d, first_image ds d -> image d = None.

End WithConfiguration.

End PrimaryImage.

(** Closes the side conditions on the members of a descriptor once the
    descriptor is known. *)
Ltac descriptor_members :=
  eexists; split; [reflexivity|];
  repeat match goal with
         | |- _ /\ _ => split
         | |- forall _, _ => intro
         end;
  simpl in *;
  try done;
  try (by simplify_eq);
  try (by match goal with H : is_Some None |- _ => destruct H end);
  try (by eexists);
  auto.

(** * Properties *)

Module JsStringFacts.
Import JsString.

Lemma startsWith_app (s p : string) : startsWith (p +:+ s) p = true.
Proof.
  induction p as [|a p IH]; simpl; [done|].
  by rewrite Ascii.eqb_refl.
Qed.

Lemma startsWith_true (s p : string) :
  startsWith s p = true <-> exists t, s = p +:+ t.
Proof.
  revert s. induction p as [|a p IH]; intros s; simpl.
  - split; [by exists s|done].
  - destruct s as [|b s]; [split; [done|by intros [t Ht]]|].
    rewrite andb_true_iff, IH. split.
    + intros [Hab [t ->]]. apply Ascii.eqb_eq in Hab as ->. by exists t.
    + intros [t Ht]. injection Ht as -> ->. rewrite Ascii.eqb_refl. eauto.
Qed.

Lemma drop_empty (n : nat) : drop n "" = "".
Proof. by destruct n. Qed.

Lemma str_app_cons (c : ascii) (s t : string) :
  String c s +:+ t = String c (s +:+ t).
Proof. reflexivity. Qed.

Lemma length_drop (n : nat) (s : string) :
  String.length (drop n s) = String.length s - n.
Proof.
  revert s. induction n as [|n IH]; intros [|c s]; simpl; auto with lia.
Qed.

Lemma drop_ge (n : nat) (s : string) : String.length s <= n -> drop n s = "".
Proof.
  revert s. induction n as [|n IH]; intros [|c s]; simpl; auto with lia.
Qed.

Lemma drop_drop (a b : nat) (s : string) : drop a (drop b s) = drop (b + a) s.
Proof.
  revert s. induction b as [|b IH]; intros s; [done|].
  destruct s as [|c s]; simpl; [apply drop_empty|apply IH].
Qed.

Lemma drop_app_length (s t : string) : drop (String.length s) (s +:+ t) = t.
Proof. induction s as [|c s IH]; [done|]. by rewrite str_app_cons. Qed.

Lemma take_app_length (s t : string) : take (String.length s) (s +:+ t) = s.
Proof.
  induction s as [|c s IH]; [by destruct t|]. rewrite str_app_cons. simpl.
  by rewrite IH.
Qed.

Lemma length_take (n : nat) (s : string) :
  n <= String.length s -> String.length (take n s) = n.
Proof.
  revert s. induction n as [|n IH]; intros [|c s] Hn; simpl in *;
    auto with lia.
Qed.

Lemma take_drop (n : nat) (s : string) : take n s +:+ drop n s = s.
Proof.
  revert s. induction n as [|n IH]; intros [|c s]; simpl; try done.
  by rewrite str_app_cons, IH.
Qed.

Lemma str_length_app (s t : string) :
  String.length (s +:+ t) = String.length s + String.length t.
Proof.
  induction s as [|c s IH]; [done|]. rewrite str_app_cons. simpl. by rewrite IH.
Qed.

Lemma str_app_assoc (s t u : string) : (s +:+ t) +:+ u = s +:+ t +:+ u.
Proof. induction s as [|c s IH]; [done|]. by rewrite !str_app_cons, IH. Qed.

Lemma slice_drop (s : string) (k a b : nat) :
  slice (drop k s) a b = slice s (k + a) (k + b).
Proof.
  unfold slice. rewrite drop_drop. f_equal. lia.
Qed.

Lemma indexOf_go_shift (needle s : string) (a b : nat) :
  indexOf_go needle s (a + b) = Nat.add a <$> indexOf_go needle s b.
Proof.
  revert b. induction s as [|c s IH]; intros b; simpl.
  - by destruct (startsWith "" needle).
  - destruct (startsWith (String c s) needle); [done|].
    by rewrite <- IH, Nat.add_succ_r.
Qed.

(** What a found position means: the needle is there, and nowhere at or
    after the start of the search before it. *)
Lemma indexOf_go_Some (needle s : string) (pos i : nat) :
  indexOf_go needle s pos = Some i <->
  exists k, i = pos + k /\ k <= String.length s
            /\ startsWith (drop k s) needle = true
            /\ forall j, j < k -> startsWith (drop j s) needle = false.
Proof.
  revert pos. induction s as [|c s IH]; intros pos; simpl.
  - destruct (startsWith "" needle) eqn:Hp; split.
    + intros [= <-]. exists 0. repeat split; auto with lia.
    + intros (k & -> & Hk & _). f_equal. simpl in Hk. lia.
    + done.
    + intros (k & -> & Hk & Hat & _). rewrite drop_empty in Hat. congruence.
  - destruct (startsWith (String c s) needle) eqn:Hp; split.
    + intros [= <-]. exists 0. repeat split; auto with lia.
    + intros (k & -> & _ & _ & Hbefore). destruct k as [|k]; [f_equal; lia|].
      specialize (Hbefore 0 ltac:(lia)). simpl in Hbefore. congruence.
    + intros (k & -> & Hk & Hat & Hbefore)%IH. exists (S k).
      repeat split; auto with lia.
      intros [|j] Hj; [done|]. apply Hbefore. lia.
    + intros (k & -> & Hk & Hat & Hbefore). destruct k as [|k].
      { simpl in Hat. congruence. }
      apply IH. exists k. repeat split; auto with lia.
      intros j Hj. apply (Hbefore (S j)). lia.
Qed.

Lemma indexOf_None_go (needle s : string) (pos : nat) :
  indexOf_go needle s pos = None <->
  forall j, j <= String.length s -> startsWith (drop j s) needle = false.
Proof.
  revert pos. induction s as [|c s IH]; intros pos; simpl.
  - destruct (startsWith "" needle) eqn:Hp; split; try done.
    + intros Hall. specialize (Hall 0 ltac:(lia)). simpl in Hall. congruence.
    + intros _ j _. by rewrite drop_empty.
  - destruct (startsWith (String c s) needle) eqn:Hp; split; try done.
    + intros Hall. specialize (Hall 0 ltac:(lia)). simpl in Hall. congruence.
    + intros Hnone [|j] Hj; [done|]. simpl.
      apply (proj1 (IH (S pos)) Hnone). lia.
    + intros Hall. apply IH. intros j Hj. apply (Hall (S j)). lia.
Qed.

Lemma indexOf_shift (s needle : string) (index k : nat) :
  index <= String.length s ->
  indexOf s needle (index + k) = Nat.add index <$> indexOf (drop index s) needle k.
Proof.
  intros Hindex. unfold indexOf. rewrite length_drop, drop_drop.
  replace (Nat.min (index + k) (String.length s))
    with (index + Nat.min k (String.length s - index)) by lia.
  apply indexOf_go_shift.
Qed.

(** A found position is at or after the start of the search, and a found
    needle that is not empty lies inside the string. *)
Lemma indexOf_bounds (s needle : string) (from i : nat) :
  indexOf s needle from = Some i ->
  Nat.min from (String.length s) <= i
  /\ (needle <> "" -> i < String.length s).
Proof.
  unfold indexOf. intros (k & -> & Hk & Hat & _)%indexOf_go_Some.
  split; [lia|]. intros Hneedle. rewrite length_drop in Hk.
  destruct (decide (Nat.min from (String.length s) + k < String.length s))
    as [|Hge]; [done|].
  rewrite drop_drop in Hat.
  assert (Hend : drop (Nat.min from (String.length s) + k) s = "").
  { apply drop_ge. lia. }
  rewrite Hend in Hat. by destruct needle.
Qed.

Lemma drop_app (j : nat) (s rest : string) :
  j <= String.length s -> drop j (s +:+ rest) = drop j s +:+ rest.
Proof.
  revert s. induction j as [|j IH]; intros [|c s] Hj; simpl in *;
    try done; try lia.
  rewrite ?str_app_cons. simpl. apply IH. lia.
Qed.

(** A prefix test only looks at as many code units as the prefix has. *)
Lemma startsWith_app_long (s rest p : string) :
  String.length p <= String.length s ->
  startsWith (s +:+ rest) p = startsWith s p.
Proof.
  revert s. induction p as [|a p IH]; intros [|c s] Hlen; simpl in *;
    try done; try lia.
  rewrite ?str_app_cons. change (startsWith (String c (s +:+ rest)) (String a p))
    with (Ascii.eqb a c && startsWith (s +:+ rest) p).
  rewrite IH by lia. done.
Qed.

Lemma includes_true (s needle : string) (k : nat) :
  k <= String.length s ->
  startsWith (drop k s) needle = true ->
  includes s needle = true.
Proof.
  intros Hk Hat. unfold includes, indexOf. simpl Nat.min. cbn [drop].
  destruct (indexOf_go needle s 0) eqn:Hgo; [done|].
  rewrite (proj1 (indexOf_None_go _ _ _) Hgo k Hk) in Hat. done.
Qed.

Lemma includes_false (s needle : string) (k : nat) :
  includes s needle = false ->
  k <= String.length s ->
  startsWith (drop k s) needle = false.
Proof.
  unfold includes, indexOf. simpl Nat.min. cbn [drop].
  destruct (indexOf_go needle s 0) eqn:Hgo; [done|]. intros _.
  apply (proj1 (indexOf_None_go _ _ _) Hgo).
Qed.

(** A code unit that does not occur: the head is another one, and it does
    not occur in the tail. *)
Lemma indexOf_char_cons_None (c d : ascii) (s : string) :
  indexOf (String d s) (String c "") 0 = None ->
  d <> c /\ indexOf s (String c "") 0 = None.
Proof.
  unfold indexOf. simpl Nat.min. cbn [drop]. intros Hnone.
  pose proof (proj1 (indexOf_None_go _ _ _) Hnone) as Hall. split.
  - intros ->. specialize (Hall 0 ltac:(lia)). cbn in Hall.
    by rewrite Ascii.eqb_refl in Hall.
  - apply indexOf_None_go. intros j Hj. apply (Hall (S j)). simpl. lia.
Qed.

End JsStringFacts.

#[global] Arguments JsString.startsWith : simpl never.
#[global] Arguments JsString.blank : simpl never.
#[global] Arguments JsString.indexOf : simpl never.

Module UrlSpec.
Import JsString JsStringFacts Url.

Section ResolveFileUrl.
Context `{Configuration}.

(** C7.  [resolveFileUrl] returns none for an undefined, null or empty
    input; returns an input starting with [http://], [https://] or
    [data:] unchanged; puts [https:] in front of an input starting with
    [//]; and for every other input concatenates the configured base
    origin and the input, with a [/] put in front of the input when it
    has none. *)
Theorem resolveFileUrl_cases (options : option BaseOptions) :
  (resolveFileUrl JUndefined options = Ok None
   /\ resolveFileUrl JNull options = Ok None
   /\ resolveFileUrl (JStr "") options = Ok None)
  /\ (forall url,
        startsWith url "http://" || startsWith url "https://"
          || startsWith url "data:" = true ->
        resolveFileUrl (JStr url) options = Ok (Some url))
  /\ (forall url,
        startsWith url "//" = true ->
        resolveFileUrl (JStr url) options = Ok (Some ("https:" +:+ url)))
  /\ (forall url base,
        url <> "" ->
        startsWith url "http://" || startsWith url "https://"
          || startsWith url "data:" || startsWith url "//" = false ->
        getDrupalBaseUrlFromOptions options = Ok base ->
        exists path,
          resolveFileUrl (JStr url) options = Ok (Some (base +:+ path))
          /\ startsWith path "/" = true
          /\ (if startsWith url "/" then path = url
              else path = "/" +:+ url)).
Proof.
  repeat split.
  - intros url Hp. unfold resolveFileUrl.
    destruct url as [|c url]; [done|]. cbn [Js.truthy String.eqb negb].
    destruct (startsWith (String c url) "http://"
              || startsWith (String c url) "https://"); [done|].
    cbn [orb] in Hp. by rewrite Hp.
  - intros url Hp. unfold resolveFileUrl.
    apply startsWith_true in Hp as [t ->]. reflexivity.
  - intros url base Hne Hp Hbase. unfold resolveFileUrl.
    destruct url as [|c url]; [done|]. cbn [Js.truthy String.eqb negb].
    apply orb_false_elim in Hp as [Hp Hslash].
    apply orb_false_elim in Hp as [Hp Hdata].
    rewrite Hp, Hdata, Hslash, Hbase. cbn [mbind result_bind].
    destruct (startsWith (String c url) "/") eqn:Hs.
    + by exists (String c url).
    + by exists ("/" +:+ String c url).
Qed.

(** The rewriting of a protocol-relative input and the concatenation
    onto the base never apply to an input that is already absolute. *)
Lemma protocol_relative_not_absolute (url : string) :
  startsWith url "//" = true ->
  startsWith url "http://" || startsWith url "https://"
    || startsWith url "data:" = false.
Proof.
  intros [t ->]%startsWith_true. reflexivity.
Qed.

End ResolveFileUrl.

(** The examples of the specification, at the base [https://cms.example.com]. *)
Lemma resolveFileUrl_cases_witness :
  let cfg := fixed_base "https://cms.example.com" in
  @resolveFileUrl cfg (JStr "/sites/default/files/a.png") None
    = Ok (Some "https://cms.example.com/sites/default/files/a.png")
  /\ @resolveFileUrl cfg (JStr "//cdn.example.com/a.png") None
    = Ok (Some "https://cdn.example.com/a.png")
  /\ @resolveFileUrl cfg (JStr "data:image/png;base64,AA==") None
    = Ok (Some "data:image/png;base64,AA==")
  /\ @resolveFileUrl cfg (JStr "https://cms.example.com/a.png") None
    = Ok (Some "https://cms.example.com/a.png").
Proof.
  intros cfg.
  destruct (@resolveFileUrl_cases cfg None) as (_ & Habs & Hrel & Hpath).
  split; [|split; [|split]].
  - destruct (Hpath "/sites/default/files/a.png" "https://cms.example.com")
      as (path & -> & _ & Hpath'); [done|reflexivity|reflexivity|].
    simpl in Hpath'. by rewrite Hpath'.
  - apply (Hrel "//cdn.example.com/a.png"). reflexivity.
  - apply (Habs "data:image/png;base64,AA=="). reflexivity.
  - apply (Habs "https://cms.example.com/a.png"). reflexivity.
Defined.

(** *** The image style rewriter *)

Lemma styles_segment_search_first (s : string) (pos k len : nat) :
  k <= String.length s ->
  styles_segment_at (drop k s) = Some len ->
  (forall j, j < k -> styles_segment_at (drop j s) = None) ->
  styles_segment_search s pos = Some (pos + k, len).
Proof.
  revert s pos. induction k as [|k IH]; intros s pos Hk Hat Hbefore.
  - cbn [drop] in Hat. rewrite Nat.add_0_r.
    destruct s; cbn [styles_segment_search]; by rewrite Hat.
  - destruct s as [|c s]; [simpl in Hk; lia|].
    cbn [styles_segment_search].
    pose proof (Hbefore 0 ltac:(lia)) as Hhead. cbn [drop] in Hhead.
    rewrite Hhead.
    rewrite (IH s (S pos)); [f_equal; f_equal; lia|simpl in Hk; lia|done|].
    intros j Hj. apply (Hbefore (S j)). lia.
Qed.

Lemma styles_segment_search_none (s : string) (pos : nat) :
  (forall j, j <= String.length s -> styles_segment_at (drop j s) = None) ->
  styles_segment_search s pos = None.
Proof.
  revert pos. induction s as [|c s IH]; intros pos Hnone;
    cbn [styles_segment_search];
    pose proof (Hnone 0 ltac:(lia)) as Hhead; cbn [drop] in Hhead;
    rewrite Hhead; [done|].
  apply IH. intros j Hj. apply (Hnone (S j)). simpl. lia.
Qed.

Lemma segment_length_app (name after : string) :
  indexOf name "/" 0 = None ->
  segment_length (name +:+ String "/" after) = String.length name.
Proof.
  induction name as [|c name IH]; intros Hnone; [done|].
  apply indexOf_char_cons_None in Hnone as [Hc Hnone].
  rewrite str_app_cons. simpl. destruct (Ascii.eqb_spec c "/"); [done|].
  by rewrite IH.
Qed.

(** The expression matches a whole segment [/styles/<name>/]. *)
Lemma styles_segment_at_segment (name after : string) :
  name <> "" ->
  indexOf name "/" 0 = None ->
  styles_segment_at ("/styles/" +:+ name +:+ String "/" after)
  = Some (8 + String.length name + 1).
Proof.
  intros Hname Hslash. unfold styles_segment_at.
  rewrite startsWith_app.
  change (drop 8 ("/styles/" +:+ name +:+ String "/" after))
    with (name +:+ String "/" after).
  rewrite (segment_length_app _ _ Hslash), drop_app_length.
  destruct name; [done|]. reflexivity.
Qed.

(** A replacement text without a dollar sign stands for itself. *)
Lemma getSubstitution_app_plain (matched before after r1 r2 : string) :
  indexOf r1 "$" 0 = None ->
  getSubstitution matched before after (r1 +:+ r2)
  = r1 +:+ getSubstitution matched before after r2.
Proof.
  induction r1 as [|c r1 IH]; intros Hnone; [done|].
  apply indexOf_char_cons_None in Hnone as [Hc Hnone].
  rewrite !str_app_cons. cbn [getSubstitution].
  destruct (Ascii.eqb_spec c "$"); [done|]. by rewrite IH.
Qed.

Lemma styles_replacement_plain (matched before after style : string) :
  indexOf style "$" 0 = None ->
  getSubstitution matched before after ("/styles/" +:+ style +:+ "/")
  = "/styles/" +:+ style +:+ "/".
Proof.
  intros Hstyle.
  rewrite (getSubstitution_app_plain _ _ _ "/styles/") by done.
  by rewrite (getSubstitution_app_plain _ _ _ style) by done.
Qed.

Lemma replace_styles_segment_segment (before name after replacement : string) :
  let s := before +:+ "/styles/" +:+ name +:+ String "/" after in
  name <> "" ->
  indexOf name "/" 0 = None ->
  (forall j, j < String.length before -> styles_segment_at (drop j s) = None) ->
  replace_styles_segment s replacement
  = before
    +:+ getSubstitution ("/styles/" +:+ name +:+ "/") before after replacement
    +:+ after.
Proof.
  intros s Hname Hslash Hfirst. unfold replace_styles_segment.
  set (segment := "/styles/" +:+ name +:+ "/").
  assert (Hlen : 8 + String.length name + 1 = String.length segment).
  { unfold segment. rewrite !str_length_app. simpl. lia. }
  assert (Hs : s = before +:+ segment +:+ after).
  { unfold s, segment. by rewrite !str_app_assoc. }
  rewrite (styles_segment_search_first s 0 (String.length before)
             (8 + String.length name + 1)); [| | |done].
  - rewrite Nat.add_0_l, Hlen. unfold slice.
    replace (String.length before + String.length segment
             - String.length before)
      with (String.length segment) by lia.
    rewrite <- drop_drop, Hs, take_app_length, !drop_app_length.
    by rewrite take_app_length.
  - unfold s. rewrite str_length_app. lia.
  - unfold s. rewrite drop_app_length.
    by apply styles_segment_at_segment.
Qed.

Section ImageStyle.
Context `{Configuration}.

Lemma resolveFileUrl_absolute (url : string) options :
  startsWith url "http://" || startsWith url "https://" = true ->
  resolveFileUrl (JStr url) options = Ok (Some url).
Proof.
  intros Habs. unfold resolveFileUrl. rewrite Habs.
  destruct url as [|c url]; [done|]. reflexivity.
Qed.

Lemma getImageStyleUrl_unresolved originalUrl style options :
  resolveFileUrl (JStr originalUrl) options = Ok None ->
  getImageStyleUrl originalUrl style options = Ok originalUrl.
Proof. intros Hnone. unfold getImageStyleUrl. by rewrite Hnone. Qed.

Lemma getImageStyleUrl_segment originalUrl style options before name after :
  let resolved := before +:+ "/styles/" +:+ name +:+ String "/" after in
  resolveFileUrl (JStr originalUrl) options = Ok (Some resolved) ->
  name <> "" ->
  indexOf name "/" 0 = None ->
  (forall j, j < String.length before ->
             styles_segment_at (drop j resolved) = None) ->
  indexOf style "$" 0 = None ->
  getImageStyleUrl originalUrl style options
  = Ok (before +:+ "/styles/" +:+ style +:+ String "/" after).
Proof.
  intros resolved Hresolved Hname Hslash Hfirst Hstyle.
  unfold getImageStyleUrl. rewrite Hresolved. cbn [mbind result_bind].
  rewrite (includes_true _ "/styles/" (String.length before)).
  - unfold resolved. rewrite replace_styles_segment_segment by done.
    rewrite styles_replacement_plain by done.
    by rewrite !str_app_assoc.
  - unfold resolved. rewrite str_length_app. lia.
  - unfold resolved. rewrite drop_app_length. apply startsWith_app.
Qed.

Lemma getImageStyleUrl_files originalUrl style options before after :
  let resolved := before +:+ "/files/" +:+ after in
  resolveFileUrl (JStr originalUrl) options = Ok (Some resolved) ->
  includes resolved "/styles/" = false ->
  indexOf resolved "/files/" 0 = Some (String.length before) ->
  getImageStyleUrl originalUrl style options
  = Ok (before +:+ "/files/" +:+ "styles/" +:+ style +:+ "/public/" +:+ after).
Proof.
  intros resolved Hresolved Hstyles Hfiles.
  unfold getImageStyleUrl. rewrite Hresolved. cbn [mbind result_bind].
  rewrite Hstyles, Hfiles.
  unfold slice. rewrite Nat.sub_0_r. cbn [drop].
  replace (String.length before + String.length "/files/")
    with (String.length (before +:+ "/files/"))
    by (by rewrite str_length_app).
  unfold resolved. rewrite <- (str_app_assoc before "/files/" after).
  rewrite take_app_length, drop_app_length.
  by rewrite !str_app_assoc.
Qed.

(** Where the first [/files/] is. *)
Lemma first_files_marker (url : string) :
  includes url "/files/" = true ->
  exists before after,
    url = before +:+ "/files/" +:+ after
    /\ indexOf url "/files/" 0 = Some (String.length before).
Proof.
  unfold includes. destruct (indexOf url "/files/" 0) as [i|] eqn:Hi; [|done].
  intros _. pose proof Hi as Hfound. unfold indexOf in Hfound.
  simpl Nat.min in Hfound. cbn [drop] in Hfound.
  apply indexOf_go_Some in Hfound as (k & -> & Hk & Hat & _).
  apply startsWith_true in Hat as [after Hafter].
  exists (take k url), after. rewrite length_take by done. split; [|done].
  by rewrite <- Hafter, take_drop.
Qed.

(** Nothing that starts before the style segment of a freshly styled URL
    is a style segment. *)
Lemma styled_first_segment (before after rest : string) :
  includes (before +:+ "/files/" +:+ after) "/styles/" = false ->
  forall j,
    j < String.length (before +:+ "/files") ->
    styles_segment_at
      (drop j ((before +:+ "/files") +:+ "/styles/" +:+ rest)) = None.
Proof.
  intros Hstyles j Hj. rewrite str_length_app in Hj. simpl in Hj.
  assert (Hprefix : startsWith
            (drop j ((before +:+ "/files") +:+ "/styles/" +:+ rest))
            "/styles/" = false);
    [|by unfold styles_segment_at; rewrite Hprefix].
  destruct (decide (j < String.length before)) as [Hlt|Hge].
  - replace ((before +:+ "/files") +:+ "/styles/" +:+ rest)
      with (before +:+ "/files/" +:+ "styles/" +:+ rest)
      by (by rewrite str_app_assoc).
    rewrite drop_app by lia.
    rewrite <- (str_app_assoc (drop j before) "/files/").
    rewrite startsWith_app_long
      by (rewrite str_length_app, length_drop; simpl; lia).
    rewrite <- (startsWith_app_long _ after)
      by (rewrite str_length_app, length_drop; simpl; lia).
    rewrite str_app_assoc, <- drop_app by lia.
    apply includes_false; [done|].
    rewrite !str_length_app. lia.
  - replace j with (String.length before + (j - String.length before)) by lia.
    rewrite <- drop_drop, str_app_assoc, drop_app_length.
    destruct (j - String.length before) as [|[|[|[|[|[|k]]]]]] eqn:Hk;
      try reflexivity.
    lia.
Qed.

(** Styling a second time only changes the style. *)
Lemma getImageStyleUrl_restyle (url style1 style2 : string) options :
  startsWith url "http://" || startsWith url "https://" = true ->
  includes url "/styles/" = false ->
  includes url "/files/" = true ->
  style1 <> "" ->
  indexOf style1 "/" 0 = None ->
  indexOf style2 "$" 0 = None ->
  exists styled,
    getImageStyleUrl url style1 options = Ok styled
    /\ getImageStyleUrl styled style2 options
       = getImageStyleUrl url style2 options.
Proof.
  intros Habs Hstyles (before & after & -> & Hfiles)%first_files_marker
    Hstyle1 Hslash Hdollar.
  pose proof (resolveFileUrl_absolute _ options Habs) as Hresolved.
  rewrite !(getImageStyleUrl_files _ _ _ _ _ Hresolved Hstyles Hfiles).
  eexists. split; [reflexivity|].
  assert (Hbefore : before <> "").
  { intros ->. by vm_compute in Habs. }
  assert (Hlong : forall p rest,
            String.length p <= 8 ->
            startsWith (before +:+ "/files/" +:+ rest) p
            = startsWith (before +:+ "/files/") p).
  { intros p rest Hp. rewrite <- str_app_assoc.
    apply startsWith_app_long. rewrite str_length_app.
    destruct before; [done|]. simpl. lia. }
  assert (Hstyled : resolveFileUrl
            (JStr (before +:+ "/files/" +:+ "styles/" +:+ style1
                   +:+ "/public/" +:+ after)) options
          = Ok (Some ((before +:+ "/files") +:+ "/styles/" +:+ style1
                      +:+ String "/" ("public/" +:+ after)))).
  { rewrite resolveFileUrl_absolute.
    - by rewrite str_app_assoc.
    - rewrite !Hlong by (simpl; lia). by rewrite <- !(Hlong _ after) by (simpl; lia). }
  rewrite (getImageStyleUrl_segment _ _ _ _ _ _ Hstyled); try done.
  - by rewrite str_app_assoc.
  - by apply (styled_first_segment before after).
Qed.

(** C8, as amended.  Let [resolved] be the resolved URL.  When the first
    segment [/styles/<name>/] of [resolved] (a name that is not empty and
    has no [/]) is the one after [before], and the style has no dollar
    sign, [getImageStyleUrl] replaces [<name>] by the style and keeps
    everything else.  When [resolved] contains [/styles/] but no such
    segment, it is returned unchanged.  When [resolved] does not contain
    [/styles/], [styles/<style>/public/] is put right after the first
    [/files/], and [resolved] is returned unchanged when there is no
    [/files/].  Consequently, styling an absolute URL that has a [/files/]
    and no [/styles/] with a style that is not empty and has no [/], and
    the result again with a second style that has no dollar sign, gives
    what styling the URL with the second style gives. *)
Theorem getImageStyleUrl_rewrite originalUrl style options resolved :
  resolveFileUrl (JStr originalUrl) options = Ok (Some resolved) ->
  (forall before name after,
     resolved = before +:+ "/styles/" +:+ name +:+ String "/" after ->
     name <> "" ->
     indexOf name "/" 0 = None ->
     (forall j, j < String.length before ->
                styles_segment_at (drop j resolved) = None) ->
     indexOf style "$" 0 = None ->
     getImageStyleUrl originalUrl style options
     = Ok (before +:+ "/styles/" +:+ style +:+ String "/" after))
  /\ (includes resolved "/styles/" = true ->
      (forall j, styles_segment_at (drop j resolved) = None) ->
      getImageStyleUrl originalUrl style options = Ok resolved)
  /\ (forall before after,
        includes resolved "/styles/" = false ->
        resolved = before +:+ "/files/" +:+ after ->
        indexOf resolved "/files/" 0 = Some (String.length before) ->
        getImageStyleUrl originalUrl style options
        = Ok (before +:+ "/files/" +:+ "styles/" +:+ style +:+ "/public/"
              +:+ after))
  /\ (includes resolved "/styles/" = false ->
      indexOf resolved "/files/" 0 = None ->
      getImageStyleUrl originalUrl style options = Ok resolved)
  /\ (forall style2,
        startsWith originalUrl "http://" || startsWith originalUrl "https://"
          = true ->
        includes originalUrl "/styles/" = false ->
        includes originalUrl "/files/" = true ->
        style <> "" ->
        indexOf style "/" 0 = None ->
        indexOf style2 "$" 0 = None ->
        exists styled,
          getImageStyleUrl originalUrl style options = Ok styled
          /\ getImageStyleUrl styled style2 options
             = getImageStyleUrl originalUrl style2 options).
Proof.
  intros Hresolved. repeat split.
  - intros before name after -> Hname Hslash Hfirst Hstyle.
    by apply (getImageStyleUrl_segment _ _ _ before name after).
  - intros Hstyles Hnone. unfold getImageStyleUrl. rewrite Hresolved.
    cbn [mbind result_bind]. rewrite Hstyles. unfold replace_styles_segment.
    by rewrite styles_segment_search_none.
  - intros before after Hstyles -> Hfiles.
    by apply (getImageStyleUrl_files _ _ _ before after).
  - intros Hstyles Hfiles. unfold getImageStyleUrl. rewrite Hresolved.
    cbn [mbind result_bind]. by rewrite Hstyles, Hfiles.
  - intros style2. apply getImageStyleUrl_restyle.
Qed.

End ImageStyle.

(** The examples of the specification: the thumbnail of a file, the same
    restyled, a file in a directory called [styles], and a URL without
    [/files/]. *)
Lemma getImageStyleUrl_rewrite_witness :
  let cfg := fixed_base "https://cms.example.com" in
  @getImageStyleUrl cfg Documents.original_url "thumbnail" None
    = Ok Documents.thumbnail_url
  /\ @getImageStyleUrl cfg Documents.thumbnail_url "large" None
     = Ok Documents.large_url
  /\ @getImageStyleUrl cfg Documents.styles_directory_url "thumbnail" None
     = Ok Documents.styles_directory_url
  /\ @getImageStyleUrl cfg Documents.favicon_url "thumbnail" None
     = Ok Documents.favicon_url
  /\ exists styled,
       @getImageStyleUrl cfg Documents.original_url "thumbnail" None
         = Ok styled
       /\ @getImageStyleUrl cfg styled "large" None
          = @getImageStyleUrl cfg Documents.original_url "large" None.
Proof.
  intros cfg. split; [|split; [|split; [|split]]].
  - destruct (@getImageStyleUrl_rewrite cfg Documents.original_url
                "thumbnail" None Documents.original_url eq_refl)
      as (_ & _ & Hfiles & _).
    apply (Hfiles "https://cms.example.com/sites/default" "a.png");
      reflexivity.
  - destruct (@getImageStyleUrl_rewrite cfg Documents.thumbnail_url
                "large" None Documents.thumbnail_url eq_refl)
      as (Hsegment & _).
    apply (Hsegment "https://cms.example.com/sites/default/files"
             "thumbnail" "public/a.png"); try done.
    intros j Hj.
    do 43 (destruct j as [|j]; [reflexivity|]). simpl in Hj. lia.
  - destruct (@getImageStyleUrl_rewrite cfg Documents.styles_directory_url
                "thumbnail" None Documents.styles_directory_url eq_refl)
      as (_ & Hnone & _).
    apply Hnone; [reflexivity|]. intros j.
    do 56 (destruct j as [|j]; [reflexivity|]).
    cbn [drop Documents.styles_directory_url]. by rewrite drop_empty.
  - destruct (@getImageStyleUrl_rewrite cfg Documents.favicon_url
                "thumbnail" None Documents.favicon_url eq_refl)
      as (_ & _ & _ & Hplain & _).
    apply Hplain; reflexivity.
  - destruct (@getImageStyleUrl_rewrite cfg Documents.original_url
                "thumbnail" None Documents.original_url eq_refl)
      as (_ & _ & _ & _ & Hrestyle).
    apply Hrestyle; done.
Defined.

(** The claim as the specification words it fails on a URL that contains
    [/styles/] without a segment [/styles/<name>/]: it has a [/files/]
    marker, and it is returned unchanged rather than spliced.  It also
    fails on a style with a dollar sign, which the replacement reads as a
    pattern: more than the name changes. *)
Lemma getImageStyleUrl_styles_directory_unchanged :
  let cfg := fixed_base "https://cms.example.com" in
  styles_segment_search Documents.styles_directory_url 0 = None
  /\ indexOf Documents.styles_directory_url "/files/" 0 = Some 37
  /\ @getImageStyleUrl cfg Documents.styles_directory_url "thumbnail" None
     = Ok Documents.styles_directory_url
  /\ @getImageStyleUrl cfg Documents.thumbnail_url "$&" None
     = Ok ("https://cms.example.com/sites/default/files"
           +:+ "/styles//styles/thumbnail//public/a.png").
Proof. repeat split. Qed.

End UrlSpec.

Module RoutesSpec.
Import JsString JsStringFacts Routes.

Lemma blank_false_of_slash (p : string) :
  startsWith p "/" = true -> blank p = false.
Proof.
  intros [t ->]%startsWith_true. unfold blank, trim. simpl.
  by destruct (trimEnd _).
Qed.

(** C1, as amended.  [normalizeRoutesItem] accepts a value, and returns
    the entry made of its path and its URL unchanged, exactly when the
    value is an object whose [path] is a string starting with [/], whose
    [kind] is [entity] or [view], whose URL member for that kind is a
    string with something other than white space in it, and whose other
    URL member is present and [null]. *)
Theorem normalizeRoutesItem_accepts (value : jsval) (item : RoutesFeedItem) :
  normalizeRoutesItem value = Some item <->
  exists props,
    value = JObj props
    /\ props !! "path" = Some (JStr (path item))
    /\ startsWith (path item) "/" = true
    /\ ((kind item = entity
         /\ props !! "kind" = Some (JStr "entity")
         /\ (exists u, props !! "jsonapi_url" = Some (JStr u)
                       /\ blank u = false /\ jsonapi_url item = Some u)
         /\ props !! "data_url" = Some JNull
         /\ data_url item = None)
        \/ (kind item = view
            /\ props !! "kind" = Some (JStr "view")
            /\ (exists u, props !! "data_url" = Some (JStr u)
                          /\ blank u = false /\ data_url item = Some u)
            /\ props !! "jsonapi_url" = Some JNull
            /\ jsonapi_url item = None)).
Proof.
  split.
  - unfold normalizeRoutesItem.
    destruct value as [| |b|z|s|items|props]; simpl;
      rewrite ?orb_true_r; try done.
    unfold Js.prop.
    destruct (props !! "path") as [[| |?|?|p|?|?]|] eqn:Hpath; try done. simpl.
    destruct (blank p) eqn:Hblank; [done|]. simpl.
    destruct (startsWith p "/") eqn:Hslash; [|done]. simpl.
    destruct (props !! "kind") as [[| |?|?|k|?|?]|] eqn:Hkind; try done. simpl.
    destruct (String.eqb_spec k "entity") as [->|_].
    + destruct (props !! "jsonapi_url") as [[| |?|?|u|?|?]|] eqn:Hu; try done.
      simpl. destruct (blank u) eqn:Hbu; [done|].
      destruct (props !! "data_url") as [[| |?|?|?|?|?]|] eqn:Hd; try done.
      simpl. intros [= <-]. exists props. simpl. repeat split; try done.
      left. repeat split; try done. by exists u.
    + destruct (String.eqb_spec k "view") as [->|_]; [|done].
      destruct (props !! "data_url") as [[| |?|?|u|?|?]|] eqn:Hu; try done.
      simpl. destruct (blank u) eqn:Hbu; [done|].
      destruct (props !! "jsonapi_url") as [[| |?|?|?|?|?]|] eqn:Hd; try done.
      simpl. intros [= <-]. exists props. simpl. repeat split; try done.
      right. repeat split; try done. by exists u.
  - intros (props & -> & Hpath & Hslash & Hkind).
    unfold normalizeRoutesItem. simpl. unfold Js.prop. rewrite Hpath. simpl.
    rewrite (blank_false_of_slash _ Hslash), Hslash. simpl.
    destruct item as [p k ju du]. simpl in *.
    destruct Hkind as [(-> & Hk & (u & Hu & Hb & ->) & Hd & ->)
                      |(-> & Hk & (u & Hu & Hb & ->) & Hd & ->)];
      rewrite Hk, Hu, Hd; simpl; by rewrite Hb.
Qed.

(** The claim as the specification words it fails on an entry whose
    other URL member is missing rather than [null], and on an entry whose
    URL is white space: the specification accepts them, the code drops
    them. *)
Lemma normalizeRoutesItem_absent_other_dropped :
  let absent := JObj (list_to_map [("path", JStr "/about");
                                   ("kind", JStr "entity");
                                   ("jsonapi_url", JStr "/jsonapi/node/page/1")]) in
  let spaces := Feeds.entity_item "/about" "   " in
  (RouteEntrySpec.accepts absent = true /\ normalizeRoutesItem absent = None)
  /\ (RouteEntrySpec.accepts spaces = true /\ normalizeRoutesItem spaces = None).
Proof. repeat split. Qed.

Section WithPlatform.
Context `{Configuration} `{UrlApi} `{Transport}.

Lemma fetchRoutesPage_answered options st res st' :
  answered options st res st' ->
  fetchRoutesPage options st = (read_response res, st').
Proof.
  intros (base & requested & Hbase & Hurl & Hfetch).
  unfold fetchRoutesPage. rewrite Hbase. simpl. by rewrite Hurl, Hfetch.
Qed.

(** A page is only returned after exactly one request. *)
Lemma fetchRoutesPage_ok_requests options st page st' :
  fetchRoutesPage options st = (Ok page, st') ->
  exists requested, requests st' = (requests st ++ [requested])%list.
Proof.
  unfold fetchRoutesPage.
  destruct (_ ≫= request_url options) as [requested|e]; [|done].
  unfold fetch. destruct (fetcher _ _) as [res w]. intros [= _ <-].
  by exists (toString requested).
Qed.

(** The entries of a page are the accepted items of the body, in the
    order of the body. *)
Lemma read_response_data (res : Response) props items :
  ok res = true ->
  json res = Ok (JObj props) ->
  props !! "data" = Some (JArr items) ->
  exists page,
    read_response res = Ok page
    /\ data page = omap normalizeRoutesItem items.
Proof.
  intros Hok Hjson Hdata. unfold read_response.
  rewrite Hok, Hjson. simpl. unfold Js.prop. rewrite Hdata. simpl.
  eauto.
Qed.

(** C4, as amended.  When the request is answered successfully with a
    body that is [null] or not of type object (a string, a number, a
    boolean), [fetchRoutesPage] throws the format error; when the body
    is an object whose [data] member is missing or is not an array,
    [fetchRoutesPage] returns a page without entries. *)
Theorem fetchRoutesPage_body_format options st st' res doc :
  answered options st res st' ->
  ok res = true ->
  json res = Ok doc ->
  (Js.truthy doc && Js.typeof_object doc = false ->
   fetchRoutesPage options st = (Throw FeedFormatError, st'))
  /\ (forall props,
        doc = JObj props ->
        (forall items, props !! "data" <> Some (JArr items)) ->
        exists page,
          fetchRoutesPage options st = (Ok page, st')
          /\ data page = []).
Proof.
  intros Hans Hok Hjson.
  rewrite (fetchRoutesPage_answered _ _ _ _ Hans).
  unfold read_response. rewrite Hok, Hjson. simpl. split.
  - intros Hdoc. apply andb_false_iff in Hdoc as [->| ->]; simpl;
      by rewrite ?orb_true_r.
  - intros props -> Hdata. simpl. unfold Js.prop.
    destruct (props !! "data") as [[| |?|?|?|items|?]|]; simpl; eauto.
    by destruct (Hdata items).
Qed.

Lemma buildRoutesUrl_guard (input base : string) (baseUrl url : URL) :
  URL_new base None = Ok baseUrl ->
  URL_new input (Some baseUrl) = Ok url ->
  buildRoutesUrl input base =
    if negb (String.eqb (origin url) (origin baseUrl)) then
      Throw (OriginMismatchError (origin url) (origin baseUrl))
    else if negb (String.eqb (protocol url) "http:")
            && negb (String.eqb (protocol url) "https:") then
      Throw (UnsupportedSchemeError (protocol url))
    else Ok url.
Proof.
  intros Hbase Hurl. unfold buildRoutesUrl. rewrite Hbase. simpl.
  by rewrite Hurl.
Qed.

(** C2, as amended.  A pagination cursor whose resolved origin differs
    from the origin of the base makes [fetchRoutesPage] throw the
    origin error without any request, whatever its scheme, and the same
    holds for every [links.next] that [iterateRoutes] follows; a cursor
    of the same origin whose scheme is neither [http:] nor [https:]
    makes it throw the scheme error, without any request either. *)
Theorem pagination_origin_guard options base (baseUrl url : URL) cursor :
  cursor <> "" ->
  getDrupalBaseUrlFromOptions
    (Some {| BaseOptions.baseUrl := Routes.baseUrl options;
             BaseOptions.envKey := envKey options |}) = Ok base ->
  URL_new base None = Ok baseUrl ->
  URL_new cursor (Some baseUrl) = Ok url ->
  (origin url <> origin baseUrl ->
   (forall st,
      fetchRoutesPage (with_url options (Some cursor)) st
      = (Throw (OriginMismatchError (origin url) (origin baseUrl)), st))
   /\ (forall n maxPages pageUrl st page st',
         fetchRoutesPage (with_url options pageUrl) st = (Ok page, st') ->
         links_next page = Some cursor ->
         iterateRoutes_loop (S (S n)) maxPages options pageUrl st
         = (data page,
            Throw (OriginMismatchError (origin url) (origin baseUrl)),
            st')))
  /\ (origin url = origin baseUrl ->
      protocol url <> "http:" -> protocol url <> "https:" ->
      forall st,
        fetchRoutesPage (with_url options (Some cursor)) st
        = (Throw (UnsupportedSchemeError (protocol url)), st)).
Proof.
  intros Hcursor Hbase HbaseUrl Hurl.
  assert (Hreq : request_url (with_url options (Some cursor)) base
                 = buildRoutesUrl cursor base).
  { unfold request_url. simpl. by destruct cursor. }
  rewrite (buildRoutesUrl_guard _ _ _ _ HbaseUrl Hurl) in Hreq.
  split.
  - intros Horigin. apply String.eqb_neq in Horigin.
    rewrite Horigin in Hreq. simpl in Hreq.
    assert (Hfetch : forall st,
              fetchRoutesPage (with_url options (Some cursor)) st
              = (Throw (OriginMismatchError (origin url) (origin baseUrl)),
                 st)).
    { intros st. unfold fetchRoutesPage. simpl. rewrite Hbase. simpl.
      by rewrite Hreq. }
    split; [done|].
    intros n maxPages pageUrl st page st' Hpage Hnext.
    cbn [iterateRoutes_loop]. rewrite Hpage, Hnext.
    destruct cursor as [|c cursor]; [done|].
    by rewrite Hfetch, app_nil_r.
  - intros Horigin Hhttp Hhttps st.
    apply String.eqb_eq in Horigin. apply String.eqb_neq in Hhttp, Hhttps.
    rewrite Horigin, Hhttp, Hhttps in Hreq. simpl in Hreq.
    unfold fetchRoutesPage. simpl. rewrite Hbase. simpl. by rewrite Hreq.
Qed.

Lemma iterateRoutes_loop_follows options maxPages pageUrl st pages cursor st' n :
  follows options pageUrl st pages cursor st' ->
  iterateRoutes_loop (length pages + n) maxPages options pageUrl st
  = let '(items, outcome, st'') :=
      iterateRoutes_loop n maxPages options cursor st' in
    ((concat (data <$> pages) ++ items)%list, outcome, st'').
Proof.
  induction 1 as [pageUrl st|pageUrl st page st1 next pages cursor st'
                              Hpage Hnext Hne _ IH].
  - simpl. by destruct (iterateRoutes_loop _ _ _ _ _) as [[??]?].
  - cbn [length Nat.add iterateRoutes_loop]. rewrite Hpage, Hnext.
    destruct next as [|c next]; [done|]. rewrite IH.
    destruct (iterateRoutes_loop n _ _ _ _) as [[items outcome] st''].
    simpl. by rewrite app_assoc.
Qed.

Lemma follows_requests options pageUrl st pages cursor st' :
  follows options pageUrl st pages cursor st' ->
  length (requests st') = length (requests st) + length pages.
Proof.
  induction 1 as [|pageUrl st page st1 next pages cursor st'
                    Hpage _ _ _ IH]; simpl; [lia|].
  apply fetchRoutesPage_ok_requests in Hpage as [requested Hreq].
  rewrite IH, Hreq, length_app. simpl. lia.
Qed.

(** C3.  When the feed delivers three pages of 2, 2 and 1 entries and
    the third names no next page, [collectRoutes] returns the 5 entries,
    page after page and in the order of each page.  When the feed
    delivers three pages that each name a next page and [maxPages] is 3,
    [iterateRoutes] yields their entries and then throws the overrun
    error, which [collectRoutes] throws too; the three pages are all
    that was requested, so the fourth page is never fetched. *)
Theorem collectRoutes_pages options st :
  (forall p1 p2 p3 cursor st2 st3,
     (3 <= default 10000 (Routes.maxPages options))%Z ->
     follows options None st [p1; p2] cursor st2 ->
     fetchRoutesPage (with_url options cursor) st2 = (Ok p3, st3) ->
     links_next p3 = None ->
     length (data p1) = 2 -> length (data p2) = 2 -> length (data p3) = 1 ->
     collectRoutes options st
     = (Ok (data p1 ++ data p2 ++ data p3)%list, st3)
     /\ length (data p1 ++ data p2 ++ data p3)%list = 5)
  /\ (forall pages cursor st',
        Routes.maxPages options = Some 3%Z ->
        follows options None st pages cursor st' ->
        length pages = 3 ->
        iterateRoutes options st
        = (concat (data <$> pages), Throw (PaginationOverrunError 3), st')
        /\ collectRoutes options st
           = (Throw (PaginationOverrunError 3), st')
        /\ length (requests st') = length (requests st) + 3).
Proof.
  split.
  - intros p1 p2 p3 cursor st2 st3 Hmax Hfollows Hp3 Hnext Hl1 Hl2 Hl3.
    split; [|rewrite !length_app; lia].
    unfold collectRoutes, iterateRoutes.
    destruct (Z.to_nat (default 10000%Z (Routes.maxPages options)))
      as [|[|[|n]]] eqn:Hn; try lia.
    change (S (S (S n))) with (length [p1; p2] + S n).
    rewrite (iterateRoutes_loop_follows _ _ _ _ _ _ _ _ Hfollows).
    cbn [iterateRoutes_loop]. rewrite Hp3, Hnext. simpl.
    by rewrite app_nil_r, <- app_assoc.
  - intros pages cursor st' Hmax Hfollows Hlen.
    assert (Hit : iterateRoutes options st
                  = (concat (data <$> pages),
                     Throw (PaginationOverrunError 3), st')).
    { unfold iterateRoutes. rewrite Hmax. simpl default.
      change (Z.to_nat 3) with (3 + 0). rewrite <- Hlen.
      rewrite (iterateRoutes_loop_follows _ _ _ _ _ _ _ _ Hfollows).
      simpl. by rewrite app_nil_r. }
    split; [done|]. split.
    + unfold collectRoutes. by rewrite Hit.
    + rewrite (follows_requests _ _ _ _ _ _ Hfollows). lia.
Qed.

End WithPlatform.

(** The examples: the feed of three pages, and a feed that never ends
    read with [maxPages: 3]. *)
Lemma collectRoutes_pages_witness :
  let cfg := fixed_base Feeds.base in
  (exists items st',
     @collectRoutes cfg SimpleUrl.api Feeds.three_pages Feeds.options
       (Feeds.start Feeds.three_pages tt) = (Ok items, st')
     /\ path <$> items = ["/about"; "/blog"; "/contact"; "/team"; "/news"])
  /\ (exists st',
        @collectRoutes cfg SimpleUrl.api Feeds.endless Feeds.options_max3
          (Feeds.start Feeds.endless tt)
        = (Throw (PaginationOverrunError 3), st')
        /\ length (requests st') = 3).
Proof.
  intros cfg. split.
  - destruct (@collectRoutes_pages cfg SimpleUrl.api Feeds.three_pages
                Feeds.options (Feeds.start Feeds.three_pages tt))
      as [Hthree _].
    edestruct Hthree as [Hcollect _]; cycle 1.
    + eapply follows_cons; [reflexivity|reflexivity|done|].
      eapply follows_cons; [reflexivity|reflexivity|done|].
      apply follows_nil.
    + reflexivity.
    + reflexivity.
    + reflexivity.
    + reflexivity.
    + reflexivity.
    + eexists _, _. split; [exact Hcollect|reflexivity].
    + done.
  - destruct (@collectRoutes_pages cfg SimpleUrl.api Feeds.endless
                Feeds.options_max3 (Feeds.start Feeds.endless tt))
      as [_ Hendless].
    edestruct Hendless as (_ & Hcollect & Hrequests); cycle 1.
    + eapply follows_cons; [reflexivity|reflexivity|done|].
      eapply follows_cons; [reflexivity|reflexivity|done|].
      eapply follows_cons; [reflexivity|reflexivity|done|].
      apply follows_nil.
    + reflexivity.
    + eexists. split; [exact Hcollect|exact Hrequests].
    + reflexivity.
Defined.

(** The examples of the origin guard: a cursor on another host, and a
    cursor of the same (opaque) origin as a [file:] base. *)
Lemma pagination_origin_guard_witness :
  (let cfg := fixed_base Feeds.base in
   @fetchRoutesPage cfg SimpleUrl.api Feeds.endless
     (with_url Feeds.options (Some "https://evil.example.com/x"))
     (Feeds.start Feeds.endless tt)
   = (Throw (OriginMismatchError "https://evil.example.com"
                                 "https://cms.example.com"),
      Feeds.start Feeds.endless tt))
  /\ (let cfg := fixed_base "file://localhost/srv" in
      @fetchRoutesPage cfg SimpleUrl.api Feeds.endless
        (with_url Feeds.options (Some "file://localhost/etc/passwd"))
        (Feeds.start Feeds.endless tt)
      = (Throw (UnsupportedSchemeError "file:"),
         Feeds.start Feeds.endless tt)).
Proof.
  split; intros cfg.
  - destruct (@pagination_origin_guard cfg SimpleUrl.api Feeds.endless
                Feeds.options Feeds.base
                {| SimpleUrl.scheme := "https:";
                   SimpleUrl.host := "cms.example.com";
                   SimpleUrl.path_query := "/" |}
                {| SimpleUrl.scheme := "https:";
                   SimpleUrl.host := "evil.example.com";
                   SimpleUrl.path_query := "/x" |}
                "https://evil.example.com/x")
      as [Horigin _]; [done|reflexivity|reflexivity|reflexivity|].
    destruct Horigin as [Hfetch _]; [done|].
    apply (Hfetch (Feeds.start Feeds.endless tt)).
  - destruct (@pagination_origin_guard cfg SimpleUrl.api Feeds.endless
                Feeds.options "file://localhost/srv"
                {| SimpleUrl.scheme := "file:";
                   SimpleUrl.host := "localhost";
                   SimpleUrl.path_query := "/srv" |}
                {| SimpleUrl.scheme := "file:";
                   SimpleUrl.host := "localhost";
                   SimpleUrl.path_query := "/etc/passwd" |}
                "file://localhost/etc/passwd")
      as [_ Hscheme]; [done|reflexivity|reflexivity|reflexivity|].
    apply (Hscheme eq_refl); done.
Defined.

(** The claim as the specification words it fails on the specification's
    own example: the cursor [ftp://cms.example.com/x] has a scheme that is
    neither [http:] nor [https:], and what is thrown is the origin error,
    not the scheme error. *)
Lemma ftp_cursor_origin_error :
  let cfg := fixed_base Feeds.base in
  let outcome :=
    fst (@fetchRoutesPage cfg SimpleUrl.api Feeds.endless
           (with_url Feeds.options (Some "ftp://cms.example.com/x"))
           (Feeds.start Feeds.endless tt)) in
  (SimpleUrl.scheme <$> SimpleUrl.parse_absolute "ftp://cms.example.com/x")
    = Some "ftp:"
  /\ outcome = Throw (OriginMismatchError "ftp://cms.example.com"
                                          "https://cms.example.com")
  /\ outcome <> Throw (UnsupportedSchemeError "ftp:").
Proof. repeat split. done. Qed.

(** The examples of the body format: a body that is a string, and a body
    whose [data] member is a string. *)
Lemma fetchRoutesPage_body_format_witness :
  let cfg := fixed_base Feeds.base in
  (exists st',
     @fetchRoutesPage cfg SimpleUrl.api Feeds.string_body
       Feeds.options (Feeds.start Feeds.string_body tt)
     = (Throw FeedFormatError, st'))
  /\ (exists page st',
        @fetchRoutesPage cfg SimpleUrl.api Feeds.string_data
          Feeds.options (Feeds.start Feeds.string_data tt) = (Ok page, st')
        /\ data page = []).
Proof.
  intros cfg. split.
  - destruct (@fetchRoutesPage_body_format cfg SimpleUrl.api
                Feeds.string_body Feeds.options
                (Feeds.start Feeds.string_body tt)
                (Feeds.state Feeds.string_body tt [Feeds.first_page_url])
                (Feeds.success (JStr "oops")) (JStr "oops"))
      as [Hformat _]; [|reflexivity|reflexivity|].
    + eexists _, _. repeat split; reflexivity.
    + eexists. apply Hformat. reflexivity.
  - destruct (@fetchRoutesPage_body_format cfg SimpleUrl.api
                Feeds.string_data Feeds.options
                (Feeds.start Feeds.string_data tt)
                (Feeds.state Feeds.string_data tt [Feeds.first_page_url])
                (Feeds.success (JObj {[ "data" := JStr "oops" ]}))
                (JObj {[ "data" := JStr "oops" ]}))
      as [_ Hdata]; [|reflexivity|reflexivity|].
    + eexists _, _. repeat split; reflexivity.
    + destruct (Hdata {[ "data" := JStr "oops" ]} eq_refl) as (page & Hp & Hd).
      * intros items. by rewrite lookup_singleton_eq.
      * eexists _, _. split; [exact Hp|exact Hd].
Defined.

(** The claim as the specification words it fails on a body whose [data]
    member is not a sequence: a page is returned and nothing is thrown. *)
Lemma data_not_a_sequence_returns_page :
  let cfg := fixed_base Feeds.base in
  fst (@fetchRoutesPage cfg SimpleUrl.api Feeds.string_data
         Feeds.options (Feeds.start Feeds.string_data tt))
  = Ok {| data := []; links_self := None; links_next := None; meta := None |}.
Proof. reflexivity. Qed.

End RoutesSpec.

Module MediaSpec.
Import JsString JsStringFacts Url Media.

Lemma getRelationshipMetaString_nonempty relationship key value :
  getRelationshipMetaString relationship key = Some value -> value <> "".
Proof.
  unfold getRelationshipMetaString. intros Hmeta ->.
  destruct (rel_data <$> relationship) as [[|data|]|]; try done.
  destruct (Js.prop_opt _ _) as [| |?|?|v|?|?]; try done.
  destruct (blank v) eqn:Hb; [done|]. by injection Hmeta as ->.
Qed.

Lemma findIncluded_elem_of files type id (file : JsonApiResource) :
  findIncluded (Some files) type id = Some file -> file ∈ files.
Proof.
  simpl. intros Hfind. apply list_elem_of_In.
  by apply List.find_some in Hfind as [Hin _].
Qed.

Lemma findIncludedByRelationship_elem_of included relationship file :
  findIncludedByRelationship included relationship = Some file ->
  exists files, included = Some files /\ file ∈ files.
Proof.
  unfold findIncludedByRelationship.
  destruct (rel_data <$> relationship) as [[|data|]|]; try done.
  destruct included as [files|]; [|done].
  intros Hfind%findIncluded_elem_of. eauto.
Qed.

Section WithConfiguration.
Context `{Configuration}.

Lemma extractMedia_image media included :
  remove_first (res_type media) "media--" = "image" ->
  extractMedia (Some media) included =
    let fileRelationship := relationships media ≫= (.!! "field_media_image") in
    match findIncludedByRelationship included fileRelationship with
    | None => Ok (Some (bare media Image))
    | Some file =>
        imageData ← extractImageFromFile (Some file);
        match imageData with
        | None => Ok (Some (bare media Image))
        | Some imageData =>
            let alt := getRelationshipMetaString fileRelationship "alt" in
            let title := getRelationshipMetaString fileRelationship "title" in
            Ok (Some {|
              type := Image; name := name (bare media Image);
              url := Some (src imageData);
              image := Some {|
                src := src imageData;
                alt := Js.or (Js.or (of_string alt) (Media.alt imageData))
                             (name (bare media Image));
                width := width imageData;
                height := height imageData;
                title := Js.or (of_string title) (Media.title imageData)
              |};
              mimeType := JUndefined; embedUrl := None; resource := media
            |})
        end
    end.
Proof. intros Hbundle. unfold extractMedia. by rewrite Hbundle. Qed.

Lemma extractImageFromFile_title file fileImage :
  extractImageFromFile (Some file) = Ok (Some fileImage) ->
  title fileImage = JUndefined
  /\ alt fileImage = Js.or (Js.prop_opt (attributes file) "filename") (JStr "").
Proof.
  unfold extractImageFromFile.
  destruct (getFileUrl _ _) as [[[|c url]|]|]; try done. simpl.
  by intros [= <-].
Qed.

(** The URL that [resolveFileUrl] returns is never empty. *)
Lemma resolveFileUrl_not_empty url options fileUrl :
  resolveFileUrl url options = Ok (Some fileUrl) -> fileUrl <> "".
Proof.
  unfold resolveFileUrl. destruct (Js.truthy url) eqn:Htruthy; [|done].
  simpl. destruct url as [| |b|z|text|items|props]; try done.
  simpl in Htruthy. apply negb_true_iff, String.eqb_neq in Htruthy.
  destruct (_ || _); [by intros [= <-]|].
  destruct (startsWith text "data:"); [by intros [= <-]|].
  destruct (startsWith text "//"); [by intros [= <-]|].
  destruct (getDrupalBaseUrlFromOptions options) as [base|]; [|done].
  simpl. intros [= <-] Hempty.
  apply (f_equal String.length) in Hempty. rewrite str_length_app in Hempty.
  destruct (startsWith text "/"); destruct text; simpl in Hempty;
    try done; lia.
Qed.

Lemma getFileUrl_not_empty file options fileUrl :
  getFileUrl file options = Ok (Some fileUrl) -> fileUrl <> "".
Proof.
  unfold getFileUrl. destruct (file ≫= attributes); [|done].
  apply resolveFileUrl_not_empty.
Qed.

(** C6, as amended.  For a [media--image] resource whose
    [field_media_image] relationship resolves to a file of which
    [getFileUrl] derives a URL, the image of the descriptor has as [alt]
    the [alt] metadata of the relationship when there is one, otherwise the
    [filename] attribute of the file when that is truthy, otherwise the
    [name] attribute of the media resource, or the empty string; as [title]
    the [title] metadata of the relationship when there is one, and none
    otherwise; and as width and height the [width] and [height] attributes
    of the file when the file has no truthy [image_style_uri] attribute,
    and none when it has one, with or without metadata on the
    relationship. *)
Theorem image_alt_title_fallback media included file fileUrl :
  remove_first (res_type media) "media--" = "image" ->
  let fileRelationship := relationships media ≫= (.!! "field_media_image") in
  findIncludedByRelationship included fileRelationship = Some file ->
  getFileUrl (Some file) None = Ok (Some fileUrl) ->
  let filename := Js.prop_opt (attributes file) "filename" in
  let mediaName := Js.prop_opt (attributes media) "name" in
  let styled := Js.truthy (Js.prop_opt (attributes file) "image_style_uri") in
  exists d img,
    extractMedia (Some media) included = Ok (Some d)
    /\ type d = Image
    /\ url d = Some fileUrl
    /\ image d = Some img
    /\ src img = fileUrl
    /\ alt img = match getRelationshipMetaString fileRelationship "alt" with
                 | Some text => JStr text
                 | None => if Js.truthy filename then filename
                           else if Js.truthy mediaName then mediaName
                           else JStr ""
                 end
    /\ title img = match getRelationshipMetaString fileRelationship "title" with
                   | Some text => JStr text
                   | None => JUndefined
                   end
    /\ width img = (if styled then JUndefined
                    else Js.prop_opt (attributes file) "width")
    /\ height img = (if styled then JUndefined
                     else Js.prop_opt (attributes file) "height").
Proof.
  intros Hbundle fileRelationship Hfile Hurl filename mediaName styled.
  subst fileRelationship.
  pose proof (getFileUrl_not_empty _ _ _ Hurl) as Hne.
  rewrite (extractMedia_image _ _ Hbundle). cbv zeta.
  rewrite Hfile. unfold extractImageFromFile. rewrite Hurl.
  cbn [mbind result_bind].
  destruct fileUrl as [|c fileUrl]; [done|]. simpl.
  set (fileRelationship := relationships media ≫= _).
  eexists _, _. split; [reflexivity|]. simpl. repeat split.
  - fold filename mediaName.
    destruct (getRelationshipMetaString fileRelationship "alt") as [text|] eqn:Hmeta.
    + apply getRelationshipMetaString_nonempty in Hmeta.
      unfold Js.or at 2. simpl. apply String.eqb_neq in Hmeta.
      rewrite Hmeta. simpl. unfold Js.or. simpl. by rewrite Hmeta.
    + unfold Js.or. simpl.
      destruct (Js.truthy filename) eqn:Hfilename; simpl;
        rewrite ?Hfilename; [done|].
      by destruct (Js.truthy mediaName).
  - destruct (getRelationshipMetaString fileRelationship "title") as [text|] eqn:Hmeta.
    + apply getRelationshipMetaString_nonempty in Hmeta.
      unfold Js.or. simpl. apply String.eqb_neq in Hmeta. by rewrite Hmeta.
    + reflexivity.
Qed.

(** C10.  The image data that [extractImageFromFile] derives from a file
    whose [image_style_uri] attribute is truthy has no width and no height,
    whatever the [width] and [height] attributes of the file; otherwise its
    width and height are those attributes.  The image of the descriptor of a
    [media--image] resource that resolves to the file has the same width
    and height. *)
Theorem image_style_uri_drops_dimensions file fileImage :
  extractImageFromFile (Some file) = Ok (Some fileImage) ->
  (if Js.truthy (Js.prop_opt (attributes file) "image_style_uri") then
     width fileImage = JUndefined /\ height fileImage = JUndefined
   else
     width fileImage = Js.prop_opt (attributes file) "width"
     /\ height fileImage = Js.prop_opt (attributes file) "height")
  /\ forall media included,
       remove_first (res_type media) "media--" = "image" ->
       findIncludedByRelationship included
         (relationships media ≫= (.!! "field_media_image")) = Some file ->
       exists d img,
         extractMedia (Some media) included = Ok (Some d)
         /\ image d = Some img
         /\ width img = width fileImage
         /\ height img = height fileImage.
Proof.
  intros Himage. split.
  - revert Himage. unfold extractImageFromFile.
    destruct (getFileUrl _ _) as [[[|c url]|]|]; try done. simpl.
    intros [= <-]. simpl. by destruct (Js.truthy _).
  - intros media included Hbundle Hfile.
    rewrite (extractMedia_image _ _ Hbundle). cbv zeta.
    rewrite Hfile, Himage. simpl. by eexists _, _.
Qed.

(** Deriving the URL of a file does not throw when the base origin is
    configured and the URL attribute of the file is a string or falsy. *)
Lemma resolveFileUrl_returns url options :
  returns (getDrupalBaseUrlFromOptions options) ->
  string_or_falsy url ->
  returns (resolveFileUrl url options).
Proof.
  intros [base Hbase] [[text ->]|Hfalsy]; unfold resolveFileUrl.
  - rewrite Hbase. simpl. unfold returns.
    repeat (case_match; eauto).
  - rewrite Hfalsy. by eexists.
Qed.

Lemma getFileUrl_returns file :
  returns (getDrupalBaseUrlFromOptions None) ->
  (forall attrs,
     attributes file = Some attrs ->
     let uri := Js.prop attrs "uri" in
     string_or_falsy
       (Js.or (Js.or (Js.get_opt uri "url") (Js.get_opt uri "value"))
              (Js.prop attrs "url"))) ->
  returns (getFileUrl (Some file) None).
Proof.
  intros Hbase Hurl. unfold getFileUrl. simpl.
  destruct (attributes file) as [attrs|]; [|by eexists].
  apply resolveFileUrl_returns; [done|]. by apply Hurl.
Qed.

(** C5, as amended.  For a media resource that is present,
    [extractMedia] never returns none.  It returns the bare descriptor of
    kind [unknown] when the bundle is none of the six known ones, and the
    bare descriptor of kind [image] when the [field_media_image]
    relationship of a [media--image] resource does not resolve, without
    throwing in either case.  It returns a descriptor without throwing
    whenever the oEmbed URL attribute is a string or falsy and deriving the
    URL of the included files does not throw. *)
Theorem extractMedia_descriptor media included :
  let bundle := remove_first (res_type media) "media--" in
  extractMedia (Some media) included <> Ok None
  /\ (bundle ∉ ["image"; "video"; "remote_video"; "file"; "document"; "audio"] ->
      extractMedia (Some media) included = Ok (Some (bare media Unknown)))
  /\ (bundle = "image" ->
      findIncludedByRelationship included
        (relationships media ≫= (.!! "field_media_image")) = None ->
      extractMedia (Some media) included = Ok (Some (bare media Image)))
  /\ (string_or_falsy (Js.prop_opt (attributes media) "field_media_oembed_video") ->
      (forall files file,
         included = Some files -> file ∈ files ->
         returns (getFileUrl (Some file) None)) ->
      exists d, extractMedia (Some media) included = Ok (Some d)).
Proof.
  intros bundle. repeat split.
  - unfold extractMedia. fold bundle.
    repeat (case_match; simpl; try done);
      repeat match goal with
             | |- context [mbind _ ?r] => destruct r; simpl; try done
             end;
      repeat (case_match; simpl; try done).
  - intros Hbundle. unfold extractMedia. fold bundle.
    rewrite !not_elem_of_cons in Hbundle.
    destruct Hbundle as (Hi & Hv & Hr & Hf & Hd & Ha & _).
    apply String.eqb_neq in Hi, Hv, Hr, Hf, Hd, Ha.
    by rewrite Hi, Hv, Hr, Hf, Hd, Ha.
  - intros Hbundle Hfile. rewrite (extractMedia_image _ _ Hbundle). cbv zeta.
    by rewrite Hfile.
  - intros Hvideo Hfiles.
    assert (Hurl : forall relationship file,
              findIncludedByRelationship included relationship = Some file ->
              returns (getFileUrl (Some file) None)).
    { intros relationship file
        (files & -> & Hin)%findIncludedByRelationship_elem_of. eauto. }
    unfold extractMedia. fold bundle.
    destruct (String.eqb bundle "image").
    { destruct (findIncludedByRelationship _ _) as [file|] eqn:Hfile; [|eauto].
      destruct (Hurl _ _ Hfile) as [u Hu]. unfold extractImageFromFile.
      rewrite Hu. simpl. destruct u as [[|c u]|]; simpl; eauto. }
    destruct (String.eqb bundle "video").
    { destruct (findIncludedByRelationship _ _) as [file|] eqn:Hfile; [|eauto].
      destruct (Hurl _ _ Hfile) as [u ->]. simpl. eauto. }
    destruct (String.eqb bundle "remote_video").
    { destruct Hvideo as [[v ->]| ->]; [|eauto].
      destruct (Js.truthy (JStr v)); eauto. }
    destruct (String.eqb bundle "file" || String.eqb bundle "document").
    { destruct (findIncludedByRelationship _ _) as [file|] eqn:Hfile; [|eauto].
      destruct (Hurl _ _ Hfile) as [u ->]. simpl. eauto. }
    destruct (String.eqb bundle "audio"); [|eauto].
    destruct (findIncludedByRelationship _ _) as [file|] eqn:Hfile; [|eauto].
    destruct (Hurl _ _ Hfile) as [u ->]. simpl. eauto.
Qed.

End WithConfiguration.

(** The examples: a bundle that is not supported, an image whose file was
    not included, and a remote video. *)
Lemma extractMedia_descriptor_witness :
  let cfg := fixed_base "https://cms.example.com" in
  @extractMedia cfg (Some Documents.podcast) (Some [])
    = Ok (Some (bare Documents.podcast Unknown))
  /\ @extractMedia cfg (Some Documents.logo) (Some [])
     = Ok (Some (bare Documents.logo Image))
  /\ exists d, @extractMedia cfg (Some Documents.talk) (Some [Documents.png])
               = Ok (Some d).
Proof.
  intros cfg. split; [|split].
  - destruct (@extractMedia_descriptor cfg Documents.podcast (Some []))
      as (_ & Hunknown & _).
    apply Hunknown.
    repeat (apply not_elem_of_cons; split; [done|]). apply not_elem_of_nil.
  - destruct (@extractMedia_descriptor cfg Documents.logo (Some []))
      as (_ & _ & Himage & _).
    apply Himage; reflexivity.
  - destruct (@extractMedia_descriptor cfg Documents.talk
                (Some [Documents.png])) as (_ & _ & _ & Hany).
    apply Hany.
    + left. by eexists.
    + intros files file [= <-] ->%list_elem_of_singleton. by eexists.
Defined.

(** The claim as the specification words it fails on a remote video whose
    oEmbed URL attribute is a number: [extractMedia] throws. *)
Lemma extractMedia_numbered_video_throws :
  @extractMedia (fixed_base "https://cms.example.com")
    (Some Documents.numbered_video) (Some [])
  = Throw (TypeError "url.match is not a function").
Proof. reflexivity. Qed.

(** The example: the logo, with [alt] metadata on the relationship and
    without; the file declares a width of 800 and a height of 600. *)
Lemma image_alt_title_fallback_witness :
  let cfg := fixed_base "https://cms.example.com" in
  (exists d img,
     @extractMedia cfg (Some Documents.logo) (Some [Documents.png])
       = Ok (Some d)
     /\ image d = Some img /\ alt img = JStr "The company logo"
     /\ width img = JNum 800 /\ height img = JNum 600)
  /\ (exists d img,
        @extractMedia cfg (Some Documents.logo_without_meta)
          (Some [Documents.png]) = Ok (Some d)
        /\ image d = Some img /\ alt img = JStr "a.png"
        /\ width img = JNum 800 /\ height img = JNum 600).
Proof.
  intros cfg. split.
  - destruct (@image_alt_title_fallback cfg Documents.logo
                (Some [Documents.png]) Documents.png
                "https://cms.example.com/sites/default/files/a.png")
      as (d & img & Hd & _ & _ & Himg & _ & Halt & _ & Hw & Hh);
      [reflexivity|reflexivity|reflexivity|].
    exists d, img.
    repeat split; [exact Hd|exact Himg|exact Halt|exact Hw|exact Hh].
  - destruct (@image_alt_title_fallback cfg Documents.logo_without_meta
                (Some [Documents.png]) Documents.png
                "https://cms.example.com/sites/default/files/a.png")
      as (d & img & Hd & _ & _ & Himg & _ & Halt & _ & Hw & Hh);
      [reflexivity|reflexivity|reflexivity|].
    exists d, img.
    repeat split; [exact Hd|exact Himg|exact Halt|exact Hw|exact Hh].
Defined.

(** The claim as the specification words it fails on a file served with
    image style URLs: the relationship carries no metadata and the file
    declares a width of 800 and a height of 600, yet the image of the
    descriptor has neither. *)
Lemma styled_file_dimensions_not_used :
  let cfg := fixed_base "https://cms.example.com" in
  ref_meta {| ref_type := "file--file"; ref_id := "f1"; ref_meta := None |}
    = None
  /\ relationships Documents.logo_without_meta
       ≫= (.!! "field_media_image") = Some (Documents.file_ref None)
  /\ Js.prop_opt (attributes Documents.styled_png) "width" = JNum 800
  /\ Js.prop_opt (attributes Documents.styled_png) "height" = JNum 600
  /\ exists d img,
       @extractMedia cfg (Some Documents.logo_without_meta)
         (Some [Documents.styled_png]) = Ok (Some d)
       /\ image d = Some img
       /\ width img = JUndefined /\ height img = JUndefined.
Proof.
  intros cfg. repeat split. by eexists _, _.
Qed.

(** The example: the file served with image style URLs loses its
    dimensions, in the image data and in the descriptor of the logo. *)
Lemma image_style_uri_drops_dimensions_witness :
  let cfg := fixed_base "https://cms.example.com" in
  exists fileImage d img,
    @extractImageFromFile cfg (Some Documents.styled_png) = Ok (Some fileImage)
    /\ width fileImage = JUndefined /\ height fileImage = JUndefined
    /\ @extractMedia cfg (Some Documents.logo) (Some [Documents.styled_png])
       = Ok (Some d)
    /\ image d = Some img
    /\ width img = JUndefined /\ height img = JUndefined.
Proof.
  intros cfg.
  destruct (@image_style_uri_drops_dimensions cfg Documents.styled_png
              {| src := "https://cms.example.com/sites/default/files/a.png";
                 alt := JStr "a.png"; width := JUndefined;
                 height := JUndefined; title := JUndefined |})
    as [Hfile Hmedia]; [reflexivity|].
  destruct (Hmedia Documents.logo (Some [Documents.styled_png]))
    as (d & img & Hd & Himg & Hw & Hh); [reflexivity|reflexivity|].
  eexists _, d, img. split; [reflexivity|].
  repeat split; [exact Hd|exact Himg|exact Hw|exact Hh].
Defined.

End MediaSpec.

Module EmbeddedSpec.
Import JsString JsStringFacts Media.

(** The loop of [extractEmbeddedMediaUuids] ends: once the fuel covers the
    rest of the input, more fuel changes nothing. *)
Lemma scan_tags_fuel (fuel fuel' : nat) (html : string) (index : nat)
    (uuids : list string) :
  String.length html - index <= fuel ->
  String.length html - index <= fuel' ->
  scan_tags fuel html index uuids = scan_tags fuel' html index uuids.
Proof.
  revert fuel' index uuids.
  induction fuel as [|fuel IH]; intros [|fuel'] index uuids Hfuel Hfuel';
    cbn [scan_tags]; try done.
  - destruct (Nat.ltb_spec index (String.length html)); [lia|done].
  - destruct (Nat.ltb_spec index (String.length html)); [lia|done].
  - destruct (Nat.ltb_spec index (String.length html)) as [Hlt|]; [|done].
    destruct (indexOf html "<drupal-media" index) as [start|] eqn:Hstart; [|done].
    destruct (indexOf html ">" start) as [end_|] eqn:Hend; [|done].
    apply indexOf_bounds in Hstart as [Hge Hin].
    apply indexOf_bounds in Hend as [Hge' _].
    specialize (Hin ltac:(done)). apply IH; lia.
Qed.

(** The loop does not look back: scanning from [index] on is scanning the
    rest of the input from its start. *)
Lemma scan_tags_shift (fuel : nat) (html : string) (index : nat)
    (uuids : list string) :
  index <= String.length html ->
  scan_tags fuel html index uuids
  = (uuids ++ scan_tags fuel (drop index html) 0 [])%list.
Proof.
  revert html index uuids.
  induction fuel as [|fuel IH]; intros html index uuids Hindex;
    cbn [scan_tags]; [by rewrite app_nil_r|].
  rewrite length_drop.
  destruct (Nat.ltb_spec index (String.length html)) as [Hlt|Hge];
    destruct (Nat.ltb_spec 0 (String.length html - index)); try lia;
    [|by rewrite app_nil_r].
  replace (indexOf html "<drupal-media" index)
    with (indexOf html "<drupal-media" (index + 0)) by (f_equal; lia).
  rewrite indexOf_shift by done.
  destruct (indexOf (drop index html) "<drupal-media" 0) as [start|];
    simpl; [|by rewrite app_nil_r].
  rewrite indexOf_shift by done.
  destruct (indexOf (drop index html) ">" start) as [end_|] eqn:Hend;
    simpl; [|by rewrite app_nil_r].
  apply indexOf_bounds in Hend as [_ Hin]. specialize (Hin ltac:(done)).
  rewrite length_drop in Hin.
  rewrite <- Nat.add_assoc, <- slice_drop.
  rewrite IH by lia. rewrite (IH (drop index html)) by (rewrite length_drop; lia).
  rewrite drop_drop.
  destruct (parseDrupalMediaTag _); simpl; by rewrite <- ?app_assoc.
Qed.

(** C9, as amended.  [extractEmbeddedMediaUuids] reads the input from left
    to right, one span at a time: a span runs from the first occurrence of
    [<drupal-media] to the first [>] at or after it, whatever lies between
    them.  A span gives the value that [parseDrupalMediaTag] finds in it
    (duplicates included) or, when that finds none, nothing; the rest of
    the input after the [>] is read the same way.  The reading ends without
    further values when no [<drupal-media] is left or when no [>] follows
    the one found; the loop always ends. *)
Theorem extractEmbeddedMediaUuids_spans (html : string) :
  (indexOf html "<drupal-media" 0 = None ->
   extractEmbeddedMediaUuids html = [])
  /\ (forall start,
        indexOf html "<drupal-media" 0 = Some start ->
        indexOf html ">" start = None ->
        extractEmbeddedMediaUuids html = [])
  /\ (forall start end_,
        indexOf html "<drupal-media" 0 = Some start ->
        indexOf html ">" start = Some end_ ->
        extractEmbeddedMediaUuids html
        = (option_list (parseDrupalMediaTag (slice html start (end_ + 1)))
           ++ extractEmbeddedMediaUuids (drop (end_ + 1) html))%list)
  /\ (forall extra,
        scan_tags (String.length html + extra) html 0 []
        = extractEmbeddedMediaUuids html).
Proof.
  unfold extractEmbeddedMediaUuids. repeat split.
  - intros Hnone. destruct (String.length html) eqn:Hlen; cbn [scan_tags];
      [done|]. rewrite Hnone. by destruct (Nat.ltb _ _).
  - intros start Hstart Hnone.
    destruct (String.length html) eqn:Hlen; cbn [scan_tags]; [done|].
    rewrite Hstart, Hnone. by destruct (Nat.ltb _ _).
  - intros start end_ Hstart Hend.
    pose proof (indexOf_bounds _ _ _ _ Hstart) as [_ Hin].
    pose proof (indexOf_bounds _ _ _ _ Hend) as [Hge Hin'].
    specialize (Hin ltac:(done)). specialize (Hin' ltac:(done)).
    destruct (String.length html) as [|n] eqn:Hlen; [lia|].
    cbn [scan_tags]. rewrite Hlen, Hstart, Hend. simpl Nat.ltb. cbv iota.
    rewrite scan_tags_shift by lia.
    rewrite (scan_tags_fuel n (String.length (drop (end_ + 1) html)))
      by (rewrite length_drop; lia).
    by destruct (parseDrupalMediaTag _).
  - intros extra. apply scan_tags_fuel; lia.
Qed.

Lemma space_run_app (spaces rest : string) (c : ascii) :
  trimStart spaces = "" ->
  is_space c = false ->
  space_run (spaces +:+ String c rest) = String.length spaces.
Proof.
  intros Hspaces Hc.
  induction spaces as [|d spaces IH]; simpl; [by rewrite Hc|].
  simpl in Hspaces. destruct (is_space d); [|done]. by rewrite IH.
Qed.

Lemma get_app_length (s rest : string) (c : ascii) :
  String.get (String.length s) (s +:+ String c rest) = Some c.
Proof. induction s as [|d s IH]; [done|]. by rewrite str_app_cons. Qed.

Lemma startsWith_char_app (s rest : string) (c : ascii) :
  s <> "" -> startsWith (s +:+ rest) (String c "") = startsWith s (String c "").
Proof. by destruct s. Qed.

(** The first occurrence of a code unit after a text that has none. *)
Lemma indexOf_char_after (text rest : string) (c : ascii) :
  indexOf text (String c "") 0 = None ->
  indexOf (text +:+ String c rest) (String c "") 0
  = Some (String.length text).
Proof.
  unfold indexOf. simpl Nat.min. cbn [drop]. intros Hnone.
  apply indexOf_go_Some. exists (String.length text).
  rewrite str_length_app. repeat split; [lia| |].
  - rewrite drop_app_length. apply startsWith_true. by exists rest.
  - intros j Hj. rewrite drop_app by lia.
    rewrite startsWith_char_app.
    + apply (proj1 (indexOf_None_go _ _ _) Hnone). lia.
    + intros Hempty. apply (f_equal String.length) in Hempty.
      rewrite length_drop in Hempty. simpl in Hempty. lia.
Qed.

(** A well-formed attribute: [data-entity-uuid=], white space if any, and
    a value between two quotes of the same kind that has no such quote in
    it.  [parseDrupalMediaTag] returns the value. *)
Lemma parseDrupalMediaTag_wellformed (before spaces uuid after : string)
    (quote : ascii) :
  let html := before +:+ "data-entity-uuid=" +:+ spaces
              +:+ String quote (uuid +:+ String quote after) in
  indexOf html "data-entity-uuid=" 0 = Some (String.length before) ->
  trimStart spaces = "" ->
  quote = dquote \/ quote = "'"%char ->
  uuid <> "" ->
  indexOf uuid (String quote "") 0 = None ->
  parseDrupalMediaTag html = Some uuid.
Proof.
  intros html Hattr Hspaces Hquote Huuid Hnone.
  assert (Hq : is_space quote = false) by (by destruct Hquote as [-> | ->]).
  assert (Hqq : Ascii.eqb quote dquote || Ascii.eqb quote "'" = true).
  { destruct Hquote as [-> | ->]; reflexivity. }
  set (index := String.length before + 17 + String.length spaces).
  assert (Hhtml : html = (before +:+ "data-entity-uuid=" +:+ spaces)
                         +:+ String quote (uuid +:+ String quote after)).
  { unfold html. by rewrite !str_app_assoc. }
  assert (Hindex : String.length (before +:+ "data-entity-uuid=" +:+ spaces)
                   = index).
  { rewrite !str_length_app. simpl. unfold index. lia. }
  unfold parseDrupalMediaTag. rewrite Hattr.
  replace (drop (String.length before + String.length "data-entity-uuid=") html)
    with (spaces +:+ String quote (uuid +:+ String quote after)).
  2:{ unfold html. rewrite <- drop_drop, drop_app_length.
      by rewrite (drop_app_length "data-entity-uuid="). }
  rewrite (space_run_app _ _ _ Hspaces Hq).
  change (String.length "data-entity-uuid=") with 17. fold index.
  unfold charAt. rewrite Hhtml at 1. rewrite <- Hindex at 1.
  rewrite get_app_length, Hqq.
  assert (Hlen : index + 1 <= String.length html).
  { rewrite Hhtml, str_length_app, Hindex. simpl. lia. }
  replace (indexOf html (String quote "") (index + 1))
    with (indexOf html (String quote "") (index + 1 + 0)) by (f_equal; lia).
  rewrite indexOf_shift by done.
  assert (Hrest : drop (index + 1) html = uuid +:+ String quote after).
  { rewrite <- drop_drop. rewrite Hhtml at 1. rewrite <- Hindex.
    by rewrite drop_app_length. }
  rewrite Hrest, (indexOf_char_after _ _ _ Hnone). simpl.
  unfold slice. rewrite Hrest.
  replace (index + 1 + String.length uuid - (index + 1))
    with (String.length uuid) by lia.
  rewrite take_app_length. apply String.eqb_neq in Huuid. by rewrite Huuid.
Qed.

(** The examples: the paragraph of the specification, and an article whose
    second tag has no identifier and whose first and last tags embed the
    same entity. *)
Lemma extractEmbeddedMediaUuids_spans_witness :
  extractEmbeddedMediaUuids Documents.paragraph = ["abc-123"]
  /\ extractEmbeddedMediaUuids Documents.article = ["a"; "b"; "a"].
Proof.
  split.
  - destruct (extractEmbeddedMediaUuids_spans Documents.paragraph)
      as (_ & _ & Hspan & _).
    rewrite (Hspan 3 63); reflexivity.
  - destruct (extractEmbeddedMediaUuids_spans Documents.article)
      as (_ & _ & Hspan & _).
    rewrite (Hspan 0 34); reflexivity.
Defined.

(** The claim as the specification words it fails on a tag that is never
    closed and is followed by a well-formed tag: the span of the first tag
    runs to the [>] of the second, so the first tag contributes its value
    and the second tag, which alone gives [b], is not read. *)
Lemma unterminated_tag_swallows_next :
  indexOf Documents.unterminated ">" 0 = None
  /\ extractEmbeddedMediaUuids Documents.wellformed = ["b"]
  /\ extractEmbeddedMediaUuids (Documents.unterminated +:+ Documents.wellformed)
     = ["a"].
Proof. repeat split. Qed.

(** A [>] inside a quoted attribute value ends the span as well: the
    identifier after it is not read. *)
Example caption_with_angle_bracket :
  extractEmbeddedMediaUuids
    "<drupal-media data-caption='a > b' data-entity-uuid='x'></drupal-media>"
  = [].
Proof. reflexivity. Qed.

End EmbeddedSpec.

(** * Further properties of the routes feed *)

Module RoutesFacts.
Import JsString JsStringFacts Routes RoutesSpec.

(** What [normalizeRoutesItem] lets through. *)
Lemma normalizeRoutesItem_invariant (value : jsval) (item : RoutesFeedItem) :
  normalizeRoutesItem value = Some item ->
  startsWith (path item) "/" = true
  /\ match kind item with
     | entity =>
         (exists u, jsonapi_url item = Some u /\ blank u = false)
         /\ data_url item = None
     | view =>
         (exists u, data_url item = Some u /\ blank u = false)
         /\ jsonapi_url item = None
     end.
Proof.
  unfold normalizeRoutesItem.
  destruct value as [| |b|z|s|items|props]; simpl;
    rewrite ?orb_true_r; try done.
  destruct (Js.prop props "path") as [| |?|?|p|?|?]; try done. simpl.
  destruct (blank p); [done|]. simpl.
  destruct (startsWith p "/") eqn:Hslash; [|done]. simpl.
  destruct (Js.prop props "kind") as [| |?|?|k|?|?]; try done. simpl.
  destruct (String.eqb k "entity").
  - destruct (Js.prop props "jsonapi_url") as [| |?|?|u|?|?]; try done.
    destruct (blank u) eqn:Hu; [done|].
    destruct (Js.prop props "data_url"); try done.
    intros [= <-]. simpl. eauto.
  - destruct (String.eqb k "view"); [|done].
    destruct (Js.prop props "data_url") as [| |?|?|u|?|?]; try done.
    destruct (blank u) eqn:Hu; [done|].
    destruct (Js.prop props "jsonapi_url"); try done.
    intros [= <-]. simpl. eauto.
Qed.

Lemma getNextLink_not_blank (links : jsval) (next : string) :
  getNextLink links = Some next -> blank next = false.
Proof.
  unfold getNextLink. destruct (_ || _); [done|].
  destruct (Js.get links "next") as [| |?|?|n|?|?]; try done.
  destruct (blank n) eqn:Hn; [done|]. by intros [= <-].
Qed.

(** A page that [read_response] returns comes from a body of type object:
    its entries are the accepted items of [data], its next link is what
    [getNextLink] reads. *)
Lemma read_response_Ok (res : Response) (page : RoutesFeedResponse) :
  read_response res = Ok page ->
  exists doc,
    ok res = true /\ json res = Ok doc
    /\ data page = omap normalizeRoutesItem
                     match Js.get doc "data" with
                     | JArr items => items
                     | _ => []
                     end
    /\ links_next page = getNextLink (Js.get doc "links").
Proof.
  unfold read_response. destruct (ok res); [|done]. simpl.
  destruct (json res) as [doc|e]; [|done]. simpl.
  destruct (_ || _); [done|]. intros [= <-]. by exists doc.
Qed.

Section WithPlatform.
Context `{Configuration} `{UrlApi} `{Transport}.

(** The two ways [fetchRoutesPage] can go: it throws before any request,
    or it makes one request and reads the response. *)
Lemma fetchRoutesPage_inv options st outcome st' :
  fetchRoutesPage options st = (outcome, st') ->
  (exists e, outcome = Throw e /\ st' = st)
  \/ (exists base requested response,
        getDrupalBaseUrlFromOptions
          (Some {| BaseOptions.baseUrl := Routes.baseUrl options;
                   BaseOptions.envKey := envKey options |}) = Ok base
        /\ request_url options base = Ok requested
        /\ fetcher (toString requested) (world st) = (response, world st')
        /\ requests st' = (requests st ++ [toString requested])%list
        /\ outcome = response ≫= read_response).
Proof.
  unfold fetchRoutesPage.
  destruct (getDrupalBaseUrlFromOptions _) as [base|e] eqn:Hbase; simpl.
  - destruct (request_url options base) as [requested|e] eqn:Hurl.
    + unfold fetch.
      destruct (fetcher _ _) as [response w] eqn:Hfetch. intros [= <- <-].
      right. by exists base, requested, response.
    + intros [= <- <-]. left. eauto.
  - intros [= <- <-]. left. eauto.
Qed.

(** X1.  Every entry of a page that [fetchRoutesPage] returns has a path
    that starts with [/] and exactly one URL, the one of its kind, which is
    not blank. *)
Theorem page_entries_valid options st page st' item :
  fetchRoutesPage options st = (Ok page, st') ->
  item ∈ data page ->
  startsWith (path item) "/" = true
  /\ match kind item with
     | entity =>
         (exists u, jsonapi_url item = Some u /\ blank u = false)
         /\ data_url item = None
     | view =>
         (exists u, data_url item = Some u /\ blank u = false)
         /\ jsonapi_url item = None
     end.
Proof.
  intros [(e & He & _)|(base & requested & response & _ & _ & _ & _ & Hout)]
           %fetchRoutesPage_inv Hitem; [done|].
  destruct response as [res|e]; [|done]. symmetry in Hout.
  apply read_response_Ok in Hout as (doc & _ & _ & Hdata & _).
  rewrite Hdata in Hitem.
  apply list_elem_of_omap in Hitem as (value & _ & Hvalue).
  by apply (normalizeRoutesItem_invariant value).
Qed.

(** [getNextLink] in one expression: [links?.next] when that is a string
    that is not blank, and none in every other case. *)
Lemma getNextLink_spec (links : jsval) :
  getNextLink links
  = match Js.get_opt links "next" with
    | JStr next => if blank next then None else Some next
    | _ => None
    end.
Proof.
  unfold getNextLink.
  destruct links as [| |b|z|text|items|props]; try done.
  - by destruct b.
  - simpl. by destruct (negb (z =? 0)%Z).
  - simpl. by destruct (negb (String.eqb text "")).
Qed.

(** X2.  The next link of a page that [fetchRoutesPage] returns is the
    [links.next] of the body that was read when that is a string that is
    not blank, and null in every other case: [links] missing, null or not
    an object, [next] missing, not a string, empty or only white space.
    So the next link of a page is never empty or blank. *)
Theorem page_next_not_blank options st page st' :
  fetchRoutesPage options st = (Ok page, st') ->
  exists res doc,
    answered options st res st'
    /\ ok res = true
    /\ json res = Ok doc
    /\ links_next page
       = match Js.get_opt (Js.get doc "links") "next" with
         | JStr next => if blank next then None else Some next
         | _ => None
         end
    /\ (forall next,
          links_next page = Some next -> blank next = false /\ next <> "").
Proof.
  intros [(e & He & _)
         |(base & requested & response & Hbase & Hurl & Hfetch & Hreq & Hout)]
           %fetchRoutesPage_inv; [done|].
  destruct response as [res|e]; [|done]. symmetry in Hout.
  apply read_response_Ok in Hout as (doc & Hok & Hjson & _ & Hlinks).
  exists res, doc. split.
  { exists base, requested. split; [done|]. split; [done|].
    unfold fetch. rewrite Hfetch. f_equal. destruct st' as [w requested'].
    simpl in *. by rewrite Hreq. }
  split; [done|]. split; [done|]. split.
  - by rewrite Hlinks, getNextLink_spec.
  - intros next Hnext. rewrite Hlinks in Hnext.
    apply getNextLink_not_blank in Hnext. split; [done|]. by intros ->.
Qed.

(** X3.  [fetchRoutesPage] makes at most one request: none when it throws
    before the request (the outside world is then untouched), and exactly
    one whenever it returns a page. *)
Theorem fetchRoutesPage_one_request options st outcome st' :
  fetchRoutesPage options st = (outcome, st') ->
  (st' = st \/ exists requested,
                 requests st' = (requests st ++ [requested])%list)
  /\ (forall page, outcome = Ok page ->
        exists requested, requests st' = (requests st ++ [requested])%list).
Proof.
  intros [(e & -> & ->)|(base & requested & response & _ & _ & _ & Hreq & _)]
           %fetchRoutesPage_inv.
  - split; [by left|done].
  - split; [right|intros page _]; by exists (toString requested).
Qed.

(** X4.  A response that is not ok makes [fetchRoutesPage] throw the
    request error with the status and status text of the response,
    whatever its body; and when reading the body of an ok response throws,
    [fetchRoutesPage] throws the same. *)
Theorem fetchRoutesPage_failed_response options st res st' :
  answered options st res st' ->
  (ok res = false ->
   fetchRoutesPage options st
   = (Throw (FeedRequestError (status res) (statusText res)), st'))
  /\ (forall e, ok res = true -> json res = Throw e ->
        fetchRoutesPage options st = (Throw e, st')).
Proof.
  intros Hans. rewrite (fetchRoutesPage_answered _ _ _ _ Hans).
  unfold read_response. split.
  - by intros ->.
  - by intros e -> ->.
Qed.

(** X5.  A URL that [buildRoutesUrl] returns has the origin of the base and
    the scheme [http:] or [https:]; so has, for a cursor, the one URL that
    [fetchRoutesPage] requests. *)
Theorem requested_url_same_origin options st page st' cursor :
  cursor <> "" ->
  fetchRoutesPage (with_url options (Some cursor)) st = (Ok page, st') ->
  exists base baseUrl url,
    getDrupalBaseUrlFromOptions
      (Some {| BaseOptions.baseUrl := Routes.baseUrl options;
               BaseOptions.envKey := envKey options |}) = Ok base
    /\ URL_new base None = Ok baseUrl
    /\ URL_new cursor (Some baseUrl) = Ok url
    /\ origin url = origin baseUrl
    /\ (protocol url = "http:" \/ protocol url = "https:")
    /\ requests st' = (requests st ++ [toString url])%list.
Proof.
  intros Hcursor
    [(e & He & _)|(base & requested & response & Hbase & Hurl & _ & Hreq & _)]
      %fetchRoutesPage_inv; [done|].
  assert (Hbuild : buildRoutesUrl cursor base = Ok requested).
  { revert Hurl. unfold request_url. simpl. by destruct cursor. }
  unfold buildRoutesUrl in Hbuild.
  destruct (URL_new base None) as [baseUrl|] eqn:HbaseUrl; [|done].
  simpl in Hbuild.
  destruct (URL_new cursor (Some baseUrl)) as [url|] eqn:Hnew; [|done].
  simpl in Hbuild.
  destruct (String.eqb_spec (origin url) (origin baseUrl)) as [Horigin|];
    [|done]. simpl in Hbuild.
  destruct (String.eqb_spec (protocol url) "http:") as [Hhttp|];
    destruct (String.eqb_spec (protocol url) "https:") as [Hhttps|];
    simpl in Hbuild; try done; injection Hbuild as <-;
    exists base, baseUrl, url; repeat split; auto.
Qed.

(** When the body is an object with an array as [data], a page is
    returned whatever the items are: an item that is not accepted is left
    out and never makes the page fail. *)
Lemma fetchRoutesPage_items options st res st' props items :
  answered options st res st' ->
  ok res = true ->
  json res = Ok (JObj props) ->
  props !! "data" = Some (JArr items) ->
  exists page,
    fetchRoutesPage options st = (Ok page, st')
    /\ data page = omap normalizeRoutesItem items.
Proof.
  intros Hans Hok Hjson Hdata.
  rewrite (fetchRoutesPage_answered _ _ _ _ Hans).
  destruct (read_response_data res props items Hok Hjson Hdata)
    as (page & -> & Hpage). eauto.
Qed.

Lemma length_omap_le {A B} (f : A -> option B) (l : list A) :
  length (omap f l) <= length l.
Proof.
  induction l as [|x l IH]; [done|].
  change (omap f (x :: l))
    with (match f x with Some y => y :: omap f l | None => omap f l end).
  destruct (f x); simpl; lia.
Qed.

(** X6.  Malformed items never abort a page: for a body that is an object
    whose [data] is an array, [fetchRoutesPage] returns a page whatever the
    items are.  The entries of the page are what [normalizeRoutesItem]
    makes of the items it accepts, in the order of the body: an item that
    is accepted puts its entry in front of the entries of the items after
    it, an item that is not accepted is left out.  So the page never has
    more entries than the body has items, and has one for each when every
    item is accepted. *)
Theorem malformed_items_never_abort options st res st' props items :
  answered options st res st' ->
  ok res = true ->
  json res = Ok (JObj props) ->
  props !! "data" = Some (JArr items) ->
  exists page,
    fetchRoutesPage options st = (Ok page, st')
    /\ data page = omap normalizeRoutesItem items
    /\ (forall value rest,
          omap normalizeRoutesItem (value :: rest)
          = match normalizeRoutesItem value with
            | Some item => item :: omap normalizeRoutesItem rest
            | None => omap normalizeRoutesItem rest
            end)
    /\ length (data page) <= length items
    /\ (forall item, item ∈ data page <->
          exists value, value ∈ items /\ normalizeRoutesItem value = Some item)
    /\ (forall accepted,
          Forall2 (fun value item => normalizeRoutesItem value = Some item)
                  items accepted ->
          data page = accepted).
Proof.
  intros Hans Hok Hjson Hdata.
  destruct (fetchRoutesPage_items _ _ _ _ _ _ Hans Hok Hjson Hdata)
    as (page & Hpage & Hitems).
  exists page. rewrite Hitems.
  split; [done|]. split; [done|]. split; [done|].
  split; [apply length_omap_le|]. split.
  - intros item. apply list_elem_of_omap.
  - intros accepted Hall. clear Hdata Hitems Hpage.
    induction Hall as [|value item items' accepted' Hv _ IH]; [done|].
    change (omap normalizeRoutesItem (value :: items'))
      with (match normalizeRoutesItem value with
            | Some y => y :: omap normalizeRoutesItem items'
            | None => omap normalizeRoutesItem items'
            end).
    by rewrite Hv, IH.
Qed.

(** Every round of the loop makes at most one request. *)
Lemma iterateRoutes_loop_requests n maxPages options pageUrl st items outcome st' :
  iterateRoutes_loop n maxPages options pageUrl st = (items, outcome, st') ->
  length (requests st') <= length (requests st) + n.
Proof.
  revert pageUrl st items outcome st'.
  induction n as [|n IH]; intros pageUrl st items outcome st';
    cbn [iterateRoutes_loop]; [intros [= _ _ <-]; lia|].
  destruct (fetchRoutesPage (with_url options pageUrl) st)
    as [fetched st1] eqn:Hfetch.
  assert (Hone : length (requests st1) <= length (requests st) + 1).
  { apply fetchRoutesPage_inv in Hfetch
      as [(e & _ & ->)|(? & ? & ? & _ & _ & _ & -> & _)];
      [lia|rewrite length_app; simpl; lia]. }
  destruct fetched as [page|e]; [|intros [= _ _ <-]; lia].
  destruct (links_next page) as [[|c next]|]; try (intros [= _ _ <-]; lia).
  destruct (iterateRoutes_loop n _ _ _ _) as [[items' outcome'] st''] eqn:Hloop.
  intros [= _ _ <-]. apply IH in Hloop. lia.
Qed.

(** X7.  [iterateRoutes] never makes more requests than [maxPages] (10000
    when it is not given), however the feed behaves; with a [maxPages] of
    zero or less it throws the overrun error without any request. *)
Theorem iterateRoutes_request_bound options st items outcome st' :
  iterateRoutes options st = (items, outcome, st') ->
  let limit := default 10000%Z (Routes.maxPages options) in
  length (requests st') <= length (requests st) + Z.to_nat limit
  /\ ((limit <= 0)%Z ->
      items = [] /\ outcome = Throw (PaginationOverrunError limit) /\ st' = st).
Proof.
  intros Hloop limit. unfold iterateRoutes in Hloop. fold limit in Hloop.
  split.
  - by apply iterateRoutes_loop_requests in Hloop.
  - intros Hlimit. replace (Z.to_nat limit) with 0 in Hloop by lia.
    by injection Hloop as <- <- <-.
Qed.

(** X8.  A feed of any number of pages, fewer than [maxPages], whose last
    page names no next page: [iterateRoutes] yields the entries of all
    pages, page after page, and ends normally; [collectRoutes] returns
    them; one request was made per page. *)
Theorem iterateRoutes_complete options st pages cursor st1 last st2 :
  follows options None st pages cursor st1 ->
  fetchRoutesPage (with_url options cursor) st1 = (Ok last, st2) ->
  links_next last = None ->
  length pages < Z.to_nat (default 10000%Z (Routes.maxPages options)) ->
  iterateRoutes options st
    = ((concat (data <$> pages) ++ data last)%list, Ok (), st2)
  /\ collectRoutes options st
     = (Ok (concat (data <$> pages) ++ data last)%list, st2)
  /\ length (requests st2) = length (requests st) + length pages + 1.
Proof.
  intros Hfollows Hlast Hnext Hmax.
  assert (Hit : iterateRoutes options st
                = ((concat (data <$> pages) ++ data last)%list, Ok (), st2)).
  { unfold iterateRoutes.
    replace (Z.to_nat (default 10000%Z (Routes.maxPages options)))
      with (length pages
            + S (Z.to_nat (default 10000%Z (Routes.maxPages options))
                 - length pages - 1)) by lia.
    rewrite (iterateRoutes_loop_follows _ _ _ _ _ _ _ _ Hfollows).
    cbn [iterateRoutes_loop]. by rewrite Hlast, Hnext. }
  split; [done|]. split.
  - unfold collectRoutes. by rewrite Hit.
  - apply fetchRoutesPage_ok_requests in Hlast as [requested ->].
    rewrite length_app, (follows_requests _ _ _ _ _ _ Hfollows). simpl. lia.
Qed.

(** X9.  When fetching a page fails, [iterateRoutes] has yielded the
    entries of the pages before it and ends with the error of the fetch;
    [collectRoutes] returns that error and none of the entries. *)
Theorem iterateRoutes_failed_page options st pages cursor st1 e st2 :
  follows options None st pages cursor st1 ->
  fetchRoutesPage (with_url options cursor) st1 = (Throw e, st2) ->
  length pages < Z.to_nat (default 10000%Z (Routes.maxPages options)) ->
  iterateRoutes options st = (concat (data <$> pages), Throw e, st2)
  /\ collectRoutes options st = (Throw e, st2).
Proof.
  intros Hfollows Hfail Hmax.
  assert (Hit : iterateRoutes options st
                = (concat (data <$> pages), Throw e, st2)).
  { unfold iterateRoutes.
    replace (Z.to_nat (default 10000%Z (Routes.maxPages options)))
      with (length pages
            + S (Z.to_nat (default 10000%Z (Routes.maxPages options))
                 - length pages - 1)) by lia.
    rewrite (iterateRoutes_loop_follows _ _ _ _ _ _ _ _ Hfollows).
    cbn [iterateRoutes_loop]. by rewrite Hfail, app_nil_r. }
  split; [done|]. unfold collectRoutes. by rewrite Hit.
Qed.

(** X10.  For every [maxPages]: when the feed delivers that many pages and
    each names a next page, [iterateRoutes] yields their entries and throws
    the overrun error that carries [maxPages]; [collectRoutes] throws it
    too; no further page is requested. *)
Theorem iterateRoutes_overrun options st pages cursor st' :
  let limit := default 10000%Z (Routes.maxPages options) in
  follows options None st pages cursor st' ->
  length pages = Z.to_nat limit ->
  iterateRoutes options st
    = (concat (data <$> pages), Throw (PaginationOverrunError limit), st')
  /\ collectRoutes options st = (Throw (PaginationOverrunError limit), st')
  /\ length (requests st') = length (requests st) + Z.to_nat limit.
Proof.
  intros limit Hfollows Hlen.
  assert (Hit : iterateRoutes options st
                = (concat (data <$> pages),
                   Throw (PaginationOverrunError limit), st')).
  { unfold iterateRoutes. fold limit. rewrite <- Hlen.
    rewrite <- (Nat.add_0_r (length pages)) at 1.
    rewrite (iterateRoutes_loop_follows _ _ _ _ _ _ _ _ Hfollows).
    simpl. by rewrite app_nil_r. }
  split; [done|]. split.
  - unfold collectRoutes. by rewrite Hit.
  - rewrite (follows_requests _ _ _ _ _ _ Hfollows). lia.
Qed.

End WithPlatform.

(** The first page of the feed of three pages. *)
Lemma page_entries_valid_witness :
  exists page st',
    @fetchRoutesPage (fixed_base Feeds.base) SimpleUrl.api Feeds.three_pages
      Feeds.options (Feeds.start Feeds.three_pages tt) = (Ok page, st')
    /\ forall item, item ∈ data page -> startsWith (path item) "/" = true.
Proof.
  eexists _, _. split; [reflexivity|]. intros item Hitem.
  eapply (@page_entries_valid (fixed_base Feeds.base) SimpleUrl.api
            Feeds.three_pages Feeds.options
            (Feeds.start Feeds.three_pages tt)); [reflexivity|exact Hitem].
Defined.

(** The third page of the feed of three pages, whose [next] is null. *)
Lemma page_next_not_blank_witness :
  exists page st',
    @fetchRoutesPage (fixed_base Feeds.base) SimpleUrl.api Feeds.three_pages
      (with_url Feeds.options (Some "/jsonapi/routes?page=3"))
      (Feeds.start Feeds.three_pages tt) = (Ok page, st')
    /\ exists res doc,
         @answered (fixed_base Feeds.base) SimpleUrl.api Feeds.three_pages
           (with_url Feeds.options (Some "/jsonapi/routes?page=3"))
           (Feeds.start Feeds.three_pages tt) res st'
         /\ ok res = true
         /\ json res = Ok doc
         /\ links_next page
            = match Js.get_opt (Js.get doc "links") "next" with
              | JStr next => if blank next then None else Some next
              | _ => None
              end
         /\ (forall next,
               links_next page = Some next ->
               blank next = false /\ next <> "").
Proof.
  eexists _, _. split; [reflexivity|].
  exact (@page_next_not_blank (fixed_base Feeds.base) SimpleUrl.api
           Feeds.three_pages
           (with_url Feeds.options (Some "/jsonapi/routes?page=3"))
           (Feeds.start Feeds.three_pages tt) _ _ eq_refl).
Defined.

Lemma fetchRoutesPage_one_request_witness :
  exists page st',
    @fetchRoutesPage (fixed_base Feeds.base) SimpleUrl.api Feeds.three_pages
      Feeds.options (Feeds.start Feeds.three_pages tt) = (Ok page, st')
    /\ exists requested, requests st' = [requested].
Proof.
  eexists _, _. split; [reflexivity|].
  edestruct (@fetchRoutesPage_one_request (fixed_base Feeds.base)
               SimpleUrl.api Feeds.three_pages Feeds.options
               (Feeds.start Feeds.three_pages tt)) as [_ Hone];
    [reflexivity|].
  apply (Hone _ eq_refl).
Defined.

(** The second page of the broken feed, and a body that does not parse. *)
Lemma fetchRoutesPage_failed_response_witness :
  fst (@fetchRoutesPage (fixed_base Feeds.base) SimpleUrl.api
         MoreFeeds.broken_second MoreFeeds.options_page2
         (Feeds.start MoreFeeds.broken_second tt))
    = Throw (FeedRequestError 500 "Internal Server Error")
  /\ fst (@fetchRoutesPage (fixed_base Feeds.base) SimpleUrl.api
            MoreFeeds.bad_json Feeds.options
            (Feeds.start MoreFeeds.bad_json tt))
     = Throw (ExternalError "Unexpected token < in JSON").
Proof.
  split.
  - destruct (@fetchRoutesPage_failed_response (fixed_base Feeds.base)
                SimpleUrl.api MoreFeeds.broken_second MoreFeeds.options_page2
                (Feeds.start MoreFeeds.broken_second tt)
                MoreFeeds.server_error
                (Feeds.state MoreFeeds.broken_second tt
                   ["https://cms.example.com/jsonapi/routes?page=2"]))
      as [Hfailed _].
    + eexists _, _. repeat split; reflexivity.
    + by rewrite (Hfailed eq_refl).
  - edestruct (@fetchRoutesPage_failed_response (fixed_base Feeds.base)
                SimpleUrl.api MoreFeeds.bad_json Feeds.options
                (Feeds.start MoreFeeds.bad_json tt))
      as [_ Hjson].
    + eexists _, _. repeat split; reflexivity.
    + by rewrite (Hjson _ eq_refl eq_refl).
Defined.

Lemma requested_url_same_origin_witness :
  exists url : SimpleUrl.t,
    SimpleUrl.origin url = "https://cms.example.com"
    /\ SimpleUrl.scheme url = "https:"
    /\ SimpleUrl.href url = "https://cms.example.com/jsonapi/routes?page=2".
Proof.
  pose proof (fun page st' =>
    @requested_url_same_origin (fixed_base Feeds.base) SimpleUrl.api
      Feeds.three_pages Feeds.options
      (Feeds.start Feeds.three_pages tt) page st'
      "https://cms.example.com/jsonapi/routes?page=2") as Hguard.
  edestruct Hguard
    as (base & baseUrl & url & Hbase & HbaseUrl & Hurl & Horigin & _ & _);
    [done|reflexivity|].
  exists url. injection Hbase as <-. injection HbaseUrl as <-.
  injection Hurl as <-. split; [exact Horigin|]. split; reflexivity.
Defined.

(** A page whose body has five items, one of which is well formed. *)
Lemma malformed_items_never_abort_witness :
  exists page st',
    @fetchRoutesPage (fixed_base Feeds.base) SimpleUrl.api MoreFeeds.mixed
      Feeds.options (Feeds.start MoreFeeds.mixed tt) = (Ok page, st')
    /\ data page = [{| path := "/blog"; kind := view; jsonapi_url := None;
                       data_url := Some "/jsonapi/views/blog/page_1" |}].
Proof.
  pose proof (fun props =>
    @malformed_items_never_abort (fixed_base Feeds.base)
      SimpleUrl.api MoreFeeds.mixed Feeds.options
      (Feeds.start MoreFeeds.mixed tt)
      (Feeds.success (Feeds.body MoreFeeds.mixed_items JNull))
      (Feeds.state MoreFeeds.mixed tt [Feeds.first_page_url])
      props MoreFeeds.mixed_items) as Hitems.
  edestruct Hitems as (page & Hpage & Hdata & _).
  - eexists _, _. repeat split; reflexivity.
  - reflexivity.
  - reflexivity.
  - reflexivity.
  - eexists _, _. split; [exact Hpage|exact Hdata].
Defined.

(** The feed of three pages read with the default limit, and with a limit
    of zero. *)
Lemma iterateRoutes_request_bound_witness :
  (forall items outcome st',
     @iterateRoutes (fixed_base Feeds.base) SimpleUrl.api Feeds.three_pages
       Feeds.options (Feeds.start Feeds.three_pages tt)
     = (items, outcome, st') ->
     length (requests st') <= Z.to_nat 10000)
  /\ @iterateRoutes (fixed_base Feeds.base) SimpleUrl.api Feeds.three_pages
       MoreFeeds.options_max0 (Feeds.start Feeds.three_pages tt)
     = ([], Throw (PaginationOverrunError 0), Feeds.start Feeds.three_pages tt).
Proof.
  split.
  - intros items outcome st' Hrun.
    apply (@iterateRoutes_request_bound (fixed_base Feeds.base) SimpleUrl.api
             Feeds.three_pages Feeds.options
             (Feeds.start Feeds.three_pages tt) _ _ _ Hrun).
  - destruct (@iterateRoutes (fixed_base Feeds.base) SimpleUrl.api
                Feeds.three_pages MoreFeeds.options_max0
                (Feeds.start Feeds.three_pages tt))
      as [[items outcome] st'] eqn:Hrun.
    destruct (@iterateRoutes_request_bound (fixed_base Feeds.base)
                SimpleUrl.api Feeds.three_pages MoreFeeds.options_max0
                (Feeds.start Feeds.three_pages tt) _ _ _ Hrun)
      as [_ Hzero].
    destruct Hzero as (-> & -> & ->); [done|reflexivity].
Defined.

Lemma iterateRoutes_complete_witness :
  exists items st',
    @collectRoutes (fixed_base Feeds.base) SimpleUrl.api Feeds.three_pages
      Feeds.options (Feeds.start Feeds.three_pages tt) = (Ok items, st')
    /\ length (requests st') = 3.
Proof.
  edestruct (@iterateRoutes_complete (fixed_base Feeds.base) SimpleUrl.api
               Feeds.three_pages Feeds.options
               (Feeds.start Feeds.three_pages tt))
    as (_ & Hcollect & Hrequests).
  - eapply follows_cons; [reflexivity|reflexivity|done|].
    eapply follows_cons; [reflexivity|reflexivity|done|].
    apply follows_nil.
  - reflexivity.
  - reflexivity.
  - simpl. lia.
  - eexists _, _. split; [exact Hcollect|exact Hrequests].
Defined.

Lemma iterateRoutes_failed_page_witness :
  exists st',
    @collectRoutes (fixed_base Feeds.base) SimpleUrl.api
      MoreFeeds.broken_second Feeds.options
      (Feeds.start MoreFeeds.broken_second tt)
    = (Throw (FeedRequestError 500 "Internal Server Error"), st').
Proof.
  edestruct (@iterateRoutes_failed_page (fixed_base Feeds.base) SimpleUrl.api
               MoreFeeds.broken_second Feeds.options
               (Feeds.start MoreFeeds.broken_second tt))
    as (_ & Hcollect).
  - eapply follows_cons; [reflexivity|reflexivity|done|]. apply follows_nil.
  - reflexivity.
  - simpl. lia.
  - eexists. exact Hcollect.
Defined.

Lemma iterateRoutes_overrun_witness :
  exists items st',
    @iterateRoutes (fixed_base Feeds.base) SimpleUrl.api Feeds.endless
      Feeds.options_max3 (Feeds.start Feeds.endless tt)
    = (items, Throw (PaginationOverrunError 3), st')
    /\ length items = 3 /\ length (requests st') = 3.
Proof.
  edestruct (@iterateRoutes_overrun (fixed_base Feeds.base) SimpleUrl.api
               Feeds.endless Feeds.options_max3
               (Feeds.start Feeds.endless tt))
    as (Hit & _ & Hrequests).
  - eapply follows_cons; [reflexivity|reflexivity|done|].
    eapply follows_cons; [reflexivity|reflexivity|done|].
    eapply follows_cons; [reflexivity|reflexivity|done|].
    apply follows_nil.
  - reflexivity.
  - eexists _, _. split; [exact Hit|]. split; [reflexivity|exact Hrequests].
Defined.

End RoutesFacts.

(** * Further properties of the media normalizer *)

Module MediaFacts.
Import JsString JsStringFacts Url Media MediaSpec.

(** X11.  [findIncluded] returns the first resource of the included list
    that has the type and the id asked for, and none when no resource has
    them or when there is no included list. *)
Theorem findIncluded_first (included : list JsonApiResource) (type id : string) :
  match findIncluded (Some included) type id with
  | Some r =>
      res_type r = type /\ res_id r = id
      /\ exists before after,
           included = (before ++ r :: after)%list
           /\ forall x, x ∈ before -> ~ (res_type x = type /\ res_id x = id)
  | None =>
      forall x, x ∈ included -> ~ (res_type x = type /\ res_id x = id)
  end
  /\ findIncluded None type id = None.
Proof.
  split; [|done]. simpl.
  induction included as [|x included IH]; simpl.
  - intros x Hx. by apply not_elem_of_nil in Hx.
  - destruct (String.eqb_spec (res_type x) type) as [Htype|Htype]; simpl.
    + destruct (String.eqb_spec (res_id x) id) as [Hid|Hid].
      * repeat split; [done|done|]. exists [], included. split; [done|].
        intros y Hy. by apply not_elem_of_nil in Hy.
      * destruct (List.find _ included) as [r|].
        -- destruct IH as (Ht & Hi & before & after & -> & Hbefore).
           repeat split; [done|done|]. exists (x :: before), after.
           split; [done|]. intros y [->|Hy]%elem_of_cons; [tauto|auto].
        -- intros y [->|Hy]%elem_of_cons; [tauto|auto].
    + destruct (List.find _ included) as [r|].
      * destruct IH as (Ht & Hi & before & after & -> & Hbefore).
        repeat split; [done|done|]. exists (x :: before), after.
        split; [done|]. intros y [->|Hy]%elem_of_cons; [tauto|auto].
      * intros y [->|Hy]%elem_of_cons; [tauto|auto].
Qed.

(** X12.  [findIncludedByRelationshipMultiple] treats a single reference
    as a list of one; it resolves the references one by one in their order
    and leaves out those that do not resolve, so the result of a list of
    references is the results of its parts one after the other and is never
    longer than the list; without data it is empty.  The single-valued
    lookup gives none for a list of references. *)
Theorem findIncludedByRelationshipMultiple_refs
    (included : option (list JsonApiResource)) :
  let many refs :=
    findIncludedByRelationshipMultiple included
      (Some {| rel_data := RelMany refs |}) in
  (forall ref,
     findIncludedByRelationshipMultiple included
       (Some {| rel_data := RelOne ref |})
     = option_list (findIncludedByRelationship included
                      (Some {| rel_data := RelOne ref |})))
  /\ (forall refs1 refs2,
        many (refs1 ++ refs2)%list = (many refs1 ++ many refs2)%list)
  /\ (forall refs, length (many refs) <= length refs)
  /\ (forall refs r,
        r ∈ many refs <->
        exists ref, ref ∈ refs
                    /\ findIncluded included (ref_type ref) (ref_id ref) = Some r)
  /\ findIncludedByRelationshipMultiple included None = []
  /\ findIncludedByRelationshipMultiple included
       (Some {| rel_data := RelNull |}) = []
  /\ (forall refs,
        findIncludedByRelationship included
          (Some {| rel_data := RelMany refs |}) = None).
Proof.
  intros many. unfold many, findIncludedByRelationshipMultiple,
    findIncludedByRelationship. simpl.
  split; [|split; [|split; [|split; [|done]]]].
  - intros ref. by destruct (findIncluded included _ _).
  - intros refs1 refs2. apply omap_app.
  - intros refs. apply RoutesFacts.length_omap_le.
  - intros refs r. apply list_elem_of_omap.
Qed.

(** X13.  [getRelationshipMetaString] returns a value exactly when the
    relationship holds a single reference whose inline metadata has under
    the key a string that is not blank; that string is the value. *)
Theorem getRelationshipMetaString_spec relationship key value :
  getRelationshipMetaString relationship key = Some value <->
  exists rel ref meta,
    relationship = Some rel
    /\ rel_data rel = RelOne ref
    /\ ref_meta ref = Some meta
    /\ meta !! key = Some (JStr value)
    /\ blank value = false.
Proof.
  unfold getRelationshipMetaString. split.
  - destruct relationship as [rel|]; [|done]. simpl.
    destruct (rel_data rel) as [|ref|] eqn:Hdata; try done.
    destruct (ref_meta ref) as [meta|] eqn:Hmeta; [|done]. simpl.
    unfold Js.prop. destruct (meta !! key) as [[| |?|?|v|?|?]|] eqn:Hkey;
      try done. simpl.
    destruct (blank v) eqn:Hblank; [done|]. intros [= <-].
    by exists rel, ref, meta.
  - intros (rel & ref & meta & -> & Hdata & Hmeta & Hkey & Hblank). simpl.
    rewrite Hdata, Hmeta. simpl. unfold Js.prop. rewrite Hkey. simpl.
    by rewrite Hblank.
Qed.

Section WithConfiguration.
Context `{Configuration}.

(** What every descriptor that [extractMedia] returns satisfies. *)
Lemma extractMedia_facts media included r :
  extractMedia (Some media) included = Ok r ->
  let bundle := remove_first (res_type media) "media--" in
  exists d,
    r = Some d
    /\ resource d = media
    /\ name d = Js.or (Js.prop_opt (attributes media) "name") (JStr "")
    /\ type d = (if String.eqb bundle "image" then Image
                 else if String.eqb bundle "video" then Video
                 else if String.eqb bundle "remote_video" then RemoteVideo
                 else if String.eqb bundle "file" || String.eqb bundle "document"
                      then File
                 else if String.eqb bundle "audio" then Audio
                 else Unknown)
    /\ (forall img, image d = Some img ->
          type d = Image /\ url d = Some (src img))
    /\ (is_Some (embedUrl d) -> type d = RemoteVideo /\ is_Some (url d))
    /\ (mimeType d <> JUndefined ->
          type d = Video \/ type d = File \/ type d = Audio)
    /\ (type d = Unknown -> url d = None).
Proof.
  intros Hmedia bundle. revert Hmedia. unfold extractMedia. fold bundle.
  destruct (String.eqb bundle "image").
  { destruct (findIncludedByRelationship _ _) as [file|].
    - destruct (extractImageFromFile (Some file)) as [[fileImage|]|]; simpl;
        try done; intros [= <-]; descriptor_members.
    - intros [= <-]. descriptor_members. }
  destruct (String.eqb bundle "video").
  { destruct (findIncludedByRelationship _ _) as [file|].
    - destruct (getFileUrl (Some file) None) as [u|]; simpl; [|done].
      intros [= <-]. descriptor_members.
    - intros [= <-]. descriptor_members. }
  destruct (String.eqb bundle "remote_video").
  { destruct (Js.truthy _).
    - destruct (Js.prop_opt _ _); try done. intros [= <-].
      descriptor_members.
    - intros [= <-]. descriptor_members. }
  destruct (String.eqb bundle "file" || String.eqb bundle "document").
  { destruct (findIncludedByRelationship _ _) as [file|].
    - destruct (getFileUrl (Some file) None) as [u|]; simpl; [|done].
      intros [= <-]. descriptor_members.
    - intros [= <-]. descriptor_members. }
  destruct (String.eqb bundle "audio").
  { destruct (findIncludedByRelationship _ _) as [file|].
    - destruct (getFileUrl (Some file) None) as [u|]; simpl; [|done].
      intros [= <-]. descriptor_members.
    - intros [= <-]. descriptor_members. }
  intros [= <-]. descriptor_members.
Qed.

(** X14.  The kind of a descriptor is decided by the type of the resource
    with its first [media--] removed: [image], [video], [remote_video],
    [file] or [document] (both give the kind file) and [audio] give their
    kinds, anything else the kind unknown.  The descriptor refers back to
    the resource it was made from and carries its name, or the empty
    string. *)
Theorem extractMedia_kind media included d :
  extractMedia (Some media) included = Ok (Some d) ->
  let bundle := remove_first (res_type media) "media--" in
  resource d = media
  /\ name d = Js.or (Js.prop_opt (attributes media) "name") (JStr "")
  /\ type d = (if String.eqb bundle "image" then Image
               else if String.eqb bundle "video" then Video
               else if String.eqb bundle "remote_video" then RemoteVideo
               else if String.eqb bundle "file" || String.eqb bundle "document"
                    then File
               else if String.eqb bundle "audio" then Audio
               else Unknown).
Proof.
  intros (d' & [= <-] & Hresource & Hname & Hkind & _)%extractMedia_facts.
  done.
Qed.

(** X15.  The extra members of a descriptor go with its kind: image data
    only on an image, whose URL is then the source of the image; an embed
    URL only on a remote video that has a URL; a MIME type only on a video,
    a file or an audio; and a descriptor of kind unknown has no URL. *)
Theorem extractMedia_members media included d :
  extractMedia (Some media) included = Ok (Some d) ->
  (forall img, image d = Some img -> type d = Image /\ url d = Some (src img))
  /\ (is_Some (embedUrl d) -> type d = RemoteVideo /\ is_Some (url d))
  /\ (mimeType d <> JUndefined ->
        type d = Video \/ type d = File \/ type d = Audio)
  /\ (type d = Unknown -> url d = None).
Proof.
  intros (d' & [= <-] & _ & _ & _ & Hmembers)%extractMedia_facts.
  exact Hmembers.
Qed.

(** X16.  A video or an audio whose file relationship resolves gets the
    URL of the file and the MIME type of the file, or [video/mp4] for a
    video and [audio/mpeg] for an audio when the file declares none: the
    MIME type of such a descriptor is never missing. *)
Theorem extractMedia_mime_default media included file u :
  getFileUrl (Some file) None = Ok u ->
  let bundle := remove_first (res_type media) "media--" in
  let filemime := Js.prop_opt (attributes file) "filemime" in
  (bundle = "video" ->
   findIncludedByRelationship included
     (relationships media ≫= (.!! "field_media_video_file")) = Some file ->
   exists d,
     extractMedia (Some media) included = Ok (Some d)
     /\ type d = Video /\ url d = u
     /\ mimeType d = (if Js.truthy filemime then filemime else JStr "video/mp4")
     /\ Js.truthy (mimeType d) = true)
  /\ (bundle = "audio" ->
      findIncludedByRelationship included
        (relationships media ≫= (.!! "field_media_audio_file")) = Some file ->
      exists d,
        extractMedia (Some media) included = Ok (Some d)
        /\ type d = Audio /\ url d = u
        /\ mimeType d = (if Js.truthy filemime then filemime
                         else JStr "audio/mpeg")
        /\ Js.truthy (mimeType d) = true).
Proof.
  intros Hurl bundle filemime. split; intros Hbundle Hfile;
    unfold extractMedia; fold bundle; rewrite Hbundle; simpl;
    rewrite Hfile, Hurl; simpl; eexists; (split; [reflexivity|]); simpl;
    fold filemime; unfold Js.or;
    destruct (Js.truthy filemime) eqn:Hmime; done.
Qed.

(** X17.  For a file or a document, the [field_media_document]
    relationship is only looked at when there is no [field_media_file]
    relationship: a [field_media_file] that does not resolve gives a
    descriptor without URL whatever [field_media_document] holds, and
    without [field_media_file] the URL and the MIME type are those of the
    file that [field_media_document] resolves to, the MIME type without a
    default. *)
Theorem extractMedia_file_relationship media included :
  let bundle := remove_first (res_type media) "media--" in
  bundle = "file" \/ bundle = "document" ->
  (forall relationship,
     relationships media ≫= (.!! "field_media_file") = Some relationship ->
     findIncludedByRelationship included (Some relationship) = None ->
     extractMedia (Some media) included = Ok (Some (bare media File)))
  /\ (forall file u,
        relationships media ≫= (.!! "field_media_file") = None ->
        findIncludedByRelationship included
          (relationships media ≫= (.!! "field_media_document")) = Some file ->
        getFileUrl (Some file) None = Ok u ->
        exists d,
          extractMedia (Some media) included = Ok (Some d)
          /\ type d = File /\ url d = u
          /\ mimeType d = Js.prop_opt (attributes file) "filemime").
Proof.
  intros bundle Hbundle.
  assert (Hkind : String.eqb bundle "image" = false
                  /\ String.eqb bundle "video" = false
                  /\ String.eqb bundle "remote_video" = false
                  /\ String.eqb bundle "file" || String.eqb bundle "document"
                     = true).
  { by destruct Hbundle as [-> | ->]. }
  destruct Hkind as (Hi & Hv & Hr & Hf).
  split.
  - intros relationship Hrel Hnone. unfold extractMedia. fold bundle.
    by rewrite Hi, Hv, Hr, Hf, Hrel, Hnone.
  - intros file u Hrel Hfile Hurl. unfold extractMedia. fold bundle.
    rewrite Hi, Hv, Hr, Hf, Hrel, Hfile, Hurl. simpl. by eexists.
Qed.

#[local] Arguments extractMedia : simpl never.

(** [mapM] over results: every element went well, in order. *)
Lemma mapM_Ok {A B} (f : A -> result B) (l : list A) (k : list B) :
  mapM f l = Ok k -> Forall2 (fun x y => f x = Ok y) l k.
Proof.
  revert k. induction l as [|x l IH]; intros k; simpl.
  - intros [= <-]. constructor.
  - destruct (f x) as [y|] eqn:Hx; simpl; [|done].
    destruct (mapM f l) as [k'|]; simpl; [|done].
    intros [= <-]. constructor; auto.
Qed.

(** X18.  When [extractMediaField] returns, it returns one descriptor for
    each resource that the relationship resolves to, in the order of the
    references: none is dropped.  Each is the descriptor that
    [extractMedia] makes of its resource.  Without the relationship the
    result is empty. *)
Theorem extractMediaField_resources entity fieldName included ds :
  extractMediaField entity fieldName included = Ok ds ->
  resource <$> ds
    = match relationships entity ≫= (.!! fieldName) with
      | Some relationship =>
          findIncludedByRelationshipMultiple included (Some relationship)
      | None => []
      end
  /\ Forall (fun d => extractMedia (Some (resource d)) included = Ok (Some d))
            ds.
Proof.
  unfold extractMediaField.
  destruct (relationships entity ≫= _) as [relationship|];
    [|by intros [= <-]].
  generalize (findIncludedByRelationshipMultiple included (Some relationship)).
  intros resources.
  destruct (mapM _ resources) as [items|] eqn:Hitems; simpl; [|done].
  intros [= <-]. apply mapM_Ok in Hitems.
  induction Hitems as [|media item resources items Hmedia _ [IH1 IH2]];
    [done|].
  pose proof Hmedia as (d & -> & Hresource & _)%extractMedia_facts.
  change (omap id (Some d :: items)) with (d :: omap id items).
  split.
  - by rewrite fmap_cons, IH1, Hresource.
  - constructor; [by rewrite Hresource|done].
Qed.

Lemma extractPrimaryImage_loop_sound fields entity included img :
  extractPrimaryImage_loop fields entity included = Ok (Some img) ->
  exists fieldName ds d,
    fieldName ∈ fields
    /\ extractMediaField entity fieldName included = Ok ds
    /\ d ∈ ds /\ type d = Image /\ image d = Some img.
Proof.
  induction fields as [|fieldName fields IH]; simpl; [done|].
  destruct (extractMediaField entity fieldName included) as [ds|] eqn:Hds;
    simpl; [|done].
  destruct (List.find is_image ds) as [d|] eqn:Hfind; simpl.
  - destruct (image d) as [found|] eqn:Himage.
    + intros [= <-]. apply List.find_some in Hfind as [Hin Hkind].
      exists fieldName, ds, d. repeat split; try done.
      * apply elem_of_cons. by left.
      * by apply list_elem_of_In.
      * unfold is_image in Hkind. by destruct (type d).
    + intros (f & ds' & d' & Hf & Hrest)%IH. exists f, ds', d'.
      split; [|done]. apply elem_of_cons. by right.
  - intros (f & ds' & d' & Hf & Hrest)%IH. exists f, ds', d'.
    split; [|done]. apply elem_of_cons. by right.
Qed.

Lemma find_first_image (ds : list DrupalMediaData) (d : DrupalMediaData) :
  List.find is_image ds = Some d <-> PrimaryImage.first_image ds d.
Proof.
  unfold PrimaryImage.first_image. split.
  - induction ds as [|x ds IH]; simpl; [done|].
    destruct (is_image x) eqn:Hx.
    + intros [= <-]. exists [], ds. repeat split; [constructor|].
      unfold is_image in Hx. by destruct (type x).
    + intros (before & after & -> & Hbefore & Hd)%IH.
      exists (x :: before), after. repeat split; [|done].
      constructor; [|done]. intros Himage. unfold is_image in Hx.
      by rewrite Himage in Hx.
  - intros (before & after & -> & Hbefore & Hd).
    induction Hbefore as [|x before Hx _ IH]; simpl.
    + unfold is_image. by rewrite Hd.
    + unfold is_image at 1. by destruct (type x).
Qed.

(** A field that is passed over, as the loop sees it. *)
Lemma passed_over_find entity included fieldName :
  PrimaryImage.passed_over entity included fieldName <->
  exists ds,
    extractMediaField entity fieldName included = Ok ds
    /\ List.find is_image ds ≫= image = None.
Proof.
  unfold PrimaryImage.passed_over. split; intros (ds & Hds & Hnone);
    exists ds; (split; [done|]).
  - destruct (List.find is_image ds) as [d|] eqn:Hfind; [|done]. simpl.
    by apply Hnone, find_first_image.
  - intros d Hd%find_first_image. by rewrite Hd in Hnone.
Qed.

Lemma extractPrimaryImage_loop_skip before rest entity included :
  Forall (PrimaryImage.passed_over entity included) before ->
  extractPrimaryImage_loop (before ++ rest) entity included
  = extractPrimaryImage_loop rest entity included.
Proof.
  induction 1 as [|fieldName before Hfield _ IH]; [done|].
  apply passed_over_find in Hfield as (ds & Hds & Hnone).
  rewrite <- app_comm_cons. cbn [extractPrimaryImage_loop].
  rewrite Hds. cbn [mbind result_bind]. by rewrite Hnone.
Qed.

(** X19.  [extractPrimaryImage] tries the five conventional fields in
    their order and returns the first hit: when the fields before a field
    are passed over and the first descriptor of kind image of that field
    has image data, that image data is the result, whatever the later
    fields hold.  A field is passed over when [extractMediaField] returns
    for it and its first descriptor of kind image, if it has one, has no
    image data, whatever follows in the field.  When all five fields are
    passed over the result is null, and when [extractMediaField] throws
    for a field after fields that are passed over, [extractPrimaryImage]
    throws the same.  An image that is returned is the image data of a
    descriptor of kind image of one of the five fields, and an entity
    without relationships has no primary image. *)
Theorem extractPrimaryImage_first entity included :
  (forall before fieldName after ds d img,
     PrimaryImage.commonFields = (before ++ fieldName :: after)%list ->
     Forall (PrimaryImage.passed_over entity included) before ->
     extractMediaField entity fieldName included = Ok ds ->
     PrimaryImage.first_image ds d ->
     image d = Some img ->
     extractPrimaryImage entity included = Ok (Some img))
  /\ (Forall (PrimaryImage.passed_over entity included)
             PrimaryImage.commonFields ->
      extractPrimaryImage entity included = Ok None)
  /\ (forall before fieldName after e,
        PrimaryImage.commonFields = (before ++ fieldName :: after)%list ->
        Forall (PrimaryImage.passed_over entity included) before ->
        extractMediaField entity fieldName included = Throw e ->
        extractPrimaryImage entity included = Throw e)
  /\ (forall img,
        extractPrimaryImage entity included = Ok (Some img) ->
        exists fieldName ds d,
          fieldName ∈ PrimaryImage.commonFields
          /\ extractMediaField entity fieldName included = Ok ds
          /\ d ∈ ds /\ type d = Image /\ image d = Some img)
  /\ (relationships entity = None ->
      extractPrimaryImage entity included = Ok None).
Proof.
  assert (Hloop : extractPrimaryImage entity included
                  = extractPrimaryImage_loop PrimaryImage.commonFields
                      entity included) by reflexivity.
  split; [|split; [|split; [|split]]].
  - intros before fieldName after ds d img Hfields Hbefore Hds Hd Himage.
    rewrite Hloop, Hfields, extractPrimaryImage_loop_skip by done.
    cbn [extractPrimaryImage_loop]. rewrite Hds. cbn [mbind result_bind].
    apply find_first_image in Hd. rewrite Hd. simpl. by rewrite Himage.
  - intros Hall. rewrite Hloop.
    rewrite <- (app_nil_r PrimaryImage.commonFields).
    by rewrite extractPrimaryImage_loop_skip.
  - intros before fieldName after e Hfields Hbefore Hthrow.
    rewrite Hloop, Hfields, extractPrimaryImage_loop_skip by done.
    cbn [extractPrimaryImage_loop]. by rewrite Hthrow.
  - intros img. apply extractPrimaryImage_loop_sound.
  - intros Hnone. unfold extractPrimaryImage, extractPrimaryImage_loop,
      extractMediaField. by rewrite Hnone.
Qed.

End WithConfiguration.

(** The examples run at the base [https://cms.example.com]. *)
Lemma extractMedia_kind_witness :
  let cfg := fixed_base "https://cms.example.com" in
  exists d,
    @extractMedia cfg (Some MoreDocuments.handbook) (Some [MoreDocuments.pdf])
      = Ok (Some d)
    /\ resource d = MoreDocuments.handbook
    /\ name d = JStr "Handbook"
    /\ type d = File.
Proof.
  intros cfg. eexists. split; [reflexivity|].
  exact (@extractMedia_kind cfg MoreDocuments.handbook
           (Some [MoreDocuments.pdf]) _ eq_refl).
Defined.

Lemma extractMedia_members_witness :
  let cfg := fixed_base "https://cms.example.com" in
  exists d,
    @extractMedia cfg (Some Documents.talk) (Some []) = Ok (Some d)
    /\ embedUrl d = Some "https://www.youtube.com/embed/abc_-1"
    /\ type d = RemoteVideo /\ is_Some (url d).
Proof.
  intros cfg. eexists. split; [reflexivity|].
  destruct (@extractMedia_members cfg Documents.talk (Some []) _ eq_refl)
    as (_ & Hembed & _).
  split; [reflexivity|]. apply Hembed. by eexists.
Defined.

(** The example: a video whose file declares no MIME type. *)
Lemma extractMedia_mime_default_witness :
  let cfg := fixed_base "https://cms.example.com" in
  exists d,
    @extractMedia cfg (Some MoreDocuments.clip) (Some [MoreDocuments.mp4])
      = Ok (Some d)
    /\ url d = Some "https://cms.example.com/sites/default/files/v.mp4"
    /\ mimeType d = JStr "video/mp4".
Proof.
  intros cfg.
  destruct (@extractMedia_mime_default cfg MoreDocuments.clip
              (Some [MoreDocuments.mp4]) MoreDocuments.mp4
              (Some "https://cms.example.com/sites/default/files/v.mp4")
              eq_refl) as [Hvideo _].
  destruct Hvideo as (d & Hd & _ & Hurl & Hmime & _);
    [reflexivity|reflexivity|].
  exists d. split; [exact Hd|]. split; [exact Hurl|exact Hmime].
Defined.

(** The examples: the handbook, with and without a [field_media_file]
    that does not resolve. *)
Lemma extractMedia_file_relationship_witness :
  let cfg := fixed_base "https://cms.example.com" in
  @extractMedia cfg (Some MoreDocuments.handbook_dangling)
    (Some [MoreDocuments.pdf])
  = Ok (Some (bare MoreDocuments.handbook_dangling File))
  /\ exists d,
       @extractMedia cfg (Some MoreDocuments.handbook)
         (Some [MoreDocuments.pdf]) = Ok (Some d)
       /\ url d = Some "https://cms.example.com/sites/default/files/h.pdf"
       /\ mimeType d = JStr "application/pdf".
Proof.
  intros cfg. split.
  - destruct (@extractMedia_file_relationship cfg
                MoreDocuments.handbook_dangling (Some [MoreDocuments.pdf]))
      as [Hfile _]; [by right|].
    apply (Hfile MoreDocuments.missing_ref); reflexivity.
  - destruct (@extractMedia_file_relationship cfg MoreDocuments.handbook
                (Some [MoreDocuments.pdf])) as [_ Hdocument]; [by right|].
    destruct (Hdocument MoreDocuments.pdf
                (Some "https://cms.example.com/sites/default/files/h.pdf"))
      as (d & Hd & _ & Hurl & Hmime); [reflexivity|reflexivity|reflexivity|].
    exists d. split; [exact Hd|]. split; [exact Hurl|exact Hmime].
Defined.

(** The example: the page names two media, of which the logo is
    included. *)
Lemma extractMediaField_resources_witness :
  let cfg := fixed_base "https://cms.example.com" in
  exists ds,
    @extractMediaField cfg MoreDocuments.page "field_image"
      (Some [Documents.png; Documents.logo]) = Ok ds
    /\ resource <$> ds = [Documents.logo].
Proof.
  intros cfg. eexists. split; [reflexivity|].
  apply (@extractMediaField_resources cfg MoreDocuments.page "field_image"
           (Some [Documents.png; Documents.logo]) _ eq_refl).
Defined.

(** The example: in [field_image] of the teaser the orphan comes first, so
    the field is passed over although the logo follows in it; the next
    two fields are missing; [field_thumbnail] gives the logo. *)
Lemma extractPrimaryImage_first_witness :
  let cfg := fixed_base "https://cms.example.com" in
  @extractPrimaryImage cfg MoreDocuments.teaser
    (Some [Documents.png; MoreDocuments.orphan; Documents.logo])
  = Ok (Some MoreDocuments.logo_image).
Proof.
  intros cfg.
  destruct (@extractPrimaryImage_first cfg MoreDocuments.teaser
              (Some [Documents.png; MoreDocuments.orphan; Documents.logo]))
    as [Hhit _].
  eapply (Hhit ["field_image"; "field_media_image"; "field_media"]
               "field_thumbnail" ["field_hero_image"]).
  - reflexivity.
  - repeat constructor; apply passed_over_find; eexists;
      (split; [reflexivity|reflexivity]).
  - reflexivity.
  - apply find_first_image. reflexivity.
  - reflexivity.
Defined.

End MediaFacts.

(** * Properties of the embed URLs of remote videos *)

Module VideoFacts.
Import JsString JsStringFacts Media Text.

Lemma str_app_nil_l (s : string) : "" +:+ s = s.
Proof. reflexivity. Qed.

Lemma str_app_nil_r (s : string) : s +:+ "" = s.
Proof. induction s as [|c s IH]; [done|]. by rewrite str_app_cons, IH. Qed.

Lemma take_while_split (cls : ascii -> bool) (s : string) :
  exists rest,
    s = take_while cls s +:+ rest
    /\ all_chars cls (take_while cls s) = true
    /\ stops cls rest = true.
Proof.
  induction s as [|c s (rest & Hs & Hall & Hstop)]; simpl.
  - by exists "".
  - destruct (cls c) eqn:Hc.
    + exists rest. rewrite str_app_cons, <- Hs. simpl. by rewrite Hc.
    + exists (String c s). simpl. by rewrite Hc.
Qed.

Lemma take_while_all (cls : ascii -> bool) (id after : string) :
  all_chars cls id = true ->
  stops cls after = true ->
  take_while cls (id +:+ after) = id.
Proof.
  intros Hall Hstop. induction id as [|c id IH].
  - rewrite str_app_nil_l. destruct after as [|d after]; [done|].
    simpl in *. by destruct (cls d).
  - rewrite str_app_cons. simpl in *. destruct (cls c); [|done].
    by rewrite IH.
Qed.

(** A literal followed by a greedy, non-empty run of a class. *)
Lemma match_literal_then_Some (lit : string) (cls : ascii -> bool)
    (s group : string) :
  match_literal_then lit cls s = Some group <->
  exists after,
    s = lit +:+ group +:+ after
    /\ group <> ""
    /\ all_chars cls group = true
    /\ stops cls after = true.
Proof.
  unfold match_literal_then. split.
  - destruct (startsWith s lit) eqn:Hlit; [|done].
    apply startsWith_true in Hlit as [t ->]. rewrite drop_app_length.
    destruct (take_while_split cls t) as (rest & Ht & Hall & Hstop).
    destruct (take_while cls t) as [|c g] eqn:Hg; [done|].
    intros [= <-]. exists rest. by rewrite <- Ht.
  - intros (after & -> & Hne & Hall & Hstop).
    rewrite startsWith_app, drop_app_length, take_while_all by done.
    by destruct group.
Qed.

Lemma search_Some (at_start : string -> option string) (s group : string) :
  search at_start s = Some group ->
  exists n, n <= String.length s /\ at_start (drop n s) = Some group.
Proof.
  induction s as [|c s IH]; simpl.
  - destruct (at_start "") eqn:Hat; [|done]. intros [= <-].
    exists 0. by split.
  - destruct (at_start (String c s)) eqn:Hat.
    + intros [= <-]. exists 0. split; [lia|done].
    + intros (n & Hn & Hfound)%IH. exists (S n). split; [lia|done].
Qed.

Lemma search_None (at_start : string -> option string) (s : string) :
  search at_start s = None -> forall n, at_start (drop n s) = None.
Proof.
  induction s as [|c s IH]; simpl.
  - destruct (at_start "") eqn:Hat; [done|]. intros _ n.
    by rewrite drop_empty.
  - destruct (at_start (String c s)) eqn:Hat; [done|].
    intros Hnone [|n]; [done|]. simpl. by apply IH.
Qed.

Lemma search_cons_None (at_start : string -> option string) (c : ascii)
    (s : string) :
  at_start (String c s) = None ->
  search at_start (String c s) = search at_start s.
Proof. intros Hnone. simpl. by rewrite Hnone. Qed.

Lemma search_here (at_start : string -> option string) (s group : string) :
  at_start s = Some group -> search at_start s = Some group.
Proof. intros Hat. destruct s; simpl; by rewrite Hat. Qed.

(** A match at some position makes the search find a match. *)
Lemma search_finds (at_start : string -> option string) (before s : string) :
  is_Some (at_start s) -> is_Some (search at_start (before +:+ s)).
Proof.
  intros Hat. destruct (search at_start (before +:+ s)) eqn:Hsearch;
    [by eexists|].
  apply search_None with (n := String.length before) in Hsearch.
  rewrite drop_app_length in Hsearch. rewrite Hsearch in Hat.
  by destruct Hat.
Qed.

Lemma startsWith_cons_neq (a c : ascii) (p s : string) :
  a <> c -> startsWith (String c s) (String a p) = false.
Proof.
  intros Hneq.
  change (startsWith (String c s) (String a p))
    with (Ascii.eqb a c && startsWith s p).
  by apply Ascii.eqb_neq in Hneq as ->.
Qed.

(** No expression of [getVideoEmbedUrl] matches inside a run of digits. *)
Lemma search_digits (s : string) :
  all_chars is_digit s = true ->
  search youtube_at s = None /\ search vimeo_at s = None.
Proof.
  induction s as [|c s IH]; [done|]. cbn [all_chars].
  intros [Hc Hs]%andb_true_iff. destruct (IH Hs) as [IHy IHv].
  assert (Hy : "y"%char <> c) by (intros <-; done).
  assert (Hv : "v"%char <> c) by (intros <-; done).
  rewrite !search_cons_None; [done| |].
  - unfold vimeo_at, match_literal_then. by rewrite startsWith_cons_neq.
  - unfold youtube_at, match_literal_then. by rewrite !startsWith_cons_neq.
Qed.

Lemma youtube_at_Some (s id : string) :
  youtube_at s = Some id ->
  exists lit after,
    lit ∈ youtube_forms
    /\ s = lit +:+ id +:+ after
    /\ id <> ""
    /\ all_chars is_id_char id = true
    /\ stops is_id_char after = true.
Proof.
  unfold youtube_at, youtube_forms.
  destruct (match_literal_then "youtube.com/watch?v=" _ s) as [g|] eqn:Hwatch.
  { intros [= ->]. apply match_literal_then_Some in Hwatch as (after & ?).
    eexists _, after. split; [|done]. apply elem_of_cons. by left. }
  destruct (match_literal_then "youtube.com/embed/" _ s) as [g|] eqn:Hembed.
  { intros [= ->]. apply match_literal_then_Some in Hembed as (after & ?).
    eexists _, after. split; [|done]. apply elem_of_cons. right.
    apply elem_of_cons. by left. }
  intros (after & ?)%match_literal_then_Some.
  eexists _, after. split; [|done]. apply elem_of_cons. right.
  apply elem_of_cons. right. apply elem_of_cons. by left.
Qed.

Lemma youtube_at_form (lit after : string) (c : ascii) :
  lit ∈ youtube_forms ->
  is_id_char c = true ->
  is_Some (youtube_at (lit +:+ String c after)).
Proof.
  intros Hlit Hc.
  destruct (take_while_split is_id_char (String c after))
    as (rest & Hsplit & Hall & Hstop).
  assert (Hfound : match_literal_then lit is_id_char (lit +:+ String c after)
                   = Some (take_while is_id_char (String c after))).
  { apply match_literal_then_Some. exists rest. rewrite <- Hsplit.
    repeat split; try done. simpl. by rewrite Hc. }
  unfold youtube_at.
  destruct (match_literal_then "youtube.com/watch?v=" _ _) eqn:Hwatch;
    [by eexists|].
  destruct (match_literal_then "youtube.com/embed/" _ _) eqn:Hembed;
    [by eexists|].
  unfold youtube_forms in Hlit.
  apply elem_of_cons in Hlit as [->|Hlit]; [congruence|].
  apply elem_of_cons in Hlit as [->|Hlit]; [congruence|].
  apply elem_of_cons in Hlit as [->|Hlit]; [by eexists|].
  by apply not_elem_of_nil in Hlit.
Qed.

(** X20.  An embed URL that [getVideoEmbedUrl] returns is made from an
    identifier that stands in the address: either
    [https://www.youtube.com/embed/] and the longest run of letters,
    digits, [_] and [-] that follows one of the three YouTube forms, or
    [https://player.vimeo.com/video/] and the longest run of digits that
    follows [vimeo.com/].  The identifier is never empty. *)
Theorem getVideoEmbedUrl_shape (url embed : string) :
  getVideoEmbedUrl url = Some embed ->
  exists before lit id after,
    url = before +:+ lit +:+ id +:+ after
    /\ id <> ""
    /\ ((lit ∈ youtube_forms
         /\ all_chars is_id_char id = true
         /\ stops is_id_char after = true
         /\ embed = "https://www.youtube.com/embed/" +:+ id)
        \/ (lit = "vimeo.com/"
            /\ all_chars is_digit id = true
            /\ stops is_digit after = true
            /\ embed = "https://player.vimeo.com/video/" +:+ id)).
Proof.
  unfold getVideoEmbedUrl.
  destruct (search youtube_at url) as [id|] eqn:Hyoutube.
  - intros [= <-]. apply search_Some in Hyoutube as (n & Hn & Hat).
    apply youtube_at_Some in Hat
      as (lit & after & Hlit & Hsplit & Hne & Hall & Hstop).
    exists (take n url), lit, id, after.
    rewrite <- Hsplit, take_drop. split; [done|]. split; [done|]. by left.
  - destruct (search vimeo_at url) as [id|] eqn:Hvimeo; [|done].
    intros [= <-]. apply search_Some in Hvimeo as (n & Hn & Hat).
    apply match_literal_then_Some in Hat as (after & Hsplit & Hne & Hall & Hstop).
    exists (take n url), "vimeo.com/", id, after.
    rewrite <- Hsplit, take_drop. split; [done|]. split; [done|]. by right.
Qed.

(** X21.  An address in which one of the three YouTube forms is followed
    by a letter, a digit, [_] or [-] gets a YouTube embed URL, wherever
    the form stands and whatever else the address holds; an address in
    which [vimeo.com/] is followed by a digit gets an embed URL. *)
Theorem getVideoEmbedUrl_recognises (before after : string) (c : ascii) :
  (forall lit,
     lit ∈ youtube_forms ->
     is_id_char c = true ->
     exists id,
       getVideoEmbedUrl (before +:+ lit +:+ String c after)
       = Some ("https://www.youtube.com/embed/" +:+ id))
  /\ (is_digit c = true ->
      is_Some (getVideoEmbedUrl (before +:+ "vimeo.com/" +:+ String c after))).
Proof.
  split.
  - intros lit Hlit Hc. unfold getVideoEmbedUrl.
    destruct (search_finds youtube_at before (lit +:+ String c after))
      as [id ->]; [by apply youtube_at_form|].
    by exists id.
  - intros Hc. unfold getVideoEmbedUrl.
    destruct (search youtube_at _); [by eexists|].
    destruct (search_finds vimeo_at before ("vimeo.com/" +:+ String c after))
      as [id ->]; [|by eexists].
    destruct (take_while_split is_digit (String c after))
      as (rest & Hsplit & Hall & Hstop).
    exists (take_while is_digit (String c after)).
    apply match_literal_then_Some. exists rest. rewrite <- Hsplit.
    repeat split; try done. simpl. by rewrite Hc.
Qed.

(** X22.  The three forms of the address of one YouTube video give the
    same embed URL, whatever follows the identifier, and that embed URL is
    its own embed URL. *)
Theorem getVideoEmbedUrl_canonical (id after : string) :
  id <> "" ->
  all_chars is_id_char id = true ->
  stops is_id_char after = true ->
  let embed := "https://www.youtube.com/embed/" +:+ id in
  getVideoEmbedUrl ("https://www.youtube.com/watch?v=" +:+ id +:+ after)
    = Some embed
  /\ getVideoEmbedUrl ("https://youtu.be/" +:+ id +:+ after) = Some embed
  /\ getVideoEmbedUrl (embed +:+ after) = Some embed
  /\ getVideoEmbedUrl embed = Some embed.
Proof.
  intros Hne Hall Hstop embed.
  assert (Hform : forall lit,
            match_literal_then lit is_id_char (lit +:+ id +:+ after) = Some id).
  { intros lit. apply match_literal_then_Some. by exists after. }
  assert (Hwatch : search youtube_at
                     ("https://www.youtube.com/watch?v=" +:+ id +:+ after)
                   = Some id).
  { rewrite !str_app_cons, str_app_nil_l.
    repeat (rewrite search_cons_None by reflexivity).
    apply search_here.
    change (youtube_at ("youtube.com/watch?v=" +:+ id +:+ after) = Some id).
    unfold youtube_at. by rewrite (Hform "youtube.com/watch?v="). }
  assert (Hshort : search youtube_at ("https://youtu.be/" +:+ id +:+ after)
                   = Some id).
  { rewrite !str_app_cons, str_app_nil_l.
    repeat (rewrite search_cons_None by reflexivity).
    apply search_here.
    change (youtube_at ("youtu.be/" +:+ id +:+ after) = Some id).
    unfold youtube_at.
    change (match_literal_then "youtube.com/watch?v=" is_id_char
              ("youtu.be/" +:+ id +:+ after)) with (@None string).
    change (match_literal_then "youtube.com/embed/" is_id_char
              ("youtu.be/" +:+ id +:+ after)) with (@None string).
    apply (Hform "youtu.be/"). }
  assert (Hembed : search youtube_at
                     ("https://www.youtube.com/embed/" +:+ id +:+ after)
                   = Some id).
  { rewrite !str_app_cons, str_app_nil_l.
    repeat (rewrite search_cons_None by reflexivity).
    apply search_here.
    change (youtube_at ("youtube.com/embed/" +:+ id +:+ after) = Some id).
    unfold youtube_at.
    change (match_literal_then "youtube.com/watch?v=" is_id_char
              ("youtube.com/embed/" +:+ id +:+ after)) with (@None string).
    by rewrite (Hform "youtube.com/embed/"). }
  unfold getVideoEmbedUrl, embed. rewrite str_app_assoc.
  rewrite Hwatch, Hshort, Hembed. repeat split.
  replace ("https://www.youtube.com/embed/" +:+ id)
    with ("https://www.youtube.com/embed/" +:+ id +:+ "")
    by (by rewrite str_app_nil_r).
  assert (Hself : search youtube_at
                    ("https://www.youtube.com/embed/" +:+ id +:+ "")
                  = Some id).
  { rewrite !str_app_cons, str_app_nil_l.
    repeat (rewrite search_cons_None by reflexivity).
    apply search_here.
    change (youtube_at ("youtube.com/embed/" +:+ id +:+ "") = Some id).
    unfold youtube_at.
    change (match_literal_then "youtube.com/watch?v=" is_id_char
              ("youtube.com/embed/" +:+ id +:+ "")) with (@None string).
    assert (Hlast : match_literal_then "youtube.com/embed/" is_id_char
                      ("youtube.com/embed/" +:+ id +:+ "") = Some id).
    { apply match_literal_then_Some. by exists "". }
    by rewrite Hlast. }
  by rewrite Hself, str_app_nil_r.
Qed.

(** X23.  A Vimeo address [https://vimeo.com/<digits>] gets the player URL
    of the video.  The player URL itself is not recognised: in it
    [vimeo.com/] is followed by [video/], not by a digit. *)
Theorem getVideoEmbedUrl_vimeo (digits : string) :
  digits <> "" ->
  all_chars is_digit digits = true ->
  getVideoEmbedUrl ("https://vimeo.com/" +:+ digits)
    = Some ("https://player.vimeo.com/video/" +:+ digits)
  /\ getVideoEmbedUrl ("https://player.vimeo.com/video/" +:+ digits) = None.
Proof.
  intros Hne Hall. destruct (search_digits digits Hall) as [Hyoutube Hvimeo].
  unfold getVideoEmbedUrl. split.
  - assert (Hy : search youtube_at ("https://vimeo.com/" +:+ digits) = None).
    { rewrite !str_app_cons, str_app_nil_l.
      by repeat (rewrite search_cons_None by reflexivity). }
    assert (Hv : search vimeo_at ("https://vimeo.com/" +:+ digits)
                 = Some digits).
    { rewrite !str_app_cons, str_app_nil_l.
      repeat (rewrite search_cons_None by reflexivity).
      apply search_here. apply match_literal_then_Some. exists "".
      by rewrite str_app_nil_r. }
    by rewrite Hy, Hv.
  - assert (Hy : search youtube_at ("https://player.vimeo.com/video/" +:+ digits)
                 = None).
    { rewrite !str_app_cons, str_app_nil_l.
      by repeat (rewrite search_cons_None by reflexivity). }
    assert (Hv : search vimeo_at ("https://player.vimeo.com/video/" +:+ digits)
                 = None).
    { rewrite !str_app_cons, str_app_nil_l.
      by repeat (rewrite search_cons_None by reflexivity). }
    by rewrite Hy, Hv.
Qed.

(** The examples. *)
Lemma getVideoEmbedUrl_shape_witness :
  exists before lit id after,
    "https://vimeo.com/76979871?share=copy" = before +:+ lit +:+ id +:+ after
    /\ id <> ""
    /\ ((lit ∈ Text.youtube_forms
         /\ Text.all_chars Media.is_id_char id = true
         /\ Text.stops Media.is_id_char after = true
         /\ "https://player.vimeo.com/video/76979871"
            = "https://www.youtube.com/embed/" +:+ id)
        \/ (lit = "vimeo.com/"
            /\ Text.all_chars Media.is_digit id = true
            /\ Text.stops Media.is_digit after = true
            /\ "https://player.vimeo.com/video/76979871"
               = "https://player.vimeo.com/video/" +:+ id)).
Proof.
  exact (VideoFacts.getVideoEmbedUrl_shape
           "https://vimeo.com/76979871?share=copy"
           "https://player.vimeo.com/video/76979871" eq_refl).
Defined.

(** The example: a YouTube address after a Vimeo address. *)
Lemma getVideoEmbedUrl_recognises_witness :
  exists id,
    Media.getVideoEmbedUrl
      ("https://vimeo.com/1 or https://" +:+ "youtu.be/" +:+ "abc")
    = Some ("https://www.youtube.com/embed/" +:+ id).
Proof.
  destruct (VideoFacts.getVideoEmbedUrl_recognises
              "https://vimeo.com/1 or https://" "bc" "a") as [Hyoutube _].
  apply (Hyoutube "youtu.be/"); [|reflexivity].
  apply elem_of_cons. right. apply elem_of_cons. right.
  apply elem_of_cons. by left.
Defined.

Lemma getVideoEmbedUrl_canonical_witness :
  Media.getVideoEmbedUrl "https://www.youtube.com/watch?v=abc_-1&t=10"
    = Some "https://www.youtube.com/embed/abc_-1"
  /\ Media.getVideoEmbedUrl "https://youtu.be/abc_-1&t=10"
     = Some "https://www.youtube.com/embed/abc_-1"
  /\ Media.getVideoEmbedUrl "https://www.youtube.com/embed/abc_-1"
     = Some "https://www.youtube.com/embed/abc_-1".
Proof.
  destruct (VideoFacts.getVideoEmbedUrl_canonical "abc_-1" "&t=10")
    as (Hwatch & Hshort & _ & Hembed); [done|reflexivity|reflexivity|].
  split; [exact Hwatch|]. split; [exact Hshort|exact Hembed].
Defined.

Lemma getVideoEmbedUrl_vimeo_witness :
  Media.getVideoEmbedUrl "https://vimeo.com/76979871"
    = Some "https://player.vimeo.com/video/76979871"
  /\ Media.getVideoEmbedUrl "https://player.vimeo.com/video/76979871" = None.
Proof.
  apply (VideoFacts.getVideoEmbedUrl_vimeo "76979871"); [done|reflexivity].
Defined.

End VideoFacts.

(** * Further properties of the embedded media references *)

Module EmbeddedFacts.
Import JsString JsStringFacts Media EmbeddedSpec Text.

Lemma get_Some_drop (s : string) (i : nat) (c : ascii) :
  String.get i s = Some c ->
  i < String.length s /\ drop i s = String c (drop (S i) s).
Proof.
  revert i. induction s as [|d s IH]; intros [|i]; simpl; try done.
  - intros [= ->]. split; [lia|done].
  - intros [Hi Hdrop]%IH. split; [lia|done].
Qed.

Lemma space_run_take (s : string) : trimStart (take (space_run s) s) = "".
Proof.
  induction s as [|c s IH]; [done|]. simpl.
  destruct (is_space c) eqn:Hc; [|done]. simpl. by rewrite Hc.
Qed.

Lemma indexOf_Some_at (s needle : string) (from i : nat) :
  indexOf s needle from = Some i ->
  i <= String.length s /\ startsWith (drop i s) needle = true.
Proof.
  unfold indexOf. intros (k & -> & Hk & Hat & _)%indexOf_go_Some.
  rewrite length_drop in Hk. rewrite drop_drop in Hat. split; [lia|done].
Qed.

(** The first occurrence of a code unit: the text before it has none. *)
Lemma indexOf_char_Some (s : string) (c : ascii) (k : nat) :
  indexOf s (String c "") 0 = Some k ->
  drop k s = String c (drop (S k) s)
  /\ indexOf (take k s) (String c "") 0 = None.
Proof.
  unfold indexOf. simpl Nat.min. change (drop 0 s) with s.
  intros (k' & -> & Hk & Hat & Hbefore)%indexOf_go_Some.
  rewrite Nat.add_0_l.
  apply startsWith_true in Hat as [t Ht].
  change (String c "" +:+ t) with (String c t) in Ht.
  split.
  - replace (S k') with (k' + 1) by lia.
    by rewrite <- drop_drop, Ht.
  - change (drop 0 (take k' s)) with (take k' s).
    apply indexOf_None_go. intros j Hj. rewrite length_take in Hj by done.
    destruct (decide (j = k')) as [->|Hneq].
    + rewrite drop_ge; [done|]. by rewrite length_take.
    + rewrite <- (Hbefore j) by lia.
      rewrite <- (take_drop k' s) at 2.
      rewrite drop_app by (rewrite length_take; lia).
      symmetry. apply startsWith_char_app.
      intros Hempty. apply (f_equal String.length) in Hempty.
      rewrite length_drop, length_take in Hempty by done. simpl in Hempty.
      lia.
Qed.

(** What a value that [parseDrupalMediaTag] returns is. *)
Lemma parseDrupalMediaTag_Some_inv (html uuid : string) :
  parseDrupalMediaTag html = Some uuid ->
  exists before spaces quote after,
    html = before +:+ "data-entity-uuid=" +:+ spaces
           +:+ String quote (uuid +:+ String quote after)
    /\ indexOf html "data-entity-uuid=" 0 = Some (String.length before)
    /\ trimStart spaces = ""
    /\ (quote = dquote \/ quote = "'"%char)
    /\ uuid <> ""
    /\ indexOf uuid (String quote "") 0 = None.
Proof.
  unfold parseDrupalMediaTag.
  destruct (indexOf html "data-entity-uuid=" 0) as [start|] eqn:Hstart;
    [|done].
  pose proof (indexOf_Some_at _ _ _ _ Hstart) as [Hle Hat].
  apply startsWith_true in Hat as [t Ht].
  change (String.length "data-entity-uuid=") with 17.
  assert (Hattr : drop (start + 17) html = t).
  { rewrite <- drop_drop, Ht. apply (drop_app_length "data-entity-uuid="). }
  rewrite Hattr. set (n := space_run t).
  unfold charAt.
  destruct (String.get (start + 17 + n) html) as [quote|] eqn:Hget; [|done].
  apply get_Some_drop in Hget as [Hlt Hquote].
  assert (Hrest : drop (start + 17 + n + 1) html = drop (S n) t).
  { rewrite <- Hattr, drop_drop. f_equal. lia. }
  replace (S (start + 17 + n)) with (start + 17 + n + 1) in Hquote by lia.
  rewrite <- drop_drop, Hattr, Hrest in Hquote.
  destruct (Ascii.eqb quote dquote || Ascii.eqb quote "'") eqn:Hq; [|done].
  replace (indexOf html (String quote "") (start + 17 + n + 1))
    with (indexOf html (String quote "") (start + 17 + n + 1 + 0))
    by (f_equal; lia).
  rewrite indexOf_shift by lia.
  unfold slice. rewrite Hrest.
  remember (drop (S n) t) as rest eqn:Hrest_def.
  destruct (indexOf rest (String quote "") 0) as [k|] eqn:Hend; [|done].
  simpl.
  replace (start + 17 + n + 1 + k - (start + 17 + n + 1)) with k by lia.
  destruct (String.eqb_spec (take k rest) "") as [|Hne]; [done|].
  intros [= <-].
  apply indexOf_char_Some in Hend as [Hclose Hnone].
  exists (take start html), (take n t), quote, (drop (S k) rest).
  rewrite <- Hclose, take_drop, <- Hquote, take_drop, <- Ht, take_drop.
  rewrite length_take by done.
  repeat split; try done.
  - apply space_run_take.
  - apply orb_true_iff in Hq as [->%Ascii.eqb_eq | ->%Ascii.eqb_eq]; auto.
Qed.

(** X24.  [parseDrupalMediaTag] returns a value exactly when the first
    [data-entity-uuid=] of the input is followed, after white space if
    any, by a double or single quote, a value that is not empty and has no
    quote of that kind in it, and the same quote again; the value returned
    is that value.  An attribute further on is never read. *)
Theorem parseDrupalMediaTag_value (html uuid : string) :
  parseDrupalMediaTag html = Some uuid <->
  exists before spaces quote after,
    html = before +:+ "data-entity-uuid=" +:+ spaces
           +:+ String quote (uuid +:+ String quote after)
    /\ indexOf html "data-entity-uuid=" 0 = Some (String.length before)
    /\ trimStart spaces = ""
    /\ (quote = dquote \/ quote = "'"%char)
    /\ uuid <> ""
    /\ indexOf uuid (String quote "") 0 = None.
Proof.
  split; [apply parseDrupalMediaTag_Some_inv|].
  intros (before & spaces & quote & after & -> & Hattr & Hspaces & Hquote
          & Hne & Hnone).
  by apply parseDrupalMediaTag_wellformed.
Qed.

Lemma scan_tags_read_from (fuel : nat) (html : string) (index : nat)
    (uuids : list string) :
  Forall (read_from html) uuids ->
  Forall (read_from html) (scan_tags fuel html index uuids).
Proof.
  revert index uuids.
  induction fuel as [|fuel IH]; intros index uuids Huuids; cbn [scan_tags];
    [done|].
  destruct (Nat.ltb index (String.length html)); [|done].
  destruct (indexOf html "<drupal-media" index) as [start|] eqn:Hstart;
    [|done].
  destruct (indexOf html ">" start) as [end_|] eqn:Hend; [|done].
  apply IH.
  destruct (parseDrupalMediaTag _) as [uuid|] eqn:Hparse; [|done].
  apply Forall_app. split; [done|]. apply Forall_singleton. split.
  - apply parseDrupalMediaTag_Some_inv in Hparse
      as (before & spaces & quote & after & _ & _ & _ & _ & Hne & _).
    exact Hne.
  - exists start, end_. split; [|done].
    apply indexOf_Some_at in Hstart as [_ Hat]. exact Hat.
Qed.

(** X25.  Every value that [extractEmbeddedMediaUuids] returns is not empty
    and is what [parseDrupalMediaTag] reads from a part of the input that
    begins with [<drupal-media] and ends at the first [>] from there on. *)
Theorem extractEmbeddedMediaUuids_elements (html uuid : string) :
  uuid ∈ extractEmbeddedMediaUuids html ->
  uuid <> ""
  /\ exists start end_,
       startsWith (drop start html) "<drupal-media" = true
       /\ indexOf html ">" start = Some end_
       /\ parseDrupalMediaTag (slice html start (end_ + 1)) = Some uuid.
Proof.
  intros Hin. unfold extractEmbeddedMediaUuids in Hin.
  pose proof (scan_tags_read_from (String.length html) html 0 []
                (Forall_nil_2 _)) as Hall.
  rewrite Forall_forall in Hall. by apply Hall.
Qed.

(** The example: the second reference of the article. *)
Lemma extractEmbeddedMediaUuids_elements_witness :
  "b" <> ""
  /\ exists start end_,
       JsString.startsWith (JsString.drop start Documents.article)
         "<drupal-media" = true
       /\ JsString.indexOf Documents.article ">" start = Some end_
       /\ Media.parseDrupalMediaTag
            (JsString.slice Documents.article start (end_ + 1)) = Some "b".
Proof.
  apply (EmbeddedFacts.extractEmbeddedMediaUuids_elements Documents.article).
  vm_compute. apply elem_of_cons. right. apply elem_of_cons. by left.
Defined.

End EmbeddedFacts.

(** * Further properties of the file URLs *)

Module UrlFacts.
Import JsString JsStringFacts Url Media Text.

Lemma absolute_app (base path : string) :
  startsWith base "http://" || startsWith base "https://" = true ->
  absolute (base +:+ path) = true.
Proof.
  unfold absolute.
  intros [Hb|Hb]%orb_true_iff; apply startsWith_true in Hb as [t ->];
    rewrite str_app_assoc, startsWith_app; by rewrite ?orb_true_r.
Qed.

Lemma absolute_not_empty (s : string) : absolute s = true -> s <> "".
Proof. by intros Habs ->. Qed.

Section WithConfiguration.
Context `{Configuration}.

(** What [resolveFileUrl] returns is absolute when the base origin is. *)
Lemma resolveFileUrl_result (url : jsval) (options : option BaseOptions)
    (r : string) :
  (forall base,
     getDrupalBaseUrlFromOptions options = Ok base ->
     startsWith base "http://" || startsWith base "https://" = true) ->
  resolveFileUrl url options = Ok (Some r) ->
  absolute r = true.
Proof.
  intros Hbase. unfold resolveFileUrl.
  destruct (Js.truthy url); [|done]. simpl.
  destruct url as [| |b|z|text|items|props]; try done.
  destruct (startsWith text "http://" || startsWith text "https://") eqn:Hhttp.
  { intros [= <-]. unfold absolute. by rewrite Hhttp. }
  destruct (startsWith text "data:") eqn:Hdata.
  { intros [= <-]. unfold absolute. by rewrite Hdata, orb_true_r. }
  destruct (startsWith text "//") eqn:Hslash.
  { apply startsWith_true in Hslash as [t ->]. intros [= <-]. reflexivity. }
  destruct (getDrupalBaseUrlFromOptions options) as [base|] eqn:Hconf;
    [|done].
  simpl. intros [= <-]. by apply absolute_app, Hbase.
Qed.

Lemma resolveFileUrl_of_absolute (r : string) (options : option BaseOptions) :
  absolute r = true -> resolveFileUrl (JStr r) options = Ok (Some r).
Proof.
  intros Habs. pose proof (absolute_not_empty r Habs) as Hne.
  unfold resolveFileUrl. cbn [Js.truthy].
  apply String.eqb_neq in Hne as ->. cbn [negb].
  unfold absolute in Habs.
  destruct (startsWith r "http://" || startsWith r "https://"); [done|].
  cbn [orb] in Habs. by rewrite Habs.
Qed.

(** X26.  With a base origin that is an [http(s)] address, whatever
    [resolveFileUrl] returns is an absolute [http(s)] address or a [data:]
    address, it is not empty, and resolving it again, under any options,
    returns it unchanged. *)
Theorem resolveFileUrl_fixed_point (url : jsval) (options : option BaseOptions)
    (r : string) :
  (forall base,
     getDrupalBaseUrlFromOptions options = Ok base ->
     startsWith base "http://" || startsWith base "https://" = true) ->
  resolveFileUrl url options = Ok (Some r) ->
  absolute r = true
  /\ r <> ""
  /\ forall options', resolveFileUrl (JStr r) options' = Ok (Some r).
Proof.
  intros Hbase Hr. pose proof (resolveFileUrl_result _ _ _ Hbase Hr) as Habs.
  split; [done|]. split; [by apply absolute_not_empty|].
  intros options'. by apply resolveFileUrl_of_absolute.
Qed.

(** X27.  [resolveFileUrl] asks for the base origin only when it has to:
    an input that is missing, empty, absolute, a [data:] address or
    protocol-relative is answered without a configured base origin, and
    for any other text the error of the configuration is the error of
    [resolveFileUrl]. *)
Theorem resolveFileUrl_unconfigured (url : string)
    (options : option BaseOptions) (e : exn) :
  getDrupalBaseUrlFromOptions options = Throw e ->
  (resolveFileUrl JUndefined options = Ok None
   /\ resolveFileUrl JNull options = Ok None)
  /\ (resolveFileUrl (JStr url) options = Throw e <->
      url <> "" /\ absolute url = false /\ startsWith url "//" = false).
Proof.
  intros Hconf. split; [done|]. unfold resolveFileUrl, absolute.
  cbn [Js.truthy]. destruct (String.eqb_spec url "") as [->|Hne].
  { split; [done|]. by intros [? _]. }
  cbn [negb].
  destruct (startsWith url "http://" || startsWith url "https://").
  { split; [done|]. by intros (_ & ? & _). }
  cbn [orb]. destruct (startsWith url "data:").
  { split; [done|]. by intros (_ & ? & _). }
  destruct (startsWith url "//").
  { split; [done|]. by intros (_ & _ & ?). }
  rewrite Hconf. by split.
Qed.

Lemma getFileUrl_absolute (file : option JsonApiResource) (u : string) :
  (forall base,
     getDrupalBaseUrlFromOptions None = Ok base ->
     startsWith base "http://" || startsWith base "https://" = true) ->
  getFileUrl file None = Ok (Some u) ->
  absolute u = true.
Proof.
  intros Hbase. unfold getFileUrl.
  destruct (file ≫= attributes) as [attrs|]; [|done].
  by apply resolveFileUrl_result.
Qed.

Lemma extractImageFromFile_absolute (file : option JsonApiResource)
    (img : DrupalImageData) :
  (forall base,
     getDrupalBaseUrlFromOptions None = Ok base ->
     startsWith base "http://" || startsWith base "https://" = true) ->
  extractImageFromFile file = Ok (Some img) ->
  absolute (src img) = true.
Proof.
  intros Hbase. unfold extractImageFromFile.
  destruct file as [file|]; [|done].
  destruct (getFileUrl (Some file) None) as [[u|]|] eqn:Hurl; simpl;
    try done.
  destruct u as [|c u]; [done|]. intros [= <-]. simpl.
  by apply (getFileUrl_absolute (Some file)).
Qed.

(** X28.  With a base origin that is an [http(s)] address, every URL that
    [extractMedia] derives from a file is absolute: the URL of a
    descriptor of any kind but remote video, and the source of its image
    data.  (The URL of a remote video is the attribute of the media as it
    stands.) *)
Theorem extractMedia_urls_absolute (media : JsonApiResource)
    (included : option (list JsonApiResource)) (d : DrupalMediaData) :
  (forall base,
     getDrupalBaseUrlFromOptions None = Ok base ->
     startsWith base "http://" || startsWith base "https://" = true) ->
  extractMedia (Some media) included = Ok (Some d) ->
  (type d <> RemoteVideo -> forall u, url d = Some u -> absolute u = true)
  /\ (forall img, image d = Some img -> absolute (src img) = true).
Proof.
  intros Hbase. unfold extractMedia.
  set (bundle := remove_first (res_type media) "media--").
  destruct (String.eqb bundle "image").
  { destruct (findIncludedByRelationship _ _) as [file|].
    - destruct (extractImageFromFile (Some file)) as [[fileImage|]|] eqn:Himg;
        simpl; try done; intros [= <-]; simpl; [|by split].
      apply (extractImageFromFile_absolute _ _ Hbase) in Himg.
      split; [intros _ u [= <-]|intros img [= <-]]; done.
    - intros [= <-]. by split. }
  destruct (String.eqb bundle "video").
  { destruct (findIncludedByRelationship _ _) as [file|].
    - destruct (getFileUrl (Some file) None) as [u|] eqn:Hurl; simpl; [|done].
      intros [= <-]. simpl. split; [|done]. intros _ u' ->.
      by apply (getFileUrl_absolute (Some file)).
    - intros [= <-]. by split. }
  destruct (String.eqb bundle "remote_video").
  { destruct (Js.truthy _).
    - destruct (Js.prop_opt _ _); try done. intros [= <-]. by split.
    - intros [= <-]. by split. }
  destruct (String.eqb bundle "file" || String.eqb bundle "document").
  { destruct (findIncludedByRelationship _ _) as [file|].
    - destruct (getFileUrl (Some file) None) as [u|] eqn:Hurl; simpl; [|done].
      intros [= <-]. simpl. split; [|done]. intros _ u' ->.
      by apply (getFileUrl_absolute (Some file)).
    - intros [= <-]. by split. }
  destruct (String.eqb bundle "audio").
  { destruct (findIncludedByRelationship _ _) as [file|].
    - destruct (getFileUrl (Some file) None) as [u|] eqn:Hurl; simpl; [|done].
      intros [= <-]. simpl. split; [|done]. intros _ u' ->.
      by apply (getFileUrl_absolute (Some file)).
    - intros [= <-]. by split. }
  intros [= <-]. by split.
Qed.

End WithConfiguration.

(** The example: a relative path, resolved once and again. *)
Lemma resolveFileUrl_fixed_point_witness :
  let cfg := fixed_base "https://cms.example.com" in
  Text.absolute Documents.original_url = true
  /\ Documents.original_url <> ""
  /\ forall options',
       @resolveFileUrl cfg (JStr Documents.original_url) options'
       = Ok (Some Documents.original_url).
Proof.
  intros cfg.
  apply (@resolveFileUrl_fixed_point cfg
           (JStr "sites/default/files/a.png") None).
  - by intros base [= <-].
  - reflexivity.
Defined.

(** The example: a configuration without base origin. *)
Lemma resolveFileUrl_unconfigured_witness :
  let cfg := {| getDrupalBaseUrlFromOptions := fun _ =>
                  Throw (ExternalError "DRUPAL_BASE_URL is not set") |} in
  @resolveFileUrl cfg (JStr "/sites/default/files/a.png") None
  = Throw (ExternalError "DRUPAL_BASE_URL is not set").
Proof.
  intros cfg.
  apply (@resolveFileUrl_unconfigured cfg "/sites/default/files/a.png" None
           (ExternalError "DRUPAL_BASE_URL is not set") eq_refl).
  by repeat split.
Defined.

(** The example: the clip and its file. *)
Lemma extractMedia_urls_absolute_witness :
  let cfg := fixed_base "https://cms.example.com" in
  exists d u,
    @extractMedia cfg (Some MoreDocuments.clip) (Some [MoreDocuments.mp4])
      = Ok (Some d)
    /\ url d = Some u /\ Text.absolute u = true.
Proof.
  intros cfg. eexists _, _. split; [reflexivity|]. split; [reflexivity|].
  destruct (@extractMedia_urls_absolute cfg MoreDocuments.clip
              (Some [MoreDocuments.mp4]) _ ltac:(by intros base [= <-])
              eq_refl) as [Hurl _].
  by apply Hurl.
Defined.

End UrlFacts.
